(** * Bazel test support of the Go extension: a shallow embedding

    The development follows the TypeScript sources:
    - [src/bazel/bazelTestUtils.ts]: [getErrorMessageCollector],
      [getBazelArgs], [testResultXMLToGoTestOutput], [processBuildEvents];
    - [src/bazel/bazelCoverage.ts]: [lcovLinesToEditorRanges],
      [GoCoverageHandler.processLcovFiles];
    - [src/bazel/bazelRun.ts]: [BazelGoTestRunner.resolveTestName],
      [formatTestCaseForFilter], [resolveSubtest].

    Part I holds the definitions, Part II the properties. *)

From Stdlib Require Import String Ascii List ZArith Lia Bool Arith.
From Stdlib Require Import DecimalString Permutation.
Import ListNotations.
Open Scope string_scope.
Open Scope list_scope.

(** String concatenation ([+] and template literals of the sources). *)
Infix "+++" := String.append (at level 60, right associativity).

(* ===================================================================== *)
(** * Part I. Definitions                                                 *)
(* ===================================================================== *)

(** ** JavaScript strings

    A JavaScript string is a sequence of code units.  A [string] of Rocq
    stands for one whose code units are below 256, an [ascii] being one
    code unit.  Indices are [Z], as [indexOf] answers [-1]. *)
Module JS.

Definition jsLength (s : string) : Z := Z.of_nat (String.length s).

(** [p] is the beginning of [s]. *)
Fixpoint isPrefixOf (p s : string) : bool :=
  match p with
  | EmptyString => true
  | String a p' =>
      match s with
      | EmptyString => false
      | String b s' => Ascii.eqb a b && isPrefixOf p' s'
      end
  end.

(** [s.startsWith(p)]. *)
Definition startsWith (s p : string) : bool := isPrefixOf p s.

(** The rest of [s] after the literal [p], when [s] starts with [p]. *)
Fixpoint stripPrefix (p s : string) : option string :=
  match p with
  | EmptyString => Some s
  | String a p' =>
      match s with
      | EmptyString => None
      | String b s' => if Ascii.eqb a b then stripPrefix p' s' else None
      end
  end.

(** [s.slice(n)] for [0 <= n]. *)
Fixpoint sliceFrom (n : nat) (s : string) : string :=
  match n with
  | O => s
  | S n' => match s with EmptyString => EmptyString | String _ s' => sliceFrom n' s' end
  end.

(** The first [n] code units of [s]. *)
Fixpoint takeN (n : nat) (s : string) : string :=
  match n with
  | O => EmptyString
  | S n' => match s with EmptyString => EmptyString | String a s' => String a (takeN n' s') end
  end.

(** [s.substring(0, e)]: a negative end counts as 0, one beyond the
    length as the length. *)
Definition substring0 (s : string) (e : Z) : string := takeN (Z.to_nat e) s.

(** The index, counted from [i], of the first [c] in [s]. *)
Fixpoint findChar (c : ascii) (i : nat) (s : string) : option nat :=
  match s with
  | EmptyString => None
  | String a s' => if Ascii.eqb a c then Some i else findChar c (S i) s'
  end.

(** [s.indexOf(c, from)] for a one-character [c]: a negative [from]
    counts as 0; the answer is [-1] when there is none. *)
Definition indexOf (s : string) (c : ascii) (from : Z) : Z :=
  let k := Z.to_nat from in
  match findChar c k (sliceFrom k s) with
  | Some i => Z.of_nat i
  | None => (-1)%Z
  end.

(** [s.charAt(i) === c] for a one-character [c]: [charAt] answers the
    empty string outside the string. *)
Definition charAtIs (s : string) (i : Z) (c : ascii) : bool :=
  if (i <? 0)%Z then false
  else match String.get (Z.to_nat i) s with
       | Some a => Ascii.eqb a c
       | None => false
       end.

(** Line terminators below 256: line feed and carriage return. *)
Definition isLineTerminator (a : ascii) : bool :=
  let n := nat_of_ascii a in ((n =? 10) || (n =? 13))%nat.

(** White space ([\s]) below 256. *)
Definition isWhiteSpace (a : ascii) : bool :=
  let n := nat_of_ascii a in
  (((9 <=? n) && (n <=? 13)) || (n =? 32) || (n =? 160))%nat.

(** Decimal digits ([\d]). *)
Definition isDigit (a : ascii) : bool :=
  let n := nat_of_ascii a in ((48 <=? n) && (n <=? 57))%nat.

(** The rest of [s] after its leading digits, and whether there was one. *)
Fixpoint skipDigits (seen : bool) (s : string) : bool * string :=
  match s with
  | EmptyString => (seen, s)
  | String a s' => if isDigit a then skipDigits true s' else (seen, s)
  end.

(** [l.join(sep)] on strings. *)
Fixpoint join (sep : string) (l : list string) : string :=
  match l with
  | [] => EmptyString
  | [x] => x
  | x :: rest => x +++ sep +++ join sep rest
  end.

(** [s.split(c)] for a one-character separator: never empty, the empty
    string gives one empty piece. *)
Fixpoint split (c : ascii) (s : string) : list string :=
  match s with
  | EmptyString => [EmptyString]
  | String a s' =>
      if Ascii.eqb a c then EmptyString :: split c s'
      else match split c s' with
           | [] => [String a EmptyString]
           | p :: ps => String a p :: ps
           end
  end.

End JS.

(** ** The error-message collector ([getErrorMessageCollector]) *)
Module Collector.
Import JS.

(** [regError = /^(ERROR:|Internal error thrown during build.)\s/m] tried
    at the head of [s]: the dot is any code unit but a line terminator. *)
Definition regErrorHere (s : string) : bool :=
  match stripPrefix "ERROR:" s with
  | Some (String w _) => isWhiteSpace w
  | _ => false
  end
  ||
  match stripPrefix "Internal error thrown during build" s with
  | Some (String d (String w _)) => negb (isLineTerminator d) && isWhiteSpace w
  | _ => false
  end.

(** The leftmost match of [regError]: with the [m] flag, [^] holds at the
    start of the input and after every line terminator.  [bol] says
    whether the head of [s] starts a line, [i] is its index. *)
Fixpoint regErrorScan (bol : bool) (i : nat) (s : string) : option nat :=
  match s with
  | EmptyString => None
  | String a s' =>
      if bol && regErrorHere s then Some i
      else regErrorScan (isLineTerminator a) (S i) s'
  end.

(** [regError.exec(msg)?.index]. *)
Definition regErrorExec (msg : string) : option nat := regErrorScan true 0 msg.

(** [regNonErrorLog = /^(DEBUG|INFO|WARN):/], no flag: the start of the
    input only. *)
Definition regNonErrorLogTest (msg : string) : bool :=
  startsWith msg "DEBUG:" || startsWith msg "INFO:" || startsWith msg "WARN:".

(** [regProgress = /^\[\d+ \/ \d+\]/]. *)
Definition regProgressTest (msg : string) : bool :=
  match stripPrefix "[" msg with
  | Some r1 =>
      match skipDigits false r1 with
      | (true, r2) =>
          match stripPrefix " / " r2 with
          | Some r3 =>
              match skipDigits false r3 with
              | (true, r4) => startsWith r4 "]"
              | _ => false
              end
          | None => false
          end
      | _ => false
      end
  | None => false
  end.

(** The closure's two variables: [sawError] and the [output] array. *)
Record state := { sawError : bool; output : list string }.

(** [getErrorMessageCollector()]: a fresh closure. *)
Definition init : state := {| sawError := false; output := [] |}.

(** One call of the returned function; [None] is a call with no argument.
    The array it returns is [output] of the new state. *)
Definition updateErrorMessages (msg : option string) (c : state) : state :=
  match msg with
  | None => c
  | Some EmptyString => c
  | Some m =>
      let errMsg := match regErrorExec m with
                    | Some index => sliceFrom index m
                    | None => EmptyString
                    end in
      if (0 <? String.length errMsg)%nat then
        {| sawError := true; output := output c ++ [errMsg] |}
      else if sawError c && negb (regNonErrorLogTest m) && negb (regProgressTest m) then
        {| sawError := false; output := output c ++ [m] |}
      else
        {| sawError := false; output := output c |}
  end.

(** The collector fed a sequence of calls, the first one first. *)
Definition feed (msgs : list (option string)) (c : state) : state :=
  fold_left (fun c m => updateErrorMessages m c) msgs c.

(** A line of the three kinds rule 3 names as no continuation: an
    error introduction, a log-level prefix, a progress counter. *)
Definition isErrorLine (m : string) : bool :=
  match regErrorExec m with Some _ => true | None => false end.

(** A non-empty line that is none of them. *)
Definition isContinuationLine (m : string) : bool :=
  negb (String.eqb m EmptyString) && negb (isErrorLine m)
  && negb (regNonErrorLogTest m) && negb (regProgressTest m).

End Collector.

(** ** The argument vector of the bazel command ([getBazelArgs]) *)
Module BazelArgs.
Import JS.

(** [enum BazelCommands], with the text of each member. *)
Inductive BazelCommands := Test | Debug | Coverage | Benchmark.

Definition commandText (c : BazelCommands) : string :=
  match c with
  | Test => "test"
  | Debug => "debug"
  | Coverage => "coverage"
  | Benchmark => "run"
  end.

(** The fields of [TestConfig] that [getBazelArgs] reads.  [functions]
    is optional; [testEnvArgs] stands for what
    [getBazelTestEnvVars(testconfig.goConfig)] returns. *)
Record TestConfig := {
  applyCodeCoverage : bool;
  isBenchmark : bool;
  functions : option (list string);
  flags : list string;
  testEnvArgs : list string
}.

(** The debug configuration, of which only the port is read. *)
Record DebugConfiguration := { port : string }.

(** [TEST_NAME_SPECIAL_CHARACTERS = /[.*+?^${}()|[\]\\]/g]. *)
Definition isSpecialCharacter (a : ascii) : bool :=
  existsb (Ascii.eqb a)
    ["."; "*"; "+"; "?"; "^"; "$"; "{"; "}"; "("; ")"; "|"; "["; "]"; "\"]%char.

(** [curr.replace(TEST_NAME_SPECIAL_CHARACTERS, '\\$&')]: the pattern is
    global, every special character gets a backslash before it. *)
Fixpoint escapeSpecialCharacters (s : string) : string :=
  match s with
  | EmptyString => EmptyString
  | String a s' =>
      if isSpecialCharacter a
      then String "\"%char (String a (escapeSpecialCharacters s'))
      else String a (escapeSpecialCharacters s')
  end.

(** [s.replace('/', '$/^')]: the pattern is a string, so the first
    occurrence alone is replaced; [$/] is no replacement pattern and
    stands for itself. *)
Fixpoint replaceFirstSlash (s : string) : string :=
  match s with
  | EmptyString => EmptyString
  | String a s' =>
      if Ascii.eqb a "/"%char then "$/^" +++ s'
      else String a (replaceFirstSlash s')
  end.

(** One pass of the [forEach] that fills [filterFunctions]. *)
Definition filterFunction (curr : string) : string :=
  replaceFirstSlash (escapeSpecialCharacters curr).

(** The value of the [--test_filter] flag. *)
Definition testFilter (filterFunctions : list string) : string :=
  match filterFunctions with
  | [f] => "--test_filter='^" +++ f +++ "$'"
  | _ => "--test_filter='^(" +++ join "|" filterFunctions +++ ")$'"
  end.

Definition getBazelArgs (testconfig : TestConfig) (bazelTargets : list string)
    (buildEventsFile : string) (debugConfig : option DebugConfiguration) : list string :=
  let bazelCmd :=
    match debugConfig with
    | Some _ => Debug
    | None =>
        if applyCodeCoverage testconfig then Coverage
        else if isBenchmark testconfig then Benchmark
        else Test
    end in
  let testFlags :=
    [ "--build_tests_only";
      "--test_env=GO_TEST_WRAP_TESTV=1";
      "--build_event_json_file=" +++ buildEventsFile;
      "--build_event_json_file_path_conversion=no" ] in
  let bazelArgs := [commandText bazelCmd] in
  let bazelArgs :=
    match bazelCmd with
    | Debug =>
        match debugConfig with
        | Some d => bazelArgs ++ ["--port=" +++ port d]
        | None => bazelArgs
        end
    | Coverage =>
        (bazelArgs
           ++ ["--combined_report=lcov"; "--@io_bazel_rules_go//go/config:cover_format=lcov"])
          ++ testFlags
    | Benchmark | Test => bazelArgs ++ testFlags
    end in
  let bazelArgs := bazelArgs ++ ["--tool_tag=vscode-go-bazel"] in
  let bazelArgs :=
    match functions testconfig with
    | Some fs =>
        if (List.length bazelTargets =? 1)%nat
        then bazelArgs ++ [testFilter (map filterFunction fs)]
        else bazelArgs
    | None => bazelArgs
    end in
  let bazelArgs := bazelArgs ++ flags testconfig in
  let bazelArgs := bazelArgs ++ testEnvArgs testconfig in
  let bazelArgs := bazelArgs ++ bazelTargets in
  if isBenchmark testconfig then bazelArgs ++ ["-- -test.bench=."] else bazelArgs.

(** What the comment on the filter and the specification ask for: every
    slash of a subtest path becomes the anchoring [$/^]. *)
Fixpoint anchorEverySegment (s : string) : string :=
  match s with
  | EmptyString => EmptyString
  | String a s' =>
      if Ascii.eqb a "/"%char then "$/^" +++ anchorEverySegment s'
      else String a (anchorEverySegment s')
  end.

Definition filterFunctionAsSpecified (curr : string) : string :=
  anchorEverySegment (escapeSpecialCharacters curr).

(** The number of slashes of a name. *)
Fixpoint countSlashes (s : string) : nat :=
  match s with
  | EmptyString => 0
  | String a s' => (if Ascii.eqb a "/"%char then 1 else 0) + countSlashes s'
  end.

(** The test configuration of the unit tests, with the names to run. *)
Definition sampleConfig (fs : list string) : TestConfig :=
  {| applyCodeCoverage := false; isBenchmark := false; functions := Some fs;
     flags := ["--user_sample_flag=TRUE"; "--other_user_flag=FALSE"];
     testEnvArgs := [] |}.

End BazelArgs.

(** ** Line coverage ([bazelCoverage.ts]) *)
Module Coverage.
Import JS.

(** [lcovParse.LcovLine]: a line number from 1 and its execution count. *)
Module LcovLine.
Record t := { line : Z; hit : Z }.
End LcovLine.

(** The count of a detail line is positive. *)
Definition isCovered (d : LcovLine.t) : bool := (LcovLine.hit d >? 0)%Z.

(** [lcovParse.LcovPart<LcovLine>]. *)
Module LcovPart.
Record t := { found : Z; hit : Z; details : list LcovLine.t }.
End LcovPart.

(** [lcovParse.LcovFile], of which the file and its lines are read. *)
Module LcovFile.
Record t := { file : string; lines : LcovPart.t }.
End LcovFile.

(** [vscode.Range] built from two lines and two columns. *)
Record Range := {
  startLine : Z; startCharacter : Z; endLine : Z; endCharacter : Z
}.

(** [vscode.DecorationOptions]: the range it decorates. *)
Record DecorationOptions := { range : Range }.

(** [CoverageData] of goCover, of which the two option lists are filled. *)
Record CoverageData := {
  uncoveredOptions : list DecorationOptions;
  coveredOptions : list DecorationOptions
}.

(** Modelled from the spec: [emptyCoverageData] of goCover is not among
    the sources.  It is the coverage of a file with no range yet. *)
Definition emptyCoverageData : CoverageData :=
  {| uncoveredOptions := []; coveredOptions := [] |}.

(** Modelled from the spec: [elaborate] of goCover is not among the
    sources.  The specification has one covered or uncovered range per
    detail line, so it answers one decoration, on the range it is given. *)
Definition elaborateOneRange (r : Range) (count : Z) (showCounts : bool)
  : list DecorationOptions := [ {| range := r |} ].

Section LcovLines.

(** [elaborate] of goCover, imported by the file. *)
Variable elaborate : Range -> Z -> bool -> list DecorationOptions.

(** The range of a detail line: lines and columns from 0, columns 0 to
    1000 to cover the line. *)
Definition lineRange (lineDetails : LcovLine.t) : Range :=
  {| startLine := LcovLine.line lineDetails - 1; startCharacter := 0;
     endLine := LcovLine.line lineDetails - 1; endCharacter := 1000 |}.

(** The body of the loop over [lines.details]. *)
Definition addLine (showCounts : bool) (coverage : CoverageData)
    (lineDetails : LcovLine.t) : CoverageData :=
  let range := lineRange lineDetails in
  if (LcovLine.hit lineDetails >? 0)%Z then
    {| uncoveredOptions := uncoveredOptions coverage;
       coveredOptions :=
         coveredOptions coverage ++ elaborate range (LcovLine.hit lineDetails) showCounts |}
  else
    {| uncoveredOptions :=
         uncoveredOptions coverage ++ elaborate range (LcovLine.hit lineDetails) showCounts;
       coveredOptions := coveredOptions coverage |}.

Definition lcovLinesToEditorRanges (lines : LcovPart.t) (showCounts : bool)
  : CoverageData :=
  fold_left (addLine showCounts) (LcovPart.details lines) emptyCoverageData.

End LcovLines.

(** [CoverageTreeNode]: a package node has children, a file node none. *)
#[warnings="-register-all"]
Inductive CoverageTreeNode := {
  displayName : string;
  absolutePath : string;
  hits : Z;
  lines : Z;
  children : option (list CoverageTreeNode)
}.

(** [CoverageProcessingConfig]: its data fields, and the optional mapper,
    which is handed the configuration and the file. *)
Record CoverageSettings := {
  coverProfilePath : string;
  bazelWorkspaceRoot : string;
  currentGoWorkspace : string;
  targetPackages : list string;
  generatedFilePrefix : string
}.

Record CoverageProcessingConfig := {
  settings :> CoverageSettings;
  generatedFileMapper : option (CoverageSettings -> string -> string)
}.

(** A [Map] with string keys, in insertion order: [set] on a key that is
    there keeps its place. *)
Fixpoint mapGet {V : Type} (k : string) (m : list (string * V)) : option V :=
  match m with
  | [] => None
  | (k', v) :: m' => if String.eqb k' k then Some v else mapGet k m'
  end.

Fixpoint mapSet {V : Type} (k : string) (v : V) (m : list (string * V)) : list (string * V) :=
  match m with
  | [] => [(k, v)]
  | (k', v') :: m' =>
      if String.eqb k' k then (k', v) :: m' else (k', v') :: mapSet k v m'
  end.

Definition mapValues {V : Type} (m : list (string * V)) : list V := map snd m.

(** [targetPackages.includes(pkg)]. *)
Definition includes (l : list string) (x : string) : bool := existsb (String.eqb x) l.

Definition sumZ (l : list Z) : Z := fold_right Z.add 0%Z l.

Section LcovFiles.

Variable elaborate : Range -> Z -> bool -> list DecorationOptions.
(** [path.join], [path.relative], [path.dirname], [path.basename] of Node. *)
Variable pathJoin : string -> string -> string.
Variable pathRelative : string -> string -> string.
Variable pathDirname : string -> string.
Variable pathBasename : string -> string.

(** [getSourceFileAbsolutePath(config, coverageFile)]. *)
Definition getSourceFileAbsolutePath (config : CoverageProcessingConfig)
    (coverageFile : string) : string :=
  if startsWith coverageFile (generatedFilePrefix config) then
    match generatedFileMapper config with
    | Some mapper => mapper config coverageFile
    | None => pathJoin (bazelWorkspaceRoot config) coverageFile
    end
  else pathJoin (bazelWorkspaceRoot config) coverageFile.

(** The path of a file relative to the Go workspace, and its package. *)
Definition fileRelativePath (config : CoverageProcessingConfig) (f : LcovFile.t) : string :=
  pathRelative (currentGoWorkspace config)
    (getSourceFileAbsolutePath config (LcovFile.file f)).

Definition packageOf (config : CoverageProcessingConfig) (f : LcovFile.t) : string :=
  pathDirname (fileRelativePath config f).

(** The child pushed for a file. *)
Definition fileNode (config : CoverageProcessingConfig) (f : LcovFile.t) : CoverageTreeNode :=
  {| displayName := pathBasename (fileRelativePath config f);
     absolutePath := getSourceFileAbsolutePath config (LcovFile.file f);
     hits := LcovPart.hit (LcovFile.lines f);
     lines := LcovPart.found (LcovFile.lines f);
     children := None |}.

(** The two maps of [processLcovFiles]. *)
Record maps := {
  coveragePath : list (string * CoverageData);
  resultsTree : list (string * CoverageTreeNode)
}.

(** The body of the loop over the files of the report. *)
Definition addFile (showCounts : bool) (config : CoverageProcessingConfig)
    (m : maps) (coverageForFile : LcovFile.t) : maps :=
  let fileAbsolutePath := getSourceFileAbsolutePath config (LcovFile.file coverageForFile) in
  let pkg := packageOf config coverageForFile in
  if negb (includes (targetPackages config) pkg) then m
  else
    let coveragePath' :=
      mapSet fileAbsolutePath
        (lcovLinesToEditorRanges elaborate (LcovFile.lines coverageForFile) showCounts)
        (coveragePath m) in
    let pkgRootNode :=
      match mapGet pkg (resultsTree m) with
      | Some node => node
      | None =>
          {| displayName := pkg; absolutePath := pkg; hits := 0; lines := 0;
             children := Some [] |}
      end in
    let pkgRootNode' :=
      {| displayName := displayName pkgRootNode;
         absolutePath := absolutePath pkgRootNode;
         hits := hits pkgRootNode + LcovPart.hit (LcovFile.lines coverageForFile);
         lines := lines pkgRootNode + LcovPart.found (LcovFile.lines coverageForFile);
         children :=
           match children pkgRootNode with
           | Some cs => Some (cs ++ [fileNode config coverageForFile])
           | None => None
           end |} in
    {| coveragePath := coveragePath';
       resultsTree := mapSet pkg pkgRootNode' (resultsTree m) |}.

(** What [processLcovFiles] hands on: the path map given to
    [createCoverageData] and the roots after the calls of [addTreeRoot]. *)
Record processed := {
  coverageData : list (string * CoverageData);
  coverageTreeRoots : list CoverageTreeNode
}.

(** [processLcovFiles(data, config)] on a handler whose tree holds
    [roots]; [None] when nothing is done ([data] undefined). *)
Definition processLcovFiles (showCounts : bool) (roots : list CoverageTreeNode)
    (data : option (list LcovFile.t)) (config : CoverageProcessingConfig)
  : option processed :=
  match data with
  | None => None
  | Some files =>
      let m := fold_left (addFile showCounts config) files
                 {| coveragePath := []; resultsTree := [] |} in
      Some {| coverageData := coveragePath m;
              coverageTreeRoots := roots ++ mapValues (resultsTree m) |}
  end.

End LcovFiles.

(** The sample of the specification's scenario. *)
Definition sampleLines : LcovPart.t :=
  {| LcovPart.found := 110; LcovPart.hit := 100;
     LcovPart.details :=
       [ {| LcovLine.line := 30; LcovLine.hit := 2 |};
         {| LcovLine.line := 40; LcovLine.hit := 0 |};
         {| LcovLine.line := 51; LcovLine.hit := 2 |} ] |}%Z.

End Coverage.

(** ** The test report ([testResultXMLToGoTestOutput]) *)
Module XmlReport.
Import JS.

(** The line feed the text is split on. *)
Definition LF : ascii := "010"%char.

(** A [failure], [error] or [skipped] element as the XML parser hands it
    over.  An element that has text and nothing else comes as a string,
    the text, and an element that has nothing as the empty string; any
    other element comes as an object, which has the property [_], the
    text, when the element has text that is not white space alone beside
    its attributes or child elements. *)
Inductive TextElement :=
| BareString (content : string)
| ElementObject (underscore : option string).

(** [entry._]: undefined on a string, and on an object without the
    property. *)
Definition text (entry : TextElement) : option string :=
  match entry with
  | BareString _ => None
  | ElementObject underscore => underscore
  end.

(** A [testcase] element: the attributes [name] and [time] of [$], and
    the optional arrays of its [failure], [error] and [skipped] children. *)
Record TestCase := {
  caseName : string;
  time : string;
  failure : option (list TextElement);
  error : option (list TextElement);
  skipped : option (list TextElement)
}.

(** A [testsuite] element: the attribute [name] of [$] and the optional
    array of its test cases. *)
Record TestSuite := {
  suiteName : string;
  testcase : option (list TestCase)
}.

(** [TestResultXML], in the shape that the conversion takes for granted:
    [resultData.testsuites.testsuite] is a list, and every suite and
    every test case has its attributes [$], with [name], and [time] for a
    test case.  On a document of another shape, without [testsuites], its
    [testsuite] or the [$] of a suite or a test case, the conversion
    throws at the place where it reads them. *)
Record TestResultXML := { testsuite : list TestSuite }.

(** [Number(text)], the number a text denotes, left uninterpreted. *)
Inductive JsNumber := Number (text : string).

(** [GoTestOutput]: [Output] and [Elapsed] are optional. *)
Record GoTestOutput := {
  Action : string;
  Output : option string;
  Package : string;
  Test : string;
  Elapsed : option JsNumber
}.

(** [entries.forEach(entry => messages.push(...entry._.split('\n')))]:
    [None] when [entry._] is undefined, where the call of [split] throws. *)
Fixpoint pushLines (entries : list TextElement) (messages : list string)
  : option (list string) :=
  match entries with
  | [] => Some messages
  | entry :: rest =>
      match text entry with
      | Some t => pushLines rest (messages ++ split LF t)
      | None => None
      end
  end.

(** The action of a test case and its messages. *)
Definition actionAndMessages (currTestCase : TestCase) : option (string * list string) :=
  match failure currTestCase with
  | Some entries => option_map (pair "fail") (pushLines entries [])
  | None =>
      match error currTestCase with
      | Some entries => option_map (pair "errored") (pushLines entries [])
      | None =>
          match skipped currTestCase with
          | Some _ => Some ("skip", [])
          | None => Some ("pass", [])
          end
      end
  end.

Definition outputEvent (currPackage : string) (currTestCase : TestCase)
    (message : string) : GoTestOutput :=
  {| Action := "output";
     Output := Some (message +++ String LF EmptyString);
     Package := currPackage;
     Test := caseName currTestCase;
     Elapsed := None |}.

Definition finalEvent (action currPackage : string) (currTestCase : TestCase)
  : GoTestOutput :=
  {| Action := action;
     Output := None;
     Package := currPackage;
     Test := caseName currTestCase;
     Elapsed := Some (Number (time currTestCase)) |}.

(** The body of the loop over the test cases of a suite. *)
Definition addTestCase (currPackage : string) (results : list GoTestOutput)
    (currTestCase : TestCase) : option (list GoTestOutput) :=
  match actionAndMessages currTestCase with
  | Some (action, messages) =>
      Some ((results ++ map (outputEvent currPackage currTestCase) messages)
              ++ [finalEvent action currPackage currTestCase])
  | None => None
  end.

(** A loop whose body may throw. *)
Fixpoint forEach {A S : Type} (body : S -> A -> option S) (l : list A) (s : S)
  : option S :=
  match l with
  | [] => Some s
  | x :: rest =>
      match body s x with
      | Some s' => forEach body rest s'
      | None => None
      end
  end.

(** The body of the loop over the suites. *)
Definition addSuite (results : list GoTestOutput) (suite : TestSuite)
  : option (list GoTestOutput) :=
  match testcase suite with
  | None => Some results
  | Some cases => forEach (addTestCase (suiteName suite)) cases results
  end.

(** [None] when the conversion throws. *)
Definition testResultXMLToGoTestOutput (resultData : TestResultXML)
  : option (list GoTestOutput) :=
  forEach addSuite (testsuite resultData) [].

(** The entries whose text a test case has read: those of [failure], or
    else those of [error]. *)
Definition entriesRead (c : TestCase) : list TextElement :=
  match failure c with
  | Some entries => entries
  | None => match error c with Some entries => entries | None => [] end
  end.

(** Every entry that is read has the property [_]: it is an object, of
    an element with text beside an attribute or a child element. *)
Definition textsPresent (resultData : TestResultXML) : bool :=
  forallb (fun suite =>
             match testcase suite with
             | None => true
             | Some cases =>
                 forallb (fun c =>
                            forallb (fun e => match text e with Some _ => true | None => false end)
                              (entriesRead c))
                   cases
             end)
    (testsuite resultData).

(** *** The events of a report, case by case *)

(** The lines of the texts [_] a test case reads, in source order. *)
Definition caseLines (c : TestCase) : list string :=
  flat_map (fun e => match text e with Some t => split LF t | None => [] end)
    (entriesRead c).

(** The action a test case ends with. *)
Definition caseAction (c : TestCase) : string :=
  match failure c, error c, skipped c with
  | Some _, _, _ => "fail"
  | None, Some _, _ => "errored"
  | None, None, Some _ => "skip"
  | None, None, None => "pass"
  end.

(** The events of one test case: its output events, then its final one. *)
Definition caseEvents (pkg : string) (c : TestCase) : list GoTestOutput :=
  map (outputEvent pkg c) (caseLines c) ++ [finalEvent (caseAction c) pkg c].

Definition suiteEvents (suite : TestSuite) : list GoTestOutput :=
  match testcase suite with
  | None => []
  | Some cases => flat_map (caseEvents (suiteName suite)) cases
  end.

Definition caseTextsPresent (c : TestCase) : bool :=
  forallb (fun e => match text e with Some _ => true | None => false end) (entriesRead c).

Definition suiteTextsPresent (suite : TestSuite) : bool :=
  match testcase suite with
  | None => true
  | Some cases => forallb caseTextsPresent cases
  end.

(** A failing case whose text has an empty line between two others. *)
Definition sampleFailingCase : TestCase :=
  {| caseName := "FakeFailedTestCase"; time := "26.5";
     failure :=
       Some [ ElementObject
                (Some ("Message line 1" +++ String LF (String LF "Message line 3"))) ];
     error := None; skipped := None |}.

Definition sampleReport : TestResultXML :=
  {| testsuite :=
       [ {| suiteName := "code/sample/emptypackage"; testcase := None |};
         {| suiteName := "code/sample/fakepackage";
            testcase := Some [ {| caseName := "FakeTestCase"; time := "10";
                                  failure := None; error := None; skipped := None |};
                               sampleFailingCase ] |} ] |}.

End XmlReport.

(** ** The build event stream ([processBuildEvents]) *)
Module BuildEvents.
Import JS.

(** What [JSON.parse] returns, and [undefined] for what a property
    access may answer.  Numbers are the integers. *)
#[warnings="-register-all"]
Inductive value :=
| JUndefined
| JNull
| JBool (b : bool)
| JNum (z : Z)
| JStr (s : string)
| JArr (elements : list value)
| JObj (fields : list (string * value)).

Fixpoint lookupField (k : string) (fields : list (string * value)) : option value :=
  match fields with
  | [] => None
  | (k', v) :: rest => if String.eqb k' k then Some v else lookupField k rest
  end.

(** [v.k] for the property names read here, none of which is a property
    of a string, a number, a boolean or an array: [None] is the
    [TypeError] on [undefined] and [null]. *)
Definition prop (v : value) (k : string) : option value :=
  match v with
  | JUndefined | JNull => None
  | JObj fields =>
      match lookupField k fields with
      | Some x => Some x
      | None => Some JUndefined
      end
  | JBool _ | JNum _ | JStr _ | JArr _ => Some JUndefined
  end.

(** [v?.k]. *)
Definition optionalProp (v : value) (k : string) : option value :=
  match v with
  | JUndefined | JNull => Some JUndefined
  | _ => prop v k
  end.

(** Truthiness. *)
Definition truthy (v : value) : bool :=
  match v with
  | JUndefined | JNull => false
  | JBool b => b
  | JNum z => negb (z =? 0)%Z
  | JStr s => negb (String.eqb s EmptyString)
  | JArr _ | JObj _ => true
  end.

(** [a || b]. *)
Definition orElse (a b : value) : value := if truthy a then a else b.

(** The code units of a string, each as a string. *)
Fixpoint characters (s : string) : list value :=
  match s with
  | EmptyString => []
  | String a s' => JStr (String a EmptyString) :: characters s'
  end.

(** What [for (const x of v)] goes through: [None] when [v] is not
    iterable. *)
Definition iterate (v : value) : option (list value) :=
  match v with
  | JArr elements => Some elements
  | JStr s => Some (characters s)
  | _ => None
  end.

(** [uri.replace(/^(file:\/\/)/, '')]: only a string has [replace]. *)
Definition stripFileScheme (uri : value) : option string :=
  match uri with
  | JStr s =>
      match stripPrefix "file://" s with
      | Some rest => Some rest
      | None => Some s
      end
  | _ => None
  end.

(** [v === 'test.xml']. *)
Definition isTestXml (v : value) : bool :=
  match v with
  | JStr s => String.eqb s "test.xml"
  | _ => false
  end.

(** [BuildEventOutputs]: the fields taken from the events hold whatever
    the events carry. *)
Record BuildEventOutputs := {
  testXMLPaths : list string;
  errorMessages : list string;
  exitCode : value;
  workspaceDirectory : value;
  localExecRoot : value;
  genDir : value
}.

(** [ExitCode.FailedToParse]. *)
Definition FailedToParse : value := JNum (-1).

(** What the promise closes over: [outputs], the collector behind
    [updateErrorMessages] and the lines appended to [outputChannel]. *)
Record run := {
  outputs : BuildEventOutputs;
  collector : Collector.state;
  channel : list string
}.

Definition start : run :=
  {| outputs := {| testXMLPaths := []; errorMessages := [];
                   exitCode := FailedToParse; workspaceDirectory := JStr EmptyString;
                   localExecRoot := JUndefined; genDir := JUndefined |};
     collector := Collector.init;
     channel := [] |}.

(** Statements that change [run] and may throw: on a throw the changes
    made so far stay. *)
Definition M (A : Type) : Type := run -> option A * run.

Definition ret {A : Type} (a : A) : M A := fun r => (Some a, r).

Definition bind {A B : Type} (m : M A) (k : A -> M B) : M B :=
  fun r => match m r with
           | (Some a, r') => k a r'
           | (None, r') => (None, r')
           end.

(** A value that a [TypeError] may stand for. *)
Definition orThrow {A : Type} (o : option A) : M A := fun r => (o, r).

Definition update (f : run -> run) : M unit := fun r => (Some tt, f r).

Notation "x <- m ;; k" := (bind m (fun x => k))
  (at level 61, m at next level, right associativity).
Notation "m ;;; k" := (bind m (fun _ => k))
  (at level 61, right associativity).

Definition setOutputs (f : BuildEventOutputs -> BuildEventOutputs) : M unit :=
  update (fun r => {| outputs := f (outputs r); collector := collector r;
                      channel := channel r |}).

Definition setExitCode (v : value) : M unit :=
  setOutputs (fun o => {| testXMLPaths := testXMLPaths o; errorMessages := errorMessages o;
                          exitCode := v; workspaceDirectory := workspaceDirectory o;
                          localExecRoot := localExecRoot o; genDir := genDir o |}).

Definition setWorkspaceDirectory (v : value) : M unit :=
  setOutputs (fun o => {| testXMLPaths := testXMLPaths o; errorMessages := errorMessages o;
                          exitCode := exitCode o; workspaceDirectory := v;
                          localExecRoot := localExecRoot o; genDir := genDir o |}).

Definition setLocalExecRoot (v : value) : M unit :=
  setOutputs (fun o => {| testXMLPaths := testXMLPaths o; errorMessages := errorMessages o;
                          exitCode := exitCode o; workspaceDirectory := workspaceDirectory o;
                          localExecRoot := v; genDir := genDir o |}).

Definition setGenDir (v : value) : M unit :=
  setOutputs (fun o => {| testXMLPaths := testXMLPaths o; errorMessages := errorMessages o;
                          exitCode := exitCode o; workspaceDirectory := workspaceDirectory o;
                          localExecRoot := localExecRoot o; genDir := v |}).

Definition pushTestXMLPath (p : string) : M unit :=
  setOutputs (fun o => {| testXMLPaths := testXMLPaths o ++ [p];
                          errorMessages := errorMessages o;
                          exitCode := exitCode o; workspaceDirectory := workspaceDirectory o;
                          localExecRoot := localExecRoot o; genDir := genDir o |}).

(** [for (const x of l) body(x)]. *)
Fixpoint forOf (body : value -> M unit) (l : list value) : M unit :=
  match l with
  | [] => ret tt
  | x :: rest => body x ;;; forOf body rest
  end.

(** A statement leaves the part [f] of the run as it is. *)
Definition keeps {X A : Type} (f : run -> X) (m : M A) : Prop :=
  forall r, f (snd (m r)) = f r.

(** The part of the run that the collector does not write. *)
Definition besidesMessages (r : run) :=
  (channel r, testXMLPaths (outputs r), exitCode (outputs r),
   workspaceDirectory (outputs r), localExecRoot (outputs r), genDir (outputs r)).

(** The fields of the outputs that the payloads fill. *)
Definition payloadFields (o : BuildEventOutputs) :=
  (testXMLPaths o, workspaceDirectory o, localExecRoot o, genDir o).

Definition pathsOf (r : run) : list string := testXMLPaths (outputs r).
Definition exitCodeOf (r : run) : value := exitCode (outputs r).

(** The diagnostic of the [catch]. *)
Definition malformedDiagnostic (buildEventsFile : string) : string :=
  "ERROR: Unable to finish parsing build events due to malformed JSON in "
  +++ buildEventsFile +++ ". Test results in the UI may be incomplete.".

Section Stream.

(** [JSON.parse]: [None] when it throws. *)
Variable JSON_parse : string -> option value.

(** The collector is declared on [string | undefined].  What a call
    with a truthy value of another type does to it is left open: any
    function, [None] when the call throws. *)
Variable collectOther : value -> Collector.state -> option Collector.state.

(** [outputs.errorMessages = updateErrorMessages(stderr)]. *)
Definition collectStderr (stderr : value) : M unit :=
  fun r =>
    let c' := match stderr with
              | JStr s => Some (Collector.updateErrorMessages (Some s) (collector r))
              | _ => if truthy stderr then collectOther stderr (collector r)
                     else Some (Collector.updateErrorMessages None (collector r))
              end in
    match c' with
    | Some c =>
        let o := outputs r in
        (Some tt,
         {| outputs := {| testXMLPaths := testXMLPaths o;
                          errorMessages := Collector.output c;
                          exitCode := exitCode o;
                          workspaceDirectory := workspaceDirectory o;
                          localExecRoot := localExecRoot o; genDir := genDir o |};
            collector := c;
            channel := channel r |})
    | None => (None, r)
    end.

(** The body of the loop over [parsed.testResult.testActionOutput]. *)
Definition addTestActionOutput (testActionOutput : value) : M unit :=
  name <- orThrow (prop testActionOutput "name") ;;
  if isTestXml name then
    uri <- orThrow (prop testActionOutput "uri") ;;
    path <- orThrow (stripFileScheme uri) ;;
    pushTestXMLPath path
  else ret tt.

(** The [try] block of the line listener. *)
Definition handleLine (line : string) : M unit :=
  parsed <- orThrow (JSON_parse line) ;;
  id <- orThrow (prop parsed "id") ;;
  buildFinished <- orThrow (prop id "buildFinished") ;;
  (if truthy buildFinished then
     finished <- orThrow (prop parsed "finished") ;;
     exit <- orThrow (prop finished "exitCode") ;;
     code <- orThrow (prop exit "code") ;;
     setExitCode (orElse code (JNum 0))
   else ret tt) ;;;
  progress <- orThrow (prop parsed "progress") ;;
  stderr <- orThrow (optionalProp progress "stderr") ;;
  collectStderr stderr ;;;
  workspace <- orThrow (prop id "workspace") ;;
  if truthy workspace then
    workspaceInfo <- orThrow (prop parsed "workspaceInfo") ;;
    v <- orThrow (prop workspaceInfo "localExecRoot") ;;
    setLocalExecRoot v
  else
    started <- orThrow (prop id "started") ;;
    if truthy started then
      payload <- orThrow (prop parsed "started") ;;
      v <- orThrow (prop payload "workspaceDirectory") ;;
      setWorkspaceDirectory v
    else
      testResult <- orThrow (prop id "testResult") ;;
      if truthy testResult then
        payload <- orThrow (prop parsed "testResult") ;;
        testActionOutputs <- orThrow (prop payload "testActionOutput") ;;
        l <- orThrow (iterate testActionOutputs) ;;
        forOf addTestActionOutput l
      else
        configuration <- orThrow (prop id "configuration") ;;
        if truthy configuration then
          payload <- orThrow (prop parsed "configuration") ;;
          makeVariable <- orThrow (prop payload "makeVariable") ;;
          v <- orThrow (prop makeVariable "GENDIR") ;;
          setGenDir v
        else ret tt.

(** The three statements of the [try] block after [parsed.id] is read:
    the one on [buildFinished], the call of the collector, and the chain
    of [if]s on the id. *)
Definition exitCodeStatement (parsed id : value) : M unit :=
  buildFinished <- orThrow (prop id "buildFinished") ;;
  if truthy buildFinished then
    finished <- orThrow (prop parsed "finished") ;;
    exit <- orThrow (prop finished "exitCode") ;;
    code <- orThrow (prop exit "code") ;;
    setExitCode (orElse code (JNum 0))
  else ret tt.

Definition collectorStatement (parsed : value) : M unit :=
  progress <- orThrow (prop parsed "progress") ;;
  stderr <- orThrow (optionalProp progress "stderr") ;;
  collectStderr stderr.

Definition idStatement (parsed id : value) : M unit :=
  workspace <- orThrow (prop id "workspace") ;;
  if truthy workspace then
    workspaceInfo <- orThrow (prop parsed "workspaceInfo") ;;
    v <- orThrow (prop workspaceInfo "localExecRoot") ;;
    setLocalExecRoot v
  else
    started <- orThrow (prop id "started") ;;
    if truthy started then
      payload <- orThrow (prop parsed "started") ;;
      v <- orThrow (prop payload "workspaceDirectory") ;;
      setWorkspaceDirectory v
    else
      testResult <- orThrow (prop id "testResult") ;;
      if truthy testResult then
        payload <- orThrow (prop parsed "testResult") ;;
        testActionOutputs <- orThrow (prop payload "testActionOutput") ;;
        l <- orThrow (iterate testActionOutputs) ;;
        forOf addTestActionOutput l
      else
        configuration <- orThrow (prop id "configuration") ;;
        if truthy configuration then
          payload <- orThrow (prop parsed "configuration") ;;
          makeVariable <- orThrow (prop payload "makeVariable") ;;
          v <- orThrow (prop makeVariable "GENDIR") ;;
          setGenDir v
        else ret tt.

(** The [catch]: the diagnostic goes to the channel. *)
Definition reportMalformed (buildEventsFile : string) (r : run) : run :=
  {| outputs := outputs r; collector := collector r;
     channel := channel r ++ [malformedDiagnostic buildEventsFile] |}.

(** The reader hands the lines over chunk by chunk: the input stream
    reads the file in chunks of data, and the lines that are complete in
    a chunk are emitted one after the other before anything else runs.
    [endsChunk i] says that the line of index [i], counted from 0, is
    the last one emitted for its chunk; where the chunks end is left
    open. *)
Variable endsChunk : nat -> bool.

(** The listener of [line] on one line: the [try] block and, on a throw,
    the [catch], which writes the diagnostic and closes the reader.
    [closed] says whether the reader has been closed. *)
Definition lineListener (buildEventsFile : string) (closed : bool) (r : run)
    (line : string) : bool * run :=
  match handleLine line r with
  | (Some _, r') => (closed, r')
  | (None, r') => (true, reportMalformed buildEventsFile r')
  end.

(** The lines of the file from the line of index [i] on.
    [lineReader.close()] takes the reader off the input stream, so that
    no further chunk is read, and its listener of [close] resolves the
    promise; it does not hold back the lines of the chunk at hand: they
    are emitted, and the listener runs on them.  The reading ends with
    the chunk in which the reader was closed, or with the file. *)
Fixpoint readLinesFrom (buildEventsFile : string) (i : nat) (closed : bool)
    (lines : list string) (r : run) : run :=
  match lines with
  | [] => r
  | line :: rest =>
      let '(closed', r') := lineListener buildEventsFile closed r line in
      if closed' && endsChunk i then r'
      else readLinesFrom buildEventsFile (S i) closed' rest r'
  end.

Definition readLines (buildEventsFile : string) (lines : list string) (r : run) : run :=
  readLinesFrom buildEventsFile 0 false lines r.

(** The listener run on every line of a list, whatever it throws on. *)
Definition everyLine (buildEventsFile : string) (lines : list string) (r : run) : run :=
  fold_left (fun r line => snd (lineListener buildEventsFile false r line)) lines r.

(** What the promise resolves to, with the lines of the channel. *)
Record resolved := {
  result : BuildEventOutputs;
  diagnostics : list string
}.

(** [processBuildEvents(buildEventsFile, outputChannel)] on a file with
    the lines [lines]: the listener of [close] resolves with [outputs],
    the object itself, which the caller reads once the lines of the
    chunk at hand have gone through the listener: what they write to it
    is in the outcome. *)
Definition processBuildEvents (buildEventsFile : string) (lines : list string) : resolved :=
  let r := readLines buildEventsFile lines start in
  {| result := outputs r; diagnostics := channel r |}.

End Stream.

(** *** The records of the stream, as the claims name them *)

(** [parsed] is an object that carries an [id] field. *)
Definition carriesId (parsed : value) : bool :=
  match parsed with
  | JObj fields => match lookupField "id" fields with Some _ => true | None => false end
  | _ => false
  end.

(** The field [k] of [parsed] is not there. *)
Definition missing (parsed : value) (k : string) : bool :=
  match prop parsed k with
  | Some JUndefined => true
  | _ => false
  end.

(** The tag [k] of the id of [parsed] is set. *)
Definition tagged (parsed : value) (k : string) : bool :=
  match prop parsed "id" with
  | Some id => match prop id k with Some t => truthy t | None => false end
  | None => false
  end.

(** The payload that the id of [parsed] selects is missing: [finished]
    of a build-finished record, or the payload of the first tag set among
    workspace, started, testResult and configuration. *)
Definition payloadMissing (parsed : value) : bool :=
  (tagged parsed "buildFinished" && missing parsed "finished")
  || (if tagged parsed "workspace" then missing parsed "workspaceInfo"
      else if tagged parsed "started" then missing parsed "started"
      else if tagged parsed "testResult" then missing parsed "testResult"
      else if tagged parsed "configuration" then missing parsed "configuration"
      else false).

(** At most one of the tags workspace, started, testResult and
    configuration is set. *)
Definition tagsExclusive (parsed : value) : bool :=
  (List.length (filter (tagged parsed) ["workspace"; "started"; "testResult"; "configuration"])
   <=? 1)%nat.

(** The path of an output of a test result when it is named [test.xml]:
    its uri without a leading [file://]. *)
Definition namedReport (testActionOutput : value) : list string :=
  match prop testActionOutput "name" with
  | Some name =>
      if isTestXml name then
        match prop testActionOutput "uri" with
        | Some (JStr uri) =>
            match stripPrefix "file://" uri with
            | Some rest => [rest]
            | None => [uri]
            end
        | _ => []
        end
      else []
  | None => []
  end.

(** The report paths a test-result record names, in its own order. *)
Definition namedReports (parsed : value) : list string :=
  if tagged parsed "testResult" then
    match prop parsed "testResult" with
    | Some payload =>
        match prop payload "testActionOutput" with
        | Some (JArr outs) => flat_map namedReport outs
        | _ => []
        end
    | None => []
    end
  else [].

(** A build-finished record with exit code 0: the code is 0 or left out. *)
Definition buildFinishedWithCodeZero (parsed : value) : bool :=
  tagged parsed "buildFinished"
  && match prop parsed "finished" with
     | Some finished =>
         match prop finished "exitCode" with
         | Some exit =>
             match prop exit "code" with
             | Some (JNum 0) | Some JUndefined => true
             | _ => false
             end
         | None => false
         end
     | None => false
     end.

(** The lines that parse, as values. *)
Definition parsedEvents (JSON_parse : string -> option value) (lines : list string)
  : list value :=
  flat_map (fun line => match JSON_parse line with Some v => [v] | None => [] end) lines.

(** *** Sample lines

    A table standing for [JSON.parse] on the lines of the samples; the
    texts are written with single quotes for the double quotes of
    JSON.  Every other line is malformed. *)
Definition startedLine : string :=
  "{'id':{'started':{}},'started':{'workspaceDirectory':'/home/user/sample-code'}}".
Definition testResultLine : string :=
  "{'id':{'testResult':{'label':'//src/project:go_default_test'}},'testResult':{'testActionOutput':[{'name':'test.log','uri':'file:///out/test.log'},{'name':'test.xml','uri':'file:///out/testlogs/src/project/go_default_test/test.xml'}]}}".
Definition finishedLine : string :=
  "{'id':{'buildFinished':{}},'finished':{'exitCode':{'name':'SUCCESS'}}}".
Definition numberLine : string := "5".
Definition noPayloadLine : string := "{'id':{'workspace':{}}}".
Definition truncatedLine : string := "{'id':{'progress':{'opaqueCount':1}},'progre".

Definition sampleParse (line : string) : option value :=
  if String.eqb line startedLine then
    Some (JObj [ ("id", JObj [("started", JObj [])]);
                 ("started", JObj [("workspaceDirectory", JStr "/home/user/sample-code")]) ])
  else if String.eqb line testResultLine then
    Some (JObj [ ("id", JObj [("testResult",
                               JObj [("label", JStr "//src/project:go_default_test")])]);
                 ("testResult",
                  JObj [("testActionOutput",
                         JArr [ JObj [("name", JStr "test.log");
                                      ("uri", JStr "file:///out/test.log")];
                                JObj [("name", JStr "test.xml");
                                      ("uri", JStr "file:///out/testlogs/src/project/go_default_test/test.xml")] ])]) ])
  else if String.eqb line finishedLine then
    Some (JObj [ ("id", JObj [("buildFinished", JObj [])]);
                 ("finished", JObj [("exitCode", JObj [("name", JStr "SUCCESS")])]) ])
  else if String.eqb line numberLine then Some (JNum 5)
  else if String.eqb line noPayloadLine then
    Some (JObj [ ("id", JObj [("workspace", JObj [])]) ])
  else None.

(** A file that the input stream reads in one chunk, and a stream that
    hands over one line for each chunk. *)
Definition oneChunk (i : nat) : bool := false.
Definition lineByLine (i : nat) : bool := true.

(** A collector that throws on what is no string. *)
Definition sampleCollectOther (v : value) (c : Collector.state) : option Collector.state :=
  None.

End BuildEvents.

(** ** The test tree and the resolution of test names ([bazelRun.ts]) *)
Module Resolver.
Import JS.

(** A [TestItem] is an object: [ref] is its identity, its place in the
    store of the items. *)
Definition ref := nat.

(** Modelled from the spec: [GoTest.id] and [GoTest.parseId] of
    goTest/utils are not among the sources.  The id of a node is derived
    from its kind, its document and its name and gives them back:
    [TestId] is the id as [GoTest.parseId] reads it, the name being
    optional. *)
Record TestId := { idUri : string; idKind : string; idName : option string }.

(** The fields of a [TestItem] that the runner reads: [parent] is a
    reference to another item, [children] the items of its collection. *)
Record TestItem := {
  id : TestId;
  label : string;
  parent : option ref;
  children : list ref
}.

(** The resolver: the store of the items and the two marker sets
    [isTestSuiteFunc] and [isDynamicSubtest]. *)
Record Resolver := {
  items : list TestItem;
  isTestSuiteFunc : list ref;
  isDynamicSubtest : list ref
}.

(** [set.has(item)]. *)
Definition has (set : list ref) (item : ref) : bool := existsb (Nat.eqb item) set.

Definition itemAt (st : Resolver) (item : ref) : option TestItem :=
  nth_error (items st) item.

(** [item.parent], [item.children] and [GoTest.parseId(item.id).name]. *)
Definition parentOf (st : Resolver) (item : ref) : option ref :=
  match itemAt st item with Some it => parent it | None => None end.

Definition childrenOf (st : Resolver) (item : ref) : list ref :=
  match itemAt st item with Some it => children it | None => [] end.

Definition nameOf (st : Resolver) (item : ref) : option string :=
  match itemAt st item with Some it => idName (id it) | None => None end.

(** The store with the item at [i] replaced. *)
Fixpoint update {A : Type} (i : nat) (x : A) (l : list A) : list A :=
  match l, i with
  | [], _ => []
  | _ :: l', O => x :: l'
  | a :: l', S i' => a :: update i' x l'
  end.

(** The child of [item] that goes by [name], the first of them. *)
Definition findChild (st : Resolver) (item : ref) (name : string) : option ref :=
  find (fun c => match nameOf st c with
                 | Some n => String.eqb n name
                 | None => false
                 end)
    (childrenOf st item).

(** Modelled from the spec: [GoTestResolver.getOrCreateSubTest] of
    goTest/resolve is not among the sources.  It gets or creates the
    dynamic-subtest child of [item] keyed by [name]: the child that goes
    by the name when there is one; otherwise a new node, with the id
    derived from the kind and the document of [item] and the name,
    appended to the children of [item] and marked in the dynamic-subtest
    set.  It answers undefined for an item that is not in the store. *)
Definition getOrCreateSubTest (st : Resolver) (item : ref) (label name : string)
    (dynamic : bool) : option ref * Resolver :=
  match itemAt st item with
  | None => (None, st)
  | Some it =>
      match findChild st item name with
      | Some existing => (Some existing, st)
      | None =>
          let sub := List.length (items st) in
          let subItem :=
            {| id := {| idUri := idUri (id it); idKind := idKind (id it);
                        idName := Some name |};
               label := label; parent := Some item; children := [] |} in
          let it' :=
            {| id := id it; label := Resolver.label it; parent := parent it;
               children := children it ++ [sub] |} in
          (Some sub,
           {| items := update item it' (items st) ++ [subItem];
              isTestSuiteFunc := isTestSuiteFunc st;
              isDynamicSubtest :=
                if dynamic then isDynamicSubtest st ++ [sub] else isDynamicSubtest st |})
      end
  end.

(** *** The store, as the properties speak of it *)

(** [item] is in the store. *)
Definition inStore (st : Resolver) (item : ref) : Prop :=
  (item < List.length (items st))%nat.

(** The children of every item are in the store. *)
Definition wellFormed (st : Resolver) : Prop :=
  forall item it, itemAt st item = Some it -> Forall (inStore st) (children it).

(** [st'] has the items of [st], with their ids, and their children
    first among the children they have in [st']. *)
Definition extends (st st' : Resolver) : Prop :=
  forall item it, itemAt st item = Some it ->
  exists it', itemAt st' item = Some it' /\ id it' = id it
              /\ exists added, children it' = children it ++ added.

(** [child] goes by [name]. *)
Definition goesBy (st : Resolver) (name : string) (child : ref) : bool :=
  match nameOf st child with
  | Some n => String.eqb n name
  | None => false
  end.

(** No two children of an item go by the same name. *)
Definition noDuplicateChild (st : Resolver) : Prop :=
  forall item it name, itemAt st item = Some it ->
  (List.length (filter (goesBy st name) (children it)) <= 1)%nat.

(** [`${name}`] of an optional name. *)
Definition display (name : option string) : string :=
  match name with Some n => n | None => "undefined" end.

(** The end of the segment that [resolveSubtest] works on:
    [if (!segmentEnd) segmentEnd = name.indexOf('/', start);
     if (segmentEnd === -1) segmentEnd = name.length]. *)
Definition segmentEndOf (name : string) (start : Z) (segmentEnd : option Z) : Z :=
  let e := match segmentEnd with
           | None => indexOf name "/"%char start
           | Some e => if (e =? 0)%Z then indexOf name "/"%char start else e
           end in
  if (e =? -1)%Z then jsLength name else e.

(** [resolveSubtest], with [fuel] for its recursive calls. *)
Fixpoint resolveSubtestFrom (fuel : nat) (st : Resolver) (parent : ref) (name : string)
    (start : Z) (segmentEnd : option Z) : option ref * Resolver :=
  let segmentEnd := segmentEndOf name start segmentEnd in
  let '(currentSubtest, st) :=
    getOrCreateSubTest st parent (substring0 name segmentEnd)
      (substring0 name segmentEnd) true in
  match currentSubtest with
  | Some current =>
      if charAtIs name segmentEnd "/"%char then
        let newEnd := indexOf name "/"%char (segmentEnd + 1) in
        match fuel with
        | S fuel' => resolveSubtestFrom fuel' st current name start (Some newEnd)
        | O => (None, st)
        end
      else (Some current, st)
  | None => (None, st)
  end.

(** [resolveSubtest(parent, name, start, segmentEnd)]: each call moves
    the end of the segment to a later slash, so the length of the name
    bounds the calls. *)
Definition resolveSubtest (st : Resolver) (parent : ref) (name : string)
    (start : Z) (segmentEnd : option Z) : option ref * Resolver :=
  resolveSubtestFrom (String.length name) st parent name start segmentEnd.

(** [s] has a slash in it. *)
Fixpoint containsSlash (s : string) : bool :=
  match s with
  | EmptyString => false
  | String a s' => Ascii.eqb a "/"%char || containsSlash s'
  end.

Section Runner.

(** [extractInstanceTestName] of testUtils. *)
Variable extractInstanceTestName : string -> string.

(** [GoTestRunner.resolveTestName], the method of the super class. *)
Variable superResolveTestName :
  Resolver -> list (string * ref) -> string -> option ref * Resolver.

(** [extractInstanceTestName(GoTest.parseId(child.id).name || '')]:
    the name a child stands for among the methods of a suite. *)
Definition methodNameOf (st : Resolver) (child : ref) : string :=
  extractInstanceTestName
    (match nameOf st child with Some n => n | None => EmptyString end).

(** The pass of [children.forEach] in [resolveTestName] on one child:
    [matchingChild] and the resolver after it. *)
Definition matchChild (existingTestName name : string)
    (acc : option ref * Resolver) (child : ref) : option ref * Resolver :=
  let '(matchingChild, st) := acc in
  let testMethodName := existingTestName +++ "/" +++ methodNameOf st child in
  if String.eqb name testMethodName then (Some child, st)
  else if startsWith name (testMethodName +++ "/") then
    resolveSubtest st child name (jsLength testMethodName + 1) None
  else (matchingChild, st).

(** The loop over the keys of [tests], in their order. *)
Fixpoint resolveInTests (st : Resolver) (allTests : list (string * ref))
    (remaining : list (string * ref)) (name : string) : option ref * Resolver :=
  match remaining with
  | [] => superResolveTestName st allTests name
  | (existingTestName, item) :: rest =>
      let testSuiteMethodName := extractInstanceTestName existingTestName in
      let asMethod :=
        match parentOf st item with
        | Some parent =>
            if has (isTestSuiteFunc st) parent
               && negb (String.eqb testSuiteMethodName EmptyString)
            then
              let suiteName := display (nameOf st parent) in
              let full := suiteName +++ "/" +++ testSuiteMethodName in
              if String.eqb name full then Some (Some item, st)
              else if startsWith name (full +++ "/") then
                Some (resolveSubtest st item name (jsLength (full +++ "/")) None)
              else None
            else None
        | None => None
        end in
      match asMethod with
      | Some answer => answer
      | None =>
          if has (isTestSuiteFunc st) item then
            let '(matchingChild, st') :=
              fold_left (matchChild existingTestName name) (childrenOf st item) (None, st) in
            match matchingChild with
            | Some child => (Some child, st')
            | None => resolveInTests st' allTests rest name
            end
          else resolveInTests st allTests rest name
      end
  end.

(** The names that the pass of the loop on the entry [e] of [tests]
    compares [name] with: the name of the parent and the method the key
    stands for, when the parent of the item is a suite and the key stands
    for a method; and the key with the method of each child, when the
    item is a suite. *)
Definition namesOf (st : Resolver) (e : string * ref) : list string :=
  (match parentOf st (snd e) with
   | Some parent =>
       if has (isTestSuiteFunc st) parent
          && negb (String.eqb (extractInstanceTestName (fst e)) EmptyString)
       then [display (nameOf st parent) +++ "/" +++ extractInstanceTestName (fst e)]
       else []
   | None => []
   end)
  ++ (if has (isTestSuiteFunc st) (snd e)
      then map (fun c => fst e +++ "/" +++ methodNameOf st c) (childrenOf st (snd e))
      else []).

(** [name] differs from [full] and does not start with [full] and a
    slash. *)
Definition apartFrom (name full : string) : bool :=
  negb (String.eqb name full) && negb (startsWith name (full +++ "/")).

(** The pass of the loop on [e] compares [name] with names that it
    differs from and does not continue. *)
Definition passesBy (st : Resolver) (name : string) (e : string * ref) : bool :=
  forallb (apartFrom name) (namesOf st e).

(** [resolveTestName(tests, name)]: [tests] with its keys in order. *)
Definition resolveTestName (st : Resolver) (tests : list (string * ref)) (name : string)
  : option ref * Resolver :=
  if String.eqb name EmptyString then (None, st)
  else resolveInTests st tests tests name.

(** [formatTestCaseForFilter(testFunctionName, currentTestCase)]. *)
Definition formatTestCaseForFilter (st : Resolver) (testFunctionName : string)
    (currentTestCase : option ref) : string :=
  match currentTestCase with
  | None => testFunctionName
  | Some item =>
      let testSuiteMethodName := extractInstanceTestName testFunctionName in
      match parentOf st item with
      | Some parent =>
          if has (isTestSuiteFunc st) parent
             && negb (String.eqb testSuiteMethodName EmptyString)
          then display (nameOf st parent) +++ "/" +++ testSuiteMethodName
          else testFunctionName
      | None => testFunctionName
      end
  end.

End Runner.

(** The rest of [s] after the first closing parenthesis, when a dot
    follows it. *)
Fixpoint afterReceiver (s : string) : string :=
  match s with
  | EmptyString => EmptyString
  | String a s' =>
      if Ascii.eqb a ")"%char then
        match s' with
        | String b rest => if Ascii.eqb b "."%char then rest else EmptyString
        | EmptyString => EmptyString
        end
      else afterReceiver s'
  end.

(** Modelled from the spec: [extractInstanceTestName] of testUtils is not
    among the sources.  It strips the receiver-type qualifier, the
    receiver type in parentheses and the dot after it, from a method
    identifier, and answers the empty string for a name of another form. *)
Definition extractMethodName (symbolName : string) : string :=
  match symbolName with
  | String a s' => if Ascii.eqb a "("%char then afterReceiver s' else EmptyString
  | EmptyString => EmptyString
  end.

(** Modelled from the spec: [GoTestRunner.resolveTestName] of goTest/run
    is not among the sources.  It falls back to the lookup of the full
    name in the dictionary. *)
Definition lookupFlatName (st : Resolver) (tests : list (string * ref)) (name : string)
  : option ref * Resolver :=
  (option_map snd (find (fun e => String.eqb (fst e) name) tests), st).

(** The tree of the unit tests: the suite [MyTestSuite] with the methods
    [TestCase1] and [TestCase2] of the receiver [mySuiteType]. *)
Definition sampleId (name : string) : TestId :=
  {| idUri := "file:///path/to/mod/file.go"; idKind := "test"; idName := Some name |}.

Definition sampleTree : Resolver :=
  {| items :=
       [ {| id := sampleId "MyTestSuite"; label := "MyTestSuite";
            parent := None; children := [1; 2]%nat |};
         {| id := sampleId "(*mySuiteType).TestCase1"; label := "TestCase1";
            parent := Some 0%nat; children := [] |};
         {| id := sampleId "(*mySuiteType).TestCase2"; label := "TestCase2";
            parent := Some 0%nat; children := [] |} ];
     isTestSuiteFunc := [0%nat];
     isDynamicSubtest := [] |}.

End Resolver.

(** ** Variants of a test configuration *)
Module BazelArgsViews.
Import BazelArgs.

(** The configuration with its list of functions taken away. *)
Definition anyFunction (c : TestConfig) : TestConfig :=
  {| applyCodeCoverage := applyCodeCoverage c; isBenchmark := isBenchmark c;
     functions := None; flags := flags c; testEnvArgs := testEnvArgs c |}.

(** The configuration with another answer to the coverage question. *)
Definition withCoverage (b : bool) (c : TestConfig) : TestConfig :=
  {| applyCodeCoverage := b; isBenchmark := isBenchmark c;
     functions := functions c; flags := flags c; testEnvArgs := testEnvArgs c |}.

End BazelArgsViews.

(** ** The standard error text of a build event *)
Module BuildEventsViews.
Import JS BuildEvents.

(** [parsed.progress?.stderr]: [None] when the access throws. *)
Definition stderrOf (parsed : value) : option value :=
  match prop parsed "progress" with
  | Some progress => optionalProp progress "stderr"
  | None => None
  end.

(** The argument the collector is called with when [stderrOf] is a
    string or is falsy. *)
Definition stderrText (parsed : value) : option string :=
  match stderrOf parsed with
  | Some (JStr s) => Some s
  | _ => None
  end.

(** The standard error text is of the declared type [string | undefined],
    or is another falsy value. *)
Definition stderrTyped (parsed : value) : bool :=
  match stderrOf parsed with
  | Some (JStr _) => true
  | Some v => negb (truthy v)
  | None => true
  end.

(** The error messages follow the collector's array. *)
Definition synced (r : run) : Prop :=
  errorMessages (outputs r) = Collector.output (collector r).

(** The condition of [goTestWithBazel] under which the cover profile is
    processed: [testconfig.applyCodeCoverage && buildEventOutputs.localExecRoot
    && buildEventOutputs.exitCode === 0], with a coverage handler given. *)
Definition coverProfileProcessed (applyCodeCoverage : bool) (o : BuildEventOutputs) : bool :=
  applyCodeCoverage && truthy (localExecRoot o)
  && match exitCode o with JNum 0 => true | _ => false end.

(** *** Sample progress lines, single quotes for the double quotes *)
Definition progressErrorLine : string :=
  "{'id':{'progress':{}},'progress':{'stderr':'ERROR: build failed'}}".
Definition progressDetailLine : string :=
  "{'id':{'progress':{}},'progress':{'stderr':'missing dependency'}}".
Definition progressInfoLine : string :=
  "{'id':{'progress':{}},'progress':{'stderr':'INFO: Build completed'}}".

Definition workspaceLine : string :=
  "{'id':{'workspace':{}},'workspaceInfo':{'localExecRoot':'/home/user/.cache/bazel/execroot/main'}}".

Definition progressRecord (stderr : string) : value :=
  JObj [ ("id", JObj [("progress", JObj [])]); ("progress", JObj [("stderr", JStr stderr)]) ].

Definition progressParse (line : string) : option value :=
  if String.eqb line progressErrorLine then Some (progressRecord "ERROR: build failed")
  else if String.eqb line progressDetailLine then Some (progressRecord "missing dependency")
  else if String.eqb line progressInfoLine then Some (progressRecord "INFO: Build completed")
  else if String.eqb line workspaceLine then
    Some (JObj [ ("id", JObj [("workspace", JObj [])]);
                 ("workspaceInfo",
                  JObj [("localExecRoot", JStr "/home/user/.cache/bazel/execroot/main")]) ])
  else sampleParse line.

End BuildEventsViews.

(** ** The verdicts of a report *)
Module XmlReportViews.
Import JS XmlReport.

(** An event that is no output event. *)
Definition isVerdict (e : GoTestOutput) : bool :=
  negb (String.eqb (Action e) "output").

(** The final events of the test cases of a suite, in document order. *)
Definition suiteVerdicts (suite : TestSuite) : list GoTestOutput :=
  match testcase suite with
  | None => []
  | Some cases => map (fun c => finalEvent (caseAction c) (suiteName suite) c) cases
  end.

Definition verdicts (resultData : TestResultXML) : list GoTestOutput :=
  flat_map suiteVerdicts (testsuite resultData).

(** The number of test cases of a report. *)
Definition countCases (resultData : TestResultXML) : nat :=
  list_sum (map (fun suite => match testcase suite with
                              | None => 0%nat
                              | Some cases => List.length cases
                              end)
              (testsuite resultData)).

(** The texts of a list, one after the other. *)
Definition appendAll (l : list string) : string := fold_right String.append EmptyString l.

(** The [Output] fields of the events, in order. *)
Definition outputsOf (events : list GoTestOutput) : list string :=
  flat_map (fun e => match Output e with Some o => [o] | None => [] end) events.

(** The text [_] of an element with a line feed after it. *)
Definition lineFed (e : TextElement) : string :=
  match text e with
  | Some t => t +++ String LF EmptyString
  | None => EmptyString
  end.

(** The elements whose text the conversion reads, in document order. *)
Definition elementsRead (resultData : TestResultXML) : list TextElement :=
  flat_map (fun suite =>
              match testcase suite with
              | None => []
              | Some cases => flat_map entriesRead cases
              end)
    (testsuite resultData).

(** A report whose second case has a failure element with an attribute
    and no text. *)
Definition brokenReport : TestResultXML :=
  {| testsuite :=
       [ {| suiteName := "code/sample/fakepackage";
            testcase := Some [ {| caseName := "FakeTestCase"; time := "10";
                                  failure := None; error := None; skipped := None |};
                               {| caseName := "FakeFailedTestCase"; time := "1";
                                  failure := Some [ ElementObject None ];
                                  error := None; skipped := None |} ] |} ] |}.

(** A report whose case has a failure element with text and no
    attribute: [<failure>plain text</failure>]. *)
Definition bareReport : TestResultXML :=
  {| testsuite :=
       [ {| suiteName := "code/sample/fakepackage";
            testcase := Some [ {| caseName := "FakeFailedTestCase"; time := "1";
                                  failure := Some [ BareString "plain text" ];
                                  error := None; skipped := None |} ] |} ] |}.

End XmlReportViews.

(** ** The reports of a run ([processTestResultXML]) *)
Module XmlBatch.
Import JS XmlReport XmlReportViews.

(** [`${n}`] for a length. *)
Definition decimal (n : nat) : string := NilEmpty.string_of_uint (Nat.to_uint n).

Definition foundLine (n : nat) : string :=
  "INFO: " +++ decimal n +++ " test result file"
  +++ (if (n =? 1)%nat then "" else "s") +++ " found.".

Definition completedLine (filePath : string) : string :=
  "INFO: Completed parsing of test results from " +++ filePath.

Definition unableLine (filePath : string) : string :=
  "ERROR: Unable to parse test results from " +++ filePath.

Section Batch.

(** The state behind [goTestOutputConsumer]. *)
Variable State : Type.

(** [fs.readFileSync(filePath)] and [parser.parseStringPromise(results)]:
    [None] when one of them throws, or when the parsed value has not the
    shape of [TestResultXML] and the conversion throws on it. *)
Variable readAndParse : string -> option TestResultXML.

(** One call of the consumer: whether it returns, and the state it
    leaves, also when it throws. *)
Variable goTestOutputConsumer : GoTestOutput -> State -> bool * State.

(** [for (const output of goTestOutput) goTestOutputConsumer(output)]. *)
Fixpoint consumeAll (goTestOutput : list GoTestOutput) (s : State) : bool * State :=
  match goTestOutput with
  | [] => (true, s)
  | output :: rest =>
      match goTestOutputConsumer output s with
      | (true, s') => consumeAll rest s'
      | (false, s') => (false, s')
      end
  end.

(** The body of the loop over the files, [try] and [catch]: the consumer
    state and the lines of the channel. *)
Definition processFile (st : State * list string) (filePath : string) : State * list string :=
  let (s, channel) := st in
  match readAndParse filePath with
  | Some parsedXML =>
      match testResultXMLToGoTestOutput parsedXML with
      | Some goTestOutput =>
          match consumeAll goTestOutput s with
          | (true, s') => (s', channel ++ [completedLine filePath])
          | (false, s') => (s', channel ++ [unableLine filePath])
          end
      | None => (s, channel ++ [unableLine filePath])
      end
  | None => (s, channel ++ [unableLine filePath])
  end.

Definition processTestResultXML (xmlFilePaths : list string) (s : State)
    (channel : list string) : State * list string :=
  fold_left processFile xmlFilePaths
    (s, channel ++ [foundLine (List.length xmlFilePaths)]).

(** The events of a file that is read, parsed and converted. *)
Definition eventsOf (filePath : string) : option (list GoTestOutput) :=
  match readAndParse filePath with
  | Some parsedXML => testResultXMLToGoTestOutput parsedXML
  | None => None
  end.

Definition eventsOrNone (filePath : string) : list GoTestOutput :=
  match eventsOf filePath with Some events => events | None => [] end.

Definition lineOf (filePath : string) : string :=
  match eventsOf filePath with
  | Some _ => completedLine filePath
  | None => unableLine filePath
  end.

End Batch.

(** A consumer that keeps the events it is given. *)
Definition keepEvent (e : GoTestOutput) (s : list GoTestOutput)
  : bool * list GoTestOutput := (true, s ++ [e]).

(** Two files: a report, and one with a failure element without text. *)
Definition sampleFiles (filePath : string) : option TestResultXML :=
  if String.eqb filePath "/out/a/test.xml" then Some sampleReport
  else if String.eqb filePath "/out/b/test.xml" then Some brokenReport
  else None.

End XmlBatch.

(** ** The coverage of a path, and the items of the coverage tree *)
Module CoverageViews.
Import JS Coverage.

Section Records.

Variable pathJoin : string -> string -> string.
Variable pathRelative : string -> string -> string.
Variable pathDirname : string -> string.
Variable config : CoverageProcessingConfig.

(** The record is of a package of the run, and of the file at [path]. *)
Definition recordAt (path : string) (f : LcovFile.t) : bool :=
  includes (targetPackages config) (packageOf pathJoin pathRelative pathDirname config f)
  && String.eqb (getSourceFileAbsolutePath pathJoin config (LcovFile.file f)) path.

(** The last such record of a report. *)
Definition lastRecordAt (path : string) (files : list LcovFile.t) : option LcovFile.t :=
  fold_left (fun found f => if recordAt path f then Some f else found) files None.

End Records.

(** [vscode.TreeItemCollapsibleState], and the command of an item. *)
Inductive TreeItemCollapsibleState := Collapsed | Expanded.

Record Command := {
  title : string;
  command : string;
  arguments : list string
}.

(** [vscode.TreeItem]: the fields [getTreeItem] sets; the two optional
    ones are [None] when it leaves them alone. *)
Record TreeItem := {
  itemLabel : string;
  description : string;
  collapsibleState : option TreeItemCollapsibleState;
  itemCommand : option Command
}.

(** [`${n}`] for a count. *)
Definition decimalZ (z : Z) : string := NilEmpty.string_of_int (Z.to_int z).

Section Provider.

(** [(hits / lines).toLocaleString('en', { style: 'percent' })]. *)
Variable toPercent : Z -> Z -> string.

(** [CoverageTreeProvider.getTreeItem(element)]; the argument of the
    command is the file uri of the path. *)
Definition getTreeItem (element : CoverageTreeNode) : TreeItem :=
  let percent := toPercent (hits element) (lines element) in
  let text := "Coverage: " +++ percent +++ ", Lines: " +++ decimalZ (lines element)
              +++ ", Hits: " +++ decimalZ (hits element) in
  match children element with
  | Some _ =>
      {| itemLabel := displayName element; description := text;
         collapsibleState := Some Expanded; itemCommand := None |}
  | None =>
      {| itemLabel := displayName element; description := text;
         collapsibleState := None;
         itemCommand := Some {| title := "Open"; command := "vscode.open";
                                arguments := [absolutePath element] |} |}
  end.

End Provider.

(** [CoverageTreeProvider.getChildren(element)] of a provider built on
    [displayData]; [None] is the call with no element. *)
Definition getChildren (displayData : list CoverageTreeNode)
    (element : option CoverageTreeNode) : list CoverageTreeNode :=
  match element with
  | None => displayData
  | Some e =>
      match children e with
      | Some cs => cs
      | None => []
      end
  end.

(** *** A sample report: paths are joined with a slash, the part of a
    path relative to the workspace is what follows it, and the package
    of a file is its path up to the last slash. *)
Definition samplePathJoin (a b : string) : string := a +++ "/" +++ b.

Definition samplePathRelative (from to : string) : string :=
  match stripPrefix (from +++ "/") to with
  | Some rest => rest
  | None => to
  end.

Fixpoint lastSlash (s : string) : option nat :=
  match s with
  | EmptyString => None
  | String a s' =>
      match lastSlash s' with
      | Some n => Some (Datatypes.S n)
      | None => if Ascii.eqb a "/"%char then Some 0%nat else None
      end
  end.

Definition samplePathDirname (p : string) : string :=
  match lastSlash p with
  | Some n => takeN n p
  | None => "."
  end.

Definition samplePathBasename (p : string) : string :=
  match lastSlash p with
  | Some n => sliceFrom (Datatypes.S n) p
  | None => p
  end.

Definition sampleCoverageConfig : CoverageProcessingConfig :=
  {| settings := {| coverProfilePath := "/out/_coverage/_coverage_report.dat";
                    bazelWorkspaceRoot := "/home/user/repo";
                    currentGoWorkspace := "/home/user/repo/src";
                    targetPackages := ["project/pkg"];
                    generatedFilePrefix := "bazel-out/" |};
     generatedFileMapper := None |}.

Definition sampleCoverageFiles : list LcovFile.t :=
  [ {| LcovFile.file := "src/project/pkg/a.go"; LcovFile.lines := sampleLines |};
    {| LcovFile.file := "src/project/other/b.go"; LcovFile.lines := sampleLines |};
    {| LcovFile.file := "src/project/pkg/a.go";
       LcovFile.lines := {| LcovPart.found := 1; LcovPart.hit := 0;
                            LcovPart.details := [ {| LcovLine.line := 7; LcovLine.hit := 0 |} ] |} |}
  ]%Z.

End CoverageViews.

(** ** The functions of a run *)
Module RunnerViews.
Import JS BazelArgs BuildEvents Resolver.

Section RunFunctions.

Variable extractInstanceTestName : string -> string.

(** The loop of [runGoTest] over [Object.keys(functions)] that fills
    [runFunctions]: [functions] with its keys in order, names of Go
    functions, each with the test item it stands for. *)
Definition runFunctions (st : Resolver) (functions : list (string * ref)) : list string :=
  map (fun e => formatTestCaseForFilter extractInstanceTestName st (fst e) (Some (snd e)))
    functions.

End RunFunctions.

(** The configuration [goTestWithBazel] is called with by [runGoTest]:
    the rest of the run configuration with [functions] and
    [applyCodeCoverage] set. *)
Definition withFunctions (fs : list string) (coverageEnabled : bool) (c : TestConfig)
  : TestConfig :=
  {| applyCodeCoverage := coverageEnabled; isBenchmark := isBenchmark c;
     functions := Some fs; flags := flags c; testEnvArgs := testEnvArgs c |}.

(** A name without a slash and without a character the filter escapes. *)
Fixpoint plain (s : string) : bool :=
  match s with
  | EmptyString => true
  | String a s' =>
      negb (isSpecialCharacter a) && negb (Ascii.eqb a "/"%char) && plain s'
  end.

(** A tree without a suite: two tests of a file. *)
Definition plainTree : Resolver :=
  {| items :=
       [ {| id := sampleId "TestA"; label := "TestA"; parent := None; children := [] |};
         {| id := sampleId "TestB"; label := "TestB"; parent := None; children := [] |} ];
     isTestSuiteFunc := [];
     isDynamicSubtest := [] |}.

End RunnerViews.

(** ** The messages of a failed test ([consumeGoTestEvent]) *)
Module FailureMessages.
Import JS.

(** [vscode.Uri]: its text and its path in the file system. *)
Record Uri := { uriText : string; fsPath : string }.

(** [vscode.Location]: the uri and [range.start.line]. *)
Record Location := { uri : Uri; startLine : Z }.

(** [vscode.TestMessage]: the two fields the loop reads and writes. *)
Record TestMessage := { message : string; location : option Location }.

(** [`${location?.uri}:${location?.range.start.line}`]. *)
Definition locOf (location : option Location) : string :=
  match location with
  | Some l => uriText (uri l) +++ ":" +++ NilEmpty.string_of_int (Z.to_int (startLine l))
  | None => "undefined:undefined"
  end.

(** The line feed between the texts of a merged message. *)
Definition newline : string := String "010"%char EmptyString.

(** The two variables of the loop: the map [merged], in insertion
    order, and [lastValidLoc]. *)
Record merging := {
  merged : list (string * TestMessage);
  lastValidLoc : option Location
}.

Section Merge.

(** [fs.existsSync], on a file system that the loop does not change. *)
Variable existsSync : string -> bool.

(** The body of the loop over [messages]. *)
Definition mergeOne (m : merging) (msg : TestMessage) : merging :=
  let loc := locOf (location msg) in
  match Coverage.mapGet loc (merged m) with
  | Some existing =>
      {| merged :=
           Coverage.mapSet loc
             {| message := message existing +++ newline +++ message msg;
                location := location existing |}
             (merged m);
         lastValidLoc := lastValidLoc m |}
  | None =>
      let atLastValid :=
        {| merged :=
             Coverage.mapSet loc
               {| message := message msg; location := lastValidLoc m |} (merged m);
           lastValidLoc := lastValidLoc m |} in
      match location msg with
      | Some l =>
          if existsSync (fsPath (uri l)) then
            {| merged :=
                 Coverage.mapSet loc {| message := message msg; location := Some l |}
                   (merged m);
               lastValidLoc := Some l |}
          else atLastValid
      | None => atLastValid
      end
  end.

(** [Array.from(merged.values())] after the loop. *)
Definition mergeMessages (messages : list TestMessage) : list TestMessage :=
  Coverage.mapValues
    (merged (fold_left mergeOne messages {| merged := []; lastValidLoc := None |})).

End Merge.

(** The texts of the messages at a key, in their order. *)
Definition textsAt (loc : string) (messages : list TestMessage) : list string :=
  map message (filter (fun msg => String.eqb (locOf (location msg)) loc) messages).

(** The keys of a list, each at the place where it is first seen. *)
Definition firstSeen (keys : list string) : list string :=
  fold_left (fun seen k => if Coverage.includes seen k then seen else seen ++ [k]) keys [].

(** A message is at no location or at one whose file exists. *)
Definition wellPlaced (existsSync : string -> bool) (msg : TestMessage) : bool :=
  match location msg with
  | Some l => existsSync (fsPath (uri l))
  | None => true
  end.

(** The message has a location, and the file of the location exists. *)
Definition onFile (existsSync : string -> bool) (msg : TestMessage) : bool :=
  match location msg with
  | Some l => existsSync (fsPath (uri l))
  | None => false
  end.

(** The messages that start a key: those whose key is not among [seen]
    and is the key of no message before them. *)
Fixpoint startsFrom (seen : list string) (messages : list TestMessage)
  : list TestMessage :=
  match messages with
  | [] => []
  | msg :: rest =>
      if Coverage.includes seen (locOf (location msg)) then startsFrom seen rest
      else msg :: startsFrom (seen ++ [locOf (location msg)]) rest
  end.

Definition starts (messages : list TestMessage) : list TestMessage :=
  startsFrom [] messages.

(** The places of the messages that start a key, one after the other:
    the location of the message when its file exists, and otherwise the
    place of the one before, [last] for the first of them. *)
Fixpoint places (existsSync : string -> bool) (last : option Location)
    (starting : list TestMessage) : list (option Location) :=
  match starting with
  | [] => []
  | msg :: rest =>
      let here := if onFile existsSync msg then location msg else last in
      here :: places existsSync here rest
  end.

(** *** A sample: a test file that exists, generated code that does not *)
Definition sampleExists (path : string) : bool := String.eqb path "/repo/pkg/a_test.go".

Definition testFileLine (n : Z) : Location :=
  {| uri := {| uriText := "file:///repo/pkg/a_test.go"; fsPath := "/repo/pkg/a_test.go" |};
     startLine := n |}.

Definition generatedLine (n : Z) : Location :=
  {| uri := {| uriText := "file:///tmp/bazel/gen.go"; fsPath := "/tmp/bazel/gen.go" |};
     startLine := n |}.

Definition sampleMessages : list TestMessage :=
  [ {| message := "expected 1"; location := Some (testFileLine 12) |};
    {| message := "got 2"; location := Some (testFileLine 12) |};
    {| message := "panic in helper"; location := Some (generatedLine 3) |};
    {| message := "no position"; location := None |} ]%Z.

End FailureMessages.

(** ** The environment of a test ([getBazelTestEnvVars]) *)
Module TestEnv.
Import JS.

(** A value of the settings or of the env file: a string, or a value of
    another type, of which the function reads the text [`${v}`] alone. *)
Inductive setting := Text (s : string) | Other (shown : string).

(** [`${v}`]. *)
Definition shown (v : setting) : string :=
  match v with Text s => s | Other t => t end.

(** An object with string keys: its properties in the order of their
    creation, each key once, none of them [__proto__], which an
    assignment treats apart. *)
Definition object := list (string * setting).

(** The number a text of decimal digits stands for. *)
Fixpoint decimalValue (acc : N) (s : string) : option N :=
  match s with
  | EmptyString => Some acc
  | String a s' =>
      if isDigit a then decimalValue (acc * 10 + (N_of_ascii a - 48)) s' else None
  end.

(** The key is an array index: the canonical text of an integer below
    [2^32 - 1]. *)
Definition arrayIndex (k : string) : option N :=
  match k with
  | EmptyString => None
  | String a rest =>
      if Ascii.eqb a "0"%char then
        (if String.eqb rest EmptyString then Some 0%N else None)
      else
        match decimalValue 0 k with
        | Some n => if (n <? 4294967295)%N then Some n else None
        | None => None
        end
  end.

Fixpoint insertIndex (e : N * string) (l : list (N * string)) : list (N * string) :=
  match l with
  | [] => [e]
  | x :: l' => if (fst e <=? fst x)%N then e :: l else x :: insertIndex e l'
  end.

Definition sortIndices (l : list (N * string)) : list (N * string) :=
  fold_right insertIndex [] l.

Definition indexed (k : string) : list (N * string) :=
  match arrayIndex k with Some n => [(n, k)] | None => [] end.

Definition named (k : string) : bool :=
  match arrayIndex k with Some _ => false | None => true end.

(** The order of [Object.keys] and [Object.entries]: the array indices
    in ascending order, then the other keys in the order of creation. *)
Definition ownKeys (keys : list string) : list string :=
  map snd (sortIndices (flat_map indexed keys)) ++ filter named keys.

(** [Object.entries(o)]. *)
Definition entries (o : object) : list (string * setting) :=
  flat_map (fun k => match Coverage.mapGet k o with Some v => [(k, v)] | None => [] end)
    (ownKeys (map fst o)).

(** The two settings the function reads: [testEnvVars], undefined or an
    object, and [testEnvFile], undefined or a string. *)
Record WorkspaceConfiguration := {
  testEnvVars : option object;
  testEnvFile : option string
}.

Section EnvVars.

(** [resolvePath] of util, and [parseEnvFile] of envUtils, [None] when
    it throws. *)
Variable resolvePath : string -> string.
Variable parseEnvFile : string -> option object.

(** [typeof v === 'string' ? resolvePath(v) : v]. *)
Definition resolved (v : setting) : setting :=
  match v with Text s => Text (resolvePath s) | Other t => Other t end.

(** [Object.keys(source).forEach(key => envVars[key] = ...)]. *)
Definition assign (source envVars : object) : object :=
  fold_left (fun env key =>
               match Coverage.mapGet key source with
               | Some v => Coverage.mapSet key (resolved v) env
               | None => env
               end)
    (ownKeys (map fst source)) envVars.

(** [config['testEnvVars'] || {}]. *)
Definition testEnvConfigOf (config : WorkspaceConfiguration) : object :=
  match testEnvVars config with Some o => o | None => [] end.

(** [fileEnv] after the [try]: empty without a file, and when the file
    cannot be parsed. *)
Definition fileEnvOf (config : WorkspaceConfiguration) : object :=
  match testEnvFile config with
  | Some f =>
      if String.eqb f EmptyString then []
      else match parseEnvFile (resolvePath f) with
           | Some o => o
           | None => []
           end
  | None => []
  end.

(** [envVars] after the two loops. *)
Definition envVarsOf (config : WorkspaceConfiguration) : object :=
  assign (testEnvConfigOf config) (assign (fileEnvOf config) []).

Definition testEnvArg (entry : string * setting) : string :=
  "--test_env=" +++ fst entry +++ "=" +++ shown (snd entry).

Definition getBazelTestEnvVars (config : WorkspaceConfiguration) : list string :=
  map testEnvArg (entries (envVarsOf config)).

(** The value of a variable: that of the settings, else that of the
    file, with the path of a string resolved. *)
Definition valueOf (config : WorkspaceConfiguration) (k : string) : option setting :=
  match Coverage.mapGet k (testEnvConfigOf config) with
  | Some v => Some (resolved v)
  | None => option_map resolved (Coverage.mapGet k (fileEnvOf config))
  end.

End EnvVars.

(** *** A sample: settings over an env file *)
Definition sampleResolvePath (p : string) : string :=
  match stripPrefix "~/" p with
  | Some rest => "/home/user/" +++ rest
  | None => p
  end.

Definition sampleEnvFile (f : string) : option object :=
  if String.eqb f "/home/user/test.env" then
    Some [ ("GOFLAGS", Text "-mod=vendor"); ("DATA", Text "~/data") ]
  else None.

Definition sampleEnvConfig : WorkspaceConfiguration :=
  {| testEnvVars := Some [ ("DATA", Text "~/fixtures"); ("RETRIES", Other "3") ];
     testEnvFile := Some "~/test.env" |}.

End TestEnv.

(** ** The coverage toggle ([setupCoverageStatusBarItem]) *)
Module CoverageToggle.

(** What the status bar item works on: [goCtx.coverageEnabled], a
    boolean or undefined; the value stored under
    [bazelCoverageLastStatus], undefined when there is none; the text of
    the item; and how often [go.coverageTree.clear] was executed. *)
Record session := {
  coverageEnabled : option bool;
  lastCoverageStatus : option bool;
  statusText : string;
  treeClears : nat
}.

(** Truthiness of the flag. *)
Definition enabled (flag : option bool) : bool :=
  match flag with Some b => b | None => false end.

(** [updateStatusBarItem()]. *)
Definition updateStatusBarItem (s : session) : session :=
  {| coverageEnabled := coverageEnabled s;
     lastCoverageStatus := coverageEnabled s;
     statusText := "Coverage " +++ (if enabled (coverageEnabled s) then "Enabled" else "Disabled");
     treeClears := treeClears s |}.

(** [setupCoverageStatusBarItem()]: the stored value, when there is one,
    becomes the flag; then the item is written. *)
Definition setupCoverageStatusBarItem (s : session) : session :=
  let s1 :=
    match lastCoverageStatus s with
    | Some last =>
        {| coverageEnabled := Some last; lastCoverageStatus := lastCoverageStatus s;
           statusText := statusText s; treeClears := treeClears s |}
    | None => s
    end in
  updateStatusBarItem s1.

(** The command [go.bazel.toggleCoverage]. *)
Definition toggleCoverage (s : session) : session :=
  let s1 :=
    updateStatusBarItem
      {| coverageEnabled := Some (negb (enabled (coverageEnabled s)));
         lastCoverageStatus := lastCoverageStatus s;
         statusText := statusText s; treeClears := treeClears s |} in
  match coverageEnabled s1 with
  | Some false =>
      {| coverageEnabled := coverageEnabled s1; lastCoverageStatus := lastCoverageStatus s1;
         statusText := statusText s1; treeClears := S (treeClears s1) |}
  | _ => s1
  end.

(** The command run [n] times. *)
Fixpoint toggles (n : nat) (s : session) : session :=
  match n with
  | O => s
  | S n' => toggles n' (toggleCoverage s)
  end.

(** A later session: the stored value is kept, the flag is the one the
    context starts with, the item is new. *)
Definition restart (flag : option bool) (s : session) : session :=
  {| coverageEnabled := flag; lastCoverageStatus := lastCoverageStatus s;
     statusText := EmptyString; treeClears := 0 |}.

(** The item says what the flag is, and the stored value is the flag. *)
Definition inStep (s : session) : Prop :=
  lastCoverageStatus s = coverageEnabled s
  /\ statusText s
     = "Coverage " +++ (if enabled (coverageEnabled s) then "Enabled" else "Disabled").

End CoverageToggle.

(** ** The coverage handler and its tree provider ([GoCoverageHandler]) *)
Module CoverageHandler.
Import JS Coverage CoverageViews.

(** An array of tree nodes is an object: [arrayRef] is its identity,
    its place among the arrays. *)
Definition arrayRef := nat.

(** What the handler works on: the arrays of tree nodes, the context key
    [go.showCoverage], and how often [clearCoverage] of goCover and the
    command [go.coverageTree.refresh] were run. *)
Record world := {
  arrays : list (list CoverageTreeNode);
  showCoverage : option bool;
  coverageClears : nat;
  refreshes : nat
}.

(** [CoverageTreeProvider]: the array it was built on. *)
Record CoverageTreeProvider := { displayData : arrayRef }.

(** [GoCoverageHandler]: its array of roots and its provider. *)
Record GoCoverageHandler := {
  coverageTreeRoots : arrayRef;
  provider : CoverageTreeProvider
}.

Definition arrayAt (w : world) (r : arrayRef) : list CoverageTreeNode :=
  nth r (arrays w) [].

Definition setArray (r : arrayRef) (a : list CoverageTreeNode) (w : world) : world :=
  {| arrays := Resolver.update r a (arrays w); showCoverage := showCoverage w;
     coverageClears := coverageClears w; refreshes := refreshes w |}.

(** [new GoCoverageHandler()]: a new empty array, and a provider built
    on that very array. *)
Definition newHandler (w : world) : GoCoverageHandler * world :=
  let roots := List.length (arrays w) in
  ({| coverageTreeRoots := roots; provider := {| displayData := roots |} |},
   {| arrays := arrays w ++ [[]]; showCoverage := showCoverage w;
      coverageClears := coverageClears w; refreshes := refreshes w |}).

(** [clearCoverageTree()]: [this.coverageTreeRoots.length = 0] empties
    the array where it is. *)
Definition clearCoverageTree (h : GoCoverageHandler) (w : world) : world :=
  {| arrays := Resolver.update (coverageTreeRoots h) [] (arrays w);
     showCoverage := showCoverage w;
     coverageClears := coverageClears w; refreshes := S (refreshes w) |}.

(** [newRun(showPanel)]. *)
Definition newRun (h : GoCoverageHandler) (showPanel : bool) (w : world) : world :=
  let w1 :=
    {| arrays := arrays w; showCoverage := showCoverage w;
       coverageClears := S (coverageClears w); refreshes := refreshes w |} in
  let w2 := clearCoverageTree h w1 in
  {| arrays := arrays w2; showCoverage := Some showPanel;
     coverageClears := coverageClears w2; refreshes := refreshes w2 |}.

(** [addTreeRoot(node)]: the node is pushed on the array. *)
Definition addTreeRoot (h : GoCoverageHandler) (w : world) (node : CoverageTreeNode)
  : world :=
  {| arrays := Resolver.update (coverageTreeRoots h)
                 (arrayAt w (coverageTreeRoots h) ++ [node]) (arrays w);
     showCoverage := showCoverage w;
     coverageClears := coverageClears w; refreshes := S (refreshes w) |}.

(** [provider.getChildren(element)]: with no element, the array the
    provider was built on, as it is now. *)
Definition providerChildren (p : CoverageTreeProvider) (w : world)
    (element : option CoverageTreeNode) : list CoverageTreeNode :=
  getChildren (arrayAt w (displayData p)) element.

Section Handler.

Variable elaborate : Range -> Z -> bool -> list DecorationOptions.
Variable pathJoin : string -> string -> string.
Variable pathRelative : string -> string -> string.
Variable pathDirname : string -> string.
Variable pathBasename : string -> string.

(** The package nodes of a report, in the order of [resultsTree]. *)
Definition packageNodes (showCounts : bool) (files : list LcovFile.t)
    (config : CoverageProcessingConfig) : list CoverageTreeNode :=
  mapValues
    (resultsTree
       (fold_left (addFile elaborate pathJoin pathRelative pathDirname pathBasename
                     showCounts config)
          files {| coveragePath := []; resultsTree := [] |})).

(** [processLcovFiles(data, config)] on the handler: the loop over
    [resultsTree.values()] calls [addTreeRoot] for each package node. *)
Definition processLcovFilesOn (h : GoCoverageHandler) (showCounts : bool)
    (data : option (list LcovFile.t)) (config : CoverageProcessingConfig) (w : world)
  : world :=
  match data with
  | None => w
  | Some files => fold_left (addTreeRoot h) (packageNodes showCounts files config) w
  end.

End Handler.

(** The world before any handler. *)
Definition emptyWorld : world :=
  {| arrays := []; showCoverage := None; coverageClears := 0; refreshes := 0 |}.

End CoverageHandler.

(* ===================================================================== *)
(** * Part II. Properties                                                 *)
(* ===================================================================== *)

Module JSFacts.
Import JS.

Lemma sliceFrom_length (n : nat) (s : string) :
  String.length (sliceFrom n s) = (String.length s - n)%nat.
Proof.
  revert s; induction n as [|n IH]; intros s; simpl.
  - lia.
  - destruct s as [|a s']; simpl; [reflexivity | apply IH].
Qed.

End JSFacts.

Module CollectorFacts.
Import JS JSFacts Collector.

Example regError_samples :
  regErrorExec "ERROR: boom" = Some 0
  /\ regErrorExec ("INFO: a" +++ String (ascii_of_nat 10) "ERROR: b") = Some 8
  /\ regErrorExec "xERROR: boom" = None
  /\ regErrorExec "Internal error thrown during build. x" = Some 0
  /\ regProgressTest "[0 / 2] [Prepa] x" = true
  /\ regProgressTest "[ / 2]" = false
  /\ regNonErrorLogTest "INFO: Found 1 test target..." = true.
Proof. repeat split; reflexivity. Qed.

(** The unit test on an error message followed by additional info: a
    call with no argument, a chunk of log lines, a chunk with an error
    among its lines, a line of detail. *)
Example feed_error_then_additional_info :
  let nl := String "010"%char EmptyString in
  output
    (feed [ None;
            Some ("INFO: Invocation ID: 91dba82a" +++ nl +++ "Loading: " +++ nl);
            Some ("Loading: 0 packages loaded" +++ nl
                    +++ "ERROR: error loading package" +++ nl
                    +++ "INFO: Elapsed time: 0.227s" +++ nl);
            Some "sample additional error details" ]
       init)
  = [ "ERROR: error loading package" +++ nl +++ "INFO: Elapsed time: 0.227s" +++ nl;
      "sample additional error details" ].
Proof. reflexivity. Qed.

Lemma feed_cons (m : option string) (ms : list (option string)) (c : state) :
  feed (m :: ms) c = feed ms (updateErrorMessages m c).
Proof. reflexivity. Qed.

(** A match of [regError] starts inside the string. *)
Lemma regErrorScan_bound (s : string) :
  forall bol i k, regErrorScan bol i s = Some k ->
  (i <= k < i + String.length s)%nat.
Proof.
  induction s as [|a s' IH]; intros bol i k H; simpl in H.
  - discriminate.
  - destruct (bol && regErrorHere (String a s')).
    + injection H as <-. simpl. lia.
    + apply IH in H. simpl. lia.
Qed.

Lemma regErrorExec_bound (m : string) (k : nat) :
  regErrorExec m = Some k -> (k < String.length m)%nat.
Proof.
  unfold regErrorExec. intros H. apply regErrorScan_bound in H. lia.
Qed.

(** Rule 2: an error-introduction line appends the text from the match on
    and sets the flag. *)
Lemma update_error_line (c : state) (m : string) (k : nat) :
  regErrorExec m = Some k ->
  updateErrorMessages (Some m) c =
    {| sawError := true; output := output c ++ [sliceFrom k m] |}.
Proof.
  intros H. pose proof (regErrorExec_bound _ _ H) as Hk.
  destruct m as [|a m']; [simpl in Hk; lia|].
  unfold updateErrorMessages. rewrite H.
  rewrite sliceFrom_length.
  destruct (Nat.ltb_spec 0 (String.length (String a m') - k)); [reflexivity | lia].
Qed.

(** Rules 3 and 4 on a continuation line: appended verbatim when the flag
    is set, dropped otherwise; the flag is cleared either way. *)
Lemma update_continuation_line (c : state) (m : string) :
  isContinuationLine m = true ->
  updateErrorMessages (Some m) c =
    {| sawError := false;
       output := if sawError c then output c ++ [m] else output c |}.
Proof.
  unfold isContinuationLine, isErrorLine. intros H.
  apply andb_prop in H as [H Hp]. apply andb_prop in H as [H Hl].
  apply andb_prop in H as [Hne He].
  destruct m as [|a m']; [discriminate|].
  unfold updateErrorMessages.
  destruct (regErrorExec (String a m')); [discriminate|].
  simpl. rewrite Hl, Hp. destruct (sawError c); reflexivity.
Qed.

(** Continuation lines met while the flag is down leave the list as it is. *)
Lemma feed_continuations_flag_down (ls : list string) :
  forall c, sawError c = false ->
  Forall (fun l => isContinuationLine l = true) ls ->
  feed (map Some ls) c = {| sawError := false; output := output c |}.
Proof.
  induction ls as [|l ls IH]; intros c Hc Hall.
  - destruct c; simpl in *. subst. reflexivity.
  - inversion Hall as [|? ? Hl Hls]; subst.
    rewrite map_cons, feed_cons, (update_continuation_line c l Hl), Hc.
    apply (IH {| sawError := false; output := output c |}); [reflexivity | assumption].
Qed.

(** C4 (as amended). After an error-introduction line the collector
    appends the next continuation line verbatim, and that call clears
    the flag like every other call with a non-empty line that is no error
    introduction: of [k] continuation lines following one error line,
    only the first joins the message list. *)
Theorem C4_only_first_continuation_appended
  (c : state) (err : string) (k : nat) (ls : list string) :
  regErrorExec err = Some k ->
  Forall (fun l => isContinuationLine l = true) ls ->
  feed (Some err :: map Some ls) c =
    {| sawError := match ls with [] => true | _ :: _ => false end;
       output := output c ++ [sliceFrom k err] ++ firstn 1 ls |}.
Proof.
  intros Herr Hall. rewrite feed_cons, (update_error_line c err k Herr).
  destruct ls as [|l ls].
  - reflexivity.
  - inversion Hall as [|? ? Hl Hls]; subst.
    rewrite map_cons, feed_cons, (update_continuation_line _ l Hl).
    cbn [sawError output].
    rewrite feed_continuations_flag_down; [|reflexivity|assumption].
    cbn [output firstn]. rewrite <- app_assoc. reflexivity.
Qed.

(** The theorem at the stderr text [ERROR: boom] followed by two lines of
    detail: the second detail line is not kept. *)
Lemma C4_only_first_continuation_appended_witness :
  feed (Some "ERROR: boom" :: map Some ["detail one"; "detail two"]) init =
    {| sawError := false; output := ["ERROR: boom"; "detail one"] |}.
Proof.
  apply (C4_only_first_continuation_appended init "ERROR: boom" 0
           ["detail one"; "detail two"]).
  - reflexivity.
  - repeat constructor.
Defined.

(** C4 as stated fails: two continuation lines follow one error line and
    the message list does not hold all of them. *)
Lemma C4_counterexample :
  isErrorLine "ERROR: boom" = true
  /\ isContinuationLine "detail one" = true
  /\ isContinuationLine "detail two" = true
  /\ output (feed [Some "ERROR: boom"; Some "detail one"; Some "detail two"] init)
     <> ["ERROR: boom"; "detail one"; "detail two"].
Proof.
  repeat split; try reflexivity. vm_compute. discriminate.
Qed.

End CollectorFacts.

Module BazelArgsFacts.
Import JS BazelArgs.

(** The unit test on subtests with special characters. *)
Example getBazelArgs_subtests_with_special_characters :
  getBazelArgs
    (sampleConfig ["func1/subtest$(001)"; "func1/test:with.separators"; "func1/test[01]"])
    ["path/to/target:go_default_test"] "/tmp/sample_output_file" None =
  [ "test"; "--build_tests_only"; "--test_env=GO_TEST_WRAP_TESTV=1";
    "--build_event_json_file=/tmp/sample_output_file";
    "--build_event_json_file_path_conversion=no"; "--tool_tag=vscode-go-bazel";
    "--test_filter='^(func1$/^subtest\$\(001\)|func1$/^test:with\.separators|func1$/^test\[01\])$'";
    "--user_sample_flag=TRUE"; "--other_user_flag=FALSE";
    "path/to/target:go_default_test" ].
Proof. reflexivity. Qed.

Lemma countSlashes_escape (s : string) :
  countSlashes (escapeSpecialCharacters s) = countSlashes s.
Proof.
  induction s as [|a s IH]; [reflexivity|].
  cbn [escapeSpecialCharacters].
  destruct (isSpecialCharacter a) eqn:Hs; cbn [countSlashes]; rewrite IH.
  - destruct (Ascii.eqb_spec a "/"%char) as [->|]; [discriminate Hs | reflexivity].
  - reflexivity.
Qed.

Lemma anchorEverySegment_no_slash (t : string) :
  countSlashes t = 0%nat -> anchorEverySegment t = t.
Proof.
  induction t as [|a t IH]; [reflexivity|].
  cbn [countSlashes anchorEverySegment].
  destruct (Ascii.eqb a "/"%char); intros H; [discriminate H|].
  rewrite IH by exact H. reflexivity.
Qed.

Lemma replaceFirstSlash_one_slash (t : string) :
  (countSlashes t <= 1)%nat -> replaceFirstSlash t = anchorEverySegment t.
Proof.
  induction t as [|a t IH]; [reflexivity|].
  cbn [countSlashes replaceFirstSlash anchorEverySegment].
  destruct (Ascii.eqb a "/"%char); intros H.
  - rewrite anchorEverySegment_no_slash by lia. reflexivity.
  - rewrite IH by exact H. reflexivity.
Qed.

(** A name with at most one slash is anchored as specified. *)
Lemma filterFunction_one_slash (curr : string) :
  (countSlashes curr <= 1)%nat ->
  filterFunction curr = filterFunctionAsSpecified curr.
Proof.
  intros H. unfold filterFunction, filterFunctionAsSpecified.
  apply replaceFirstSlash_one_slash. rewrite countSlashes_escape. exact H.
Qed.

(** C7 (the code at the failing input). For the subtest path [a/b/c] the
    filter anchors the first slash only: the flag is [^a$/^b/c$], where
    anchoring every segment gives [^a$/^b$/^c$]. *)
Theorem C7_filter_anchors_first_slash_only :
  getBazelArgs (sampleConfig ["a/b/c"]) ["path/to/target:go_default_test"]
    "/tmp/sample_output_file" None =
  [ "test"; "--build_tests_only"; "--test_env=GO_TEST_WRAP_TESTV=1";
    "--build_event_json_file=/tmp/sample_output_file";
    "--build_event_json_file_path_conversion=no"; "--tool_tag=vscode-go-bazel";
    "--test_filter='^a$/^b/c$'";
    "--user_sample_flag=TRUE"; "--other_user_flag=FALSE";
    "path/to/target:go_default_test" ]
  /\ testFilter [filterFunctionAsSpecified "a/b/c"] = "--test_filter='^a$/^b$/^c$'"
  /\ filterFunction "a/b/c" <> filterFunctionAsSpecified "a/b/c".
Proof.
  split; [reflexivity|]. split; [reflexivity|]. vm_compute. discriminate.
Qed.

End BazelArgsFacts.

Module CoverageFacts.
Import JS Coverage.

Section LcovLinesFacts.

Variable elaborate : Range -> Z -> bool -> list DecorationOptions.

(** [elaborate] answers one decoration, on the range it is given. *)
Hypothesis elaborate_one_range :
  forall r count showCounts, map range (elaborate r count showCounts) = [r].

(** The loop as two filters over the detail lines. *)
Lemma lcov_fold_ranges (showCounts : bool) (ds : list LcovLine.t) :
  forall acc,
  map range (coveredOptions (fold_left (addLine elaborate showCounts) ds acc)) =
    map range (coveredOptions acc) ++ map lineRange (filter isCovered ds)
  /\ map range (uncoveredOptions (fold_left (addLine elaborate showCounts) ds acc)) =
    map range (uncoveredOptions acc)
      ++ map lineRange (filter (fun d => negb (isCovered d)) ds).
Proof.
  induction ds as [|d ds IH]; intros acc; simpl.
  - rewrite !app_nil_r. split; reflexivity.
  - destruct (IH (addLine elaborate showCounts acc d)) as [IHc IHu].
    rewrite IHc, IHu. unfold addLine, isCovered.
    destruct (LcovLine.hit d >? 0)%Z; simpl;
      rewrite map_app, elaborate_one_range, <- app_assoc; split; reflexivity.
Qed.

Lemma lcov_ranges (lines : LcovPart.t) (showCounts : bool) :
  map range (coveredOptions (lcovLinesToEditorRanges elaborate lines showCounts)) =
    map lineRange (filter isCovered (LcovPart.details lines))
  /\ map range (uncoveredOptions (lcovLinesToEditorRanges elaborate lines showCounts)) =
    map lineRange (filter (fun d => negb (isCovered d)) (LcovPart.details lines)).
Proof.
  unfold lcovLinesToEditorRanges.
  destruct (lcov_fold_ranges showCounts (LcovPart.details lines) emptyCoverageData)
    as [Hc Hu].
  rewrite Hc, Hu. split; reflexivity.
Qed.

Lemma filter_partition_length {A : Type} (f : A -> bool) (l : list A) :
  (List.length (filter f l) + List.length (filter (fun x => negb (f x)) l)
   = List.length l)%nat.
Proof.
  induction l as [|x l IH]; simpl; [reflexivity|].
  destruct (f x); simpl; lia.
Qed.

(** C8 (as amended). On the sample the covered ranges are the single
    lines 29 and 50 (from 0) and the uncovered one is line 39.  For all
    inputs: every range starts and ends on one line, the covered ranges
    are those of the detail lines with a positive count, in order, the
    uncovered ones those of the others, and the two counts add up to the
    number of detail lines. *)
Theorem C8_lcov_lines_to_single_line_ranges :
  (map range (coveredOptions (lcovLinesToEditorRanges elaborate sampleLines false)) =
     [ {| startLine := 29; startCharacter := 0; endLine := 29; endCharacter := 1000 |};
       {| startLine := 50; startCharacter := 0; endLine := 50; endCharacter := 1000 |} ]
   /\ map range (uncoveredOptions (lcovLinesToEditorRanges elaborate sampleLines false)) =
     [ {| startLine := 39; startCharacter := 0; endLine := 39; endCharacter := 1000 |} ])
  /\ forall (lines : LcovPart.t) (showCounts : bool),
       let coverage := lcovLinesToEditorRanges elaborate lines showCounts in
       Forall (fun d => startLine (range d) = endLine (range d))
         (coveredOptions coverage ++ uncoveredOptions coverage)
       /\ map range (coveredOptions coverage) =
            map lineRange
              (filter (fun d => (LcovLine.hit d >? 0)%Z) (LcovPart.details lines))
       /\ map range (uncoveredOptions coverage) =
            map lineRange
              (filter (fun d => negb (LcovLine.hit d >? 0)%Z) (LcovPart.details lines))
       /\ (List.length (coveredOptions coverage) + List.length (uncoveredOptions coverage)
           = List.length (LcovPart.details lines))%nat.
Proof.
  split.
  - destruct (lcov_ranges sampleLines false) as [Hc Hu]. rewrite Hc, Hu.
    split; reflexivity.
  - intros lines showCounts coverage.
    destruct (lcov_ranges lines showCounts) as [Hc Hu]. fold coverage in Hc, Hu.
    split; [|split; [exact Hc | split; [exact Hu|]]].
    + apply Forall_forall. intros d Hd.
      assert (Hr : In (range d)
                (map range (coveredOptions coverage ++ uncoveredOptions coverage)))
        by (apply in_map; exact Hd).
      rewrite map_app, Hc, Hu in Hr.
      apply in_app_or in Hr.
      destruct Hr as [Hr|Hr]; apply in_map_iff in Hr;
        destruct Hr as [x [<- _]]; reflexivity.
    + rewrite <- (length_map range (coveredOptions coverage)).
      rewrite <- (length_map range (uncoveredOptions coverage)).
      rewrite Hc, Hu, !length_map.
      apply (filter_partition_length isCovered).
Qed.

End LcovLinesFacts.

(** The theorem with one decoration for each range. *)
Lemma C8_lcov_lines_to_single_line_ranges_witness :
  map (fun d => startLine (range d))
    (coveredOptions (lcovLinesToEditorRanges elaborateOneRange sampleLines false))
    = [29; 50]%Z
  /\ map (fun d => startLine (range d))
    (uncoveredOptions (lcovLinesToEditorRanges elaborateOneRange sampleLines false))
    = [39]%Z.
Proof.
  pose proof (C8_lcov_lines_to_single_line_ranges elaborateOneRange
                (fun r count showCounts => eq_refl)) as [[Hc Hu] _].
  rewrite <- (map_map range startLine), <- (map_map range startLine), Hc, Hu.
  split; reflexivity.
Defined.

(** C8 as stated fails: detail line 51 is covered on line 50 counted from
    0, so the covered ranges are not on lines 29 and 51. *)
Lemma C8_counterexample :
  map (fun d => startLine (range d))
    (coveredOptions (lcovLinesToEditorRanges elaborateOneRange sampleLines false))
  <> [29; 51]%Z.
Proof. vm_compute. discriminate. Qed.

Section MapFacts.

Context {V : Type}.

Lemma mapGet_None_keys (k : string) (m : list (string * V)) :
  mapGet k m = None -> ~ In k (map fst m).
Proof.
  induction m as [|[k' v'] m IH]; simpl; [tauto|].
  destruct (String.eqb_spec k' k) as [->|Hne]; [discriminate|].
  intros H [Hk|Hk]; [congruence | exact (IH H Hk)].
Qed.

Lemma mapSet_keys (k : string) (v : V) (m : list (string * V)) :
  map fst (mapSet k v m) =
    match mapGet k m with
    | Some _ => map fst m
    | None => map fst m ++ [k]
    end.
Proof.
  induction m as [|[k' v'] m IH]; simpl; [reflexivity|].
  destruct (String.eqb k' k); simpl; [reflexivity|].
  rewrite IH. destruct (mapGet k m); reflexivity.
Qed.

Lemma mapSet_NoDup (k : string) (v : V) (m : list (string * V)) :
  NoDup (map fst m) -> NoDup (map fst (mapSet k v m)).
Proof.
  intros Hnd. rewrite mapSet_keys.
  destruct (mapGet k m) eqn:Hg; [exact Hnd|].
  apply NoDup_app; [exact Hnd | repeat constructor; simpl; tauto |].
  intros x Hx [<-|[]]. exact (mapGet_None_keys _ _ Hg Hx).
Qed.

(** An entry after [set]: the one set, or an older one under another key. *)
Lemma mapSet_In (k : string) (v : V) (m : list (string * V)) (e : string * V) :
  NoDup (map fst m) -> In e (mapSet k v m) ->
  e = (k, v) \/ (In e m /\ fst e <> k).
Proof.
  induction m as [|[k' v'] m IH]; simpl; intros Hnd Hin.
  - destruct Hin as [<-|[]]. left. reflexivity.
  - inversion Hnd as [|? ? Hk' Hnd']; subst.
    destruct (String.eqb_spec k' k) as [->|Hne].
    + destruct Hin as [<-|Hin]; [left; reflexivity|].
      right. split; [right; exact Hin|].
      intros He. apply Hk'. rewrite <- He. apply in_map. exact Hin.
    + destruct Hin as [<-|Hin]; [right; split; [left; reflexivity | exact Hne]|].
      destruct (IH Hnd' Hin) as [->|[Hin' Hk]]; [left; reflexivity|].
      right. split; [right; exact Hin' | exact Hk].
Qed.

Lemma mapGet_Some_In (k : string) (v : V) (m : list (string * V)) :
  mapGet k m = Some v -> In (k, v) m.
Proof.
  induction m as [|[k' v'] m IH]; simpl; [discriminate|].
  destruct (String.eqb_spec k' k) as [->|Hne].
  - intros [= ->]. left. reflexivity.
  - intros H. right. exact (IH H).
Qed.

Lemma mapSet_has_key (k : string) (v : V) (m : list (string * V)) :
  In k (map fst (mapSet k v m)).
Proof.
  rewrite mapSet_keys. destruct (mapGet k m) eqn:Hg.
  - apply mapGet_Some_In in Hg. apply (in_map fst) in Hg. exact Hg.
  - apply in_or_app. right. left. reflexivity.
Qed.

Lemma mapSet_keeps_keys (k k' : string) (v : V) (m : list (string * V)) :
  In k' (map fst m) -> In k' (map fst (mapSet k v m)).
Proof.
  rewrite mapSet_keys. destruct (mapGet k m); [tauto|].
  intros H. apply in_or_app. left. exact H.
Qed.

End MapFacts.

Lemma includes_In (l : list string) (x : string) :
  includes l x = true <-> In x l.
Proof.
  unfold includes. rewrite existsb_exists. split.
  - intros [y [Hy He]]. apply String.eqb_eq in He. subst. exact Hy.
  - intros H. exists x. split; [exact H | apply String.eqb_refl].
Qed.

Lemma sumZ_app (l1 l2 : list Z) : sumZ (l1 ++ l2) = (sumZ l1 + sumZ l2)%Z.
Proof.
  unfold sumZ. induction l1 as [|x l1 IH]; simpl; [reflexivity | rewrite IH; lia].
Qed.

Section LcovFilesFacts.

Variable elaborate : Range -> Z -> bool -> list DecorationOptions.
Variable pathJoin : string -> string -> string.
Variable pathRelative : string -> string -> string.
Variable pathDirname : string -> string.
Variable pathBasename : string -> string.
Variable showCounts : bool.
Variable config : CoverageProcessingConfig.

Let pkgOf := packageOf pathJoin pathRelative pathDirname config.
Let nodeOf := fileNode pathJoin pathRelative pathBasename config.
Let step := addFile elaborate pathJoin pathRelative pathDirname pathBasename showCounts config.

(** The files of the report that belong to package [pkg], in order. *)
Let filesOf (pkg : string) (files : list LcovFile.t) : list LcovFile.t :=
  filter (fun f => String.eqb (pkgOf f) pkg) files.

(** A package node after the files [files]: it is named after an
    in-scope package, its children are the nodes of the files of exactly
    that package, and its totals are the sums over its children. *)
Let packageNodeOk (files : list LcovFile.t) (node : CoverageTreeNode) : Prop :=
  In (displayName node) (targetPackages config)
  /\ absolutePath node = displayName node
  /\ children node = Some (map nodeOf (filesOf (displayName node) files))
  /\ hits node = sumZ (map hits (map nodeOf (filesOf (displayName node) files)))
  /\ lines node = sumZ (map lines (map nodeOf (filesOf (displayName node) files))).

(** The invariant of the loop over the files. *)
Let treeOk (files : list LcovFile.t) (tree : list (string * CoverageTreeNode)) : Prop :=
  NoDup (map fst tree)
  /\ (forall e, In e tree -> displayName (snd e) = fst e /\ packageNodeOk files (snd e))
  /\ (forall f, In f files -> In (pkgOf f) (targetPackages config) ->
                In (pkgOf f) (map fst tree))
  /\ (forall e, In e tree -> filesOf (fst e) files <> []).

Lemma filesOf_snoc (pkg : string) (files : list LcovFile.t) (f : LcovFile.t) :
  filesOf pkg (files ++ [f]) =
    filesOf pkg files ++ (if String.eqb (pkgOf f) pkg then [f] else []).
Proof.
  unfold filesOf. rewrite filter_app. simpl.
  destruct (String.eqb (pkgOf f) pkg); reflexivity.
Qed.

Lemma packageNodeOk_other (files : list LcovFile.t) (f : LcovFile.t)
    (node : CoverageTreeNode) :
  pkgOf f <> displayName node ->
  packageNodeOk files node -> packageNodeOk (files ++ [f]) node.
Proof.
  intros Hne Hok. unfold packageNodeOk in *. rewrite filesOf_snoc.
  destruct (String.eqb_spec (pkgOf f) (displayName node)) as [He|_]; [contradiction|].
  rewrite app_nil_r. exact Hok.
Qed.

Lemma treeOk_step (files : list LcovFile.t) (f : LcovFile.t) (m : maps) :
  treeOk files (resultsTree m) ->
  treeOk (files ++ [f]) (resultsTree (step m f)).
Proof.
  intros (Hnd & Hnodes & Hall & Hne).
  unfold step, addFile. fold (pkgOf f).
  destruct (includes (targetPackages config) (pkgOf f)) eqn:Hinc; simpl.
  - (* the package is in scope *)
    apply includes_In in Hinc.
    split; [apply mapSet_NoDup; exact Hnd|].
    split; [|split].
    + intros e He. apply (mapSet_In _ _ _ _ Hnd) in He.
      destruct He as [->|[He Hk]].
      * cbn [fst snd displayName].
        destruct (mapGet (pkgOf f) (resultsTree m)) as [node|] eqn:Hg.
        -- apply mapGet_Some_In in Hg.
           destruct (Hnodes _ Hg) as [Hname (Hin & Hpath & Hch & Hh & Hl)].
           cbn [fst snd] in Hname, Hin, Hpath, Hch, Hh, Hl.
           split; [exact Hname|].
           unfold packageNodeOk. cbn [displayName absolutePath children hits lines].
           rewrite Hname in *. rewrite filesOf_snoc, String.eqb_refl.
           rewrite Hch, Hh, Hl, !map_app, !sumZ_app.
           repeat split; try assumption; cbn; lia.
        -- split; [reflexivity|].
           unfold packageNodeOk. cbn [displayName absolutePath children hits lines].
           rewrite filesOf_snoc, String.eqb_refl.
           assert (Hnone : filesOf (pkgOf f) files = []).
           { destruct (filesOf (pkgOf f) files) as [|g gs] eqn:Hfs; [reflexivity|].
             exfalso. apply (mapGet_None_keys _ _ Hg).
             assert (Hgin : In g (filesOf (pkgOf f) files)) by (rewrite Hfs; left; reflexivity).
             unfold filesOf in Hgin. apply filter_In in Hgin as [Hgin Hgk].
             apply String.eqb_eq in Hgk. rewrite <- Hgk.
             apply Hall; [exact Hgin | rewrite Hgk; exact Hinc]. }
           rewrite Hnone. cbn. repeat split; try assumption; lia.
      * destruct (Hnodes _ He) as [Hname Hok].
        split; [exact Hname|].
        apply packageNodeOk_other; [|exact Hok]. rewrite Hname. congruence.
    + intros g Hg Hgs. apply in_app_or in Hg. destruct Hg as [Hg|[<-|[]]].
      * apply mapSet_keeps_keys. apply Hall; assumption.
      * apply mapSet_has_key.
    + intros e He. apply (mapSet_In _ _ _ _ Hnd) in He.
      rewrite filesOf_snoc.
      destruct He as [->|[He Hk]].
      * cbn [fst]. rewrite String.eqb_refl.
        intros Habs. apply app_eq_nil in Habs as [_ Habs]. discriminate.
      * intros Habs. apply app_eq_nil in Habs as [Habs _]. exact (Hne _ He Habs).
  - (* the package is out of scope: the file is skipped *)
    assert (Hout : ~ In (pkgOf f) (targetPackages config)).
    { intros Hin. apply includes_In in Hin. congruence. }
    split; [exact Hnd|]. split; [|split].
    + intros e He. destruct (Hnodes _ He) as [Hname Hok].
      split; [exact Hname|].
      apply packageNodeOk_other; [|exact Hok].
      intros Heq. apply Hout. rewrite Heq. apply Hok.
    + intros g Hg Hgs. apply in_app_or in Hg. destruct Hg as [Hg|[<-|[]]].
      * apply Hall; assumption.
      * contradiction.
    + intros e He. rewrite filesOf_snoc. intros Habs.
      apply app_eq_nil in Habs as [Habs _]. exact (Hne _ He Habs).
Qed.

Lemma treeOk_fold (files : list LcovFile.t) :
  treeOk files
    (resultsTree (fold_left step files {| coveragePath := []; resultsTree := [] |})).
Proof.
  induction files as [|f files IH] using rev_ind.
  - simpl. split; [constructor|].
    split; [intros e []|]. split; [intros f []|intros e []].
  - rewrite fold_left_app. simpl. apply treeOk_step. exact IH.
Qed.

(** C9. After any sequence of per-file records, the roots added to the
    tree are package nodes of in-scope packages, one for each package
    that has a file; each has for children the nodes of the files whose
    package is exactly its own, and its hits and lines are the sums of
    those of its children.  A file of a package that is not in the list
    is a child of no node. *)
Theorem C9_package_totals_are_sums_of_children
  (roots : list CoverageTreeNode) (files : list LcovFile.t) :
  exists (data : list (string * CoverageData)) (added : list CoverageTreeNode),
    processLcovFiles elaborate pathJoin pathRelative pathDirname pathBasename
      showCounts roots (Some files) config
    = Some {| coverageData := data; coverageTreeRoots := roots ++ added |}
    /\ NoDup (map displayName added)
    /\ Forall (fun node =>
         exists cs,
           children node = Some cs
           /\ hits node = sumZ (map hits cs)
           /\ lines node = sumZ (map lines cs)
           /\ In (displayName node) (targetPackages config)
           /\ cs <> []
           /\ cs = map nodeOf
                    (filter (fun f => String.eqb (pkgOf f) (displayName node)) files))
         added
    /\ Forall (fun f =>
         includes (targetPackages config) (pkgOf f) = true ->
         exists node, In node added /\ displayName node = pkgOf f)
         files.
Proof.
  pose proof (treeOk_fold files) as (Hnd & Hnodes & Hall & Hne).
  unfold processLcovFiles. fold step.
  set (m := fold_left step files {| coveragePath := []; resultsTree := [] |}) in *.
  exists (coveragePath m), (mapValues (resultsTree m)).
  split; [reflexivity|].
  assert (Hkeys : map displayName (mapValues (resultsTree m)) = map fst (resultsTree m)).
  { unfold mapValues. rewrite map_map. apply map_ext_in.
    intros e He. apply (Hnodes e He). }
  split; [rewrite Hkeys; exact Hnd|]. split.
  - apply Forall_forall. intros node Hnode.
    unfold mapValues in Hnode. apply in_map_iff in Hnode as [e [<- He]].
    destruct (Hnodes e He) as [Hname (Hin & Hpath & Hch & Hh & Hl)].
    exists (map nodeOf (filesOf (displayName (snd e)) files)).
    repeat split; try assumption.
    intros Habs. apply map_eq_nil in Habs. rewrite Hname in Habs.
    exact (Hne e He Habs).
  - apply Forall_forall. intros f Hf Hinc.
    apply includes_In in Hinc.
    pose proof (Hall f Hf Hinc) as Hk. rewrite <- Hkeys in Hk.
    apply in_map_iff in Hk as [node [Hname Hnode]].
    exists node. split; assumption.
Qed.

End LcovFilesFacts.

End CoverageFacts.

Module XmlReportFacts.
Import JS XmlReport.

Lemma forEach_app {A S : Type} (body : S -> A -> option S) (l1 l2 : list A) (s : S) :
  forEach body (l1 ++ l2) s =
    match forEach body l1 s with
    | Some s' => forEach body l2 s'
    | None => None
    end.
Proof.
  revert s. induction l1 as [|x l1 IH]; intros s; simpl; [reflexivity|].
  destruct (body s x); [apply IH | reflexivity].
Qed.

Lemma pushLines_present (entries : list TextElement) :
  forall messages,
  forallb (fun e => match text e with Some _ => true | None => false end) entries = true ->
  pushLines entries messages =
    Some (messages
            ++ flat_map (fun e => match text e with Some t => split LF t | None => [] end)
                 entries).
Proof.
  induction entries as [|e entries IH]; intros messages H; simpl.
  - rewrite app_nil_r. reflexivity.
  - simpl in H. apply andb_prop in H as [He Hrest].
    destruct (text e) as [t|]; [|discriminate].
    rewrite (IH _ Hrest), <- app_assoc. reflexivity.
Qed.

Lemma addTestCase_present (pkg : string) (results : list GoTestOutput) (c : TestCase) :
  caseTextsPresent c = true ->
  addTestCase pkg results c = Some (results ++ caseEvents pkg c).
Proof.
  unfold caseTextsPresent, addTestCase, actionAndMessages, caseEvents, caseLines,
    caseAction, entriesRead.
  intros H.
  destruct (failure c) as [fs|].
  - rewrite (pushLines_present fs [] H). simpl. rewrite <- app_assoc. reflexivity.
  - destruct (error c) as [es|].
    + rewrite (pushLines_present es [] H). simpl. rewrite <- app_assoc. reflexivity.
    + destruct (skipped c); simpl; rewrite app_nil_r; reflexivity.
Qed.

Lemma forEach_cases_present (pkg : string) (cases : list TestCase) :
  forall results,
  forallb caseTextsPresent cases = true ->
  forEach (addTestCase pkg) cases results =
    Some (results ++ flat_map (caseEvents pkg) cases).
Proof.
  induction cases as [|c cases IH]; intros results H; simpl.
  - rewrite app_nil_r. reflexivity.
  - simpl in H. apply andb_prop in H as [Hc Hrest].
    rewrite (addTestCase_present pkg results c Hc), (IH _ Hrest), <- app_assoc.
    reflexivity.
Qed.

Lemma forEach_suites_present (suites : list TestSuite) :
  forall results,
  forallb suiteTextsPresent suites = true ->
  forEach addSuite suites results = Some (results ++ flat_map suiteEvents suites).
Proof.
  induction suites as [|suite suites IH]; intros results H; simpl.
  - rewrite app_nil_r. reflexivity.
  - simpl in H. apply andb_prop in H as [Hs Hrest].
    unfold suiteTextsPresent in Hs. unfold addSuite at 1, suiteEvents at 1.
    destruct (testcase suite) as [cases|].
    + rewrite (forEach_cases_present _ cases results Hs), (IH _ Hrest), <- app_assoc.
      reflexivity.
    + rewrite (IH _ Hrest). reflexivity.
Qed.

(** With every text present the conversion returns the events of the
    suites, one suite after the other. *)
Lemma convert_present (resultData : TestResultXML) :
  textsPresent resultData = true ->
  testResultXMLToGoTestOutput resultData =
    Some (flat_map suiteEvents (testsuite resultData)).
Proof.
  intros H. unfold testResultXMLToGoTestOutput.
  apply (forEach_suites_present (testsuite resultData) [] H).
Qed.

(** C2 (as amended). When every failure or error element that is read
    has the property [_], the conversion returns; a test case of a suite
    that has test cases gives one output event for each line of the split
    text, empty lines included, each with the line and a line feed, the
    package and the test, in source order and right before the final
    event of the case, which carries the action and the number parsed
    from the time attribute; what stands before them is the conversion of
    the suites and cases before.  A suite with no test case adds nothing. *)
Theorem C2_output_events_precede_final_event (resultData : TestResultXML) :
  textsPresent resultData = true ->
  exists events,
    testResultXMLToGoTestOutput resultData = Some events
    /\ (forall suites1 suite suites2 cases1 c cases2,
          testsuite resultData = suites1 ++ suite :: suites2 ->
          testcase suite = Some (cases1 ++ c :: cases2) ->
          exists before after,
            events =
              before
                ++ map (fun line =>
                          {| Action := "output";
                             Output := Some (line +++ String LF EmptyString);
                             Package := suiteName suite;
                             Test := caseName c;
                             Elapsed := None |})
                     (caseLines c)
                ++ [ {| Action := caseAction c;
                        Output := None;
                        Package := suiteName suite;
                        Test := caseName c;
                        Elapsed := Some (Number (time c)) |} ]
                ++ after
            /\ testResultXMLToGoTestOutput
                 {| testsuite :=
                      suites1 ++ [ {| suiteName := suiteName suite;
                                      testcase := Some cases1 |} ] |}
               = Some before)
    /\ (forall suites1 suite suites2,
          testsuite resultData = suites1 ++ suite :: suites2 ->
          testcase suite = None ->
          testResultXMLToGoTestOutput {| testsuite := suites1 ++ suites2 |} = Some events).
Proof.
  intros H. exists (flat_map suiteEvents (testsuite resultData)).
  split; [apply convert_present; exact H|].
  unfold textsPresent in H. split.
  - intros suites1 suite suites2 cases1 c cases2 Hs Hc.
    rewrite Hs in *. rewrite forallb_app in H. apply andb_prop in H as [H1 H2].
    simpl in H2. apply andb_prop in H2 as [Hsuite H2].
    rewrite Hc in Hsuite. rewrite forallb_app in Hsuite.
    apply andb_prop in Hsuite as [Hc1 Hc2].
    exists (flat_map suiteEvents suites1 ++ flat_map (caseEvents (suiteName suite)) cases1),
           (flat_map (caseEvents (suiteName suite)) cases2 ++ flat_map suiteEvents suites2).
    assert (Hse : suiteEvents suite =
                    flat_map (caseEvents (suiteName suite)) (cases1 ++ c :: cases2))
      by (unfold suiteEvents; rewrite Hc; reflexivity).
    split.
    + rewrite flat_map_app. cbn [flat_map]. rewrite Hse.
      rewrite flat_map_app. cbn [flat_map]. unfold caseEvents at 2.
      unfold outputEvent, finalEvent. rewrite <- !app_assoc. reflexivity.
    + rewrite convert_present.
      * cbn [testsuite]. rewrite flat_map_app. cbn [flat_map].
        unfold suiteEvents at 2. cbn [testcase suiteName].
        rewrite !app_nil_r. reflexivity.
      * unfold textsPresent. cbn [testsuite]. rewrite forallb_app, H1.
        cbn [forallb testcase]. unfold caseTextsPresent in Hc1. rewrite Hc1.
        reflexivity.
  - intros suites1 suite suites2 Hs Hnone.
    rewrite Hs in *. rewrite forallb_app in H. apply andb_prop in H as [H1 H2].
    simpl in H2. apply andb_prop in H2 as [_ H2].
    assert (Hse : suiteEvents suite = [])
      by (unfold suiteEvents; rewrite Hnone; reflexivity).
    rewrite convert_present.
    + cbn [testsuite]. rewrite !flat_map_app. cbn [flat_map]. rewrite Hse.
      reflexivity.
    + unfold textsPresent. cbn [testsuite]. rewrite forallb_app, H1, H2. reflexivity.
Qed.

(** The theorem on the sample report. *)
Lemma C2_output_events_precede_final_event_witness :
  exists events,
    testResultXMLToGoTestOutput sampleReport = Some events
    /\ List.length events = 5%nat.
Proof.
  destruct (C2_output_events_precede_final_event sampleReport eq_refl)
    as [events [Hev _]].
  exists events. split; [exact Hev|].
  vm_compute in Hev. injection Hev as <-. reflexivity.
Defined.

(** C2 as stated fails: the text of the failing case has three lines, one
    of them empty, and the conversion gives three output events, not one
    for each of its two non-empty lines. *)
Lemma C2_counterexample :
  option_map (fun events =>
                List.length (filter (fun e => String.eqb (Action e) "output") events))
    (testResultXMLToGoTestOutput sampleReport)
  <> Some (List.length
             (filter (fun line => negb (String.eqb line EmptyString))
                (caseLines sampleFailingCase))).
Proof. vm_compute. discriminate. Qed.

End XmlReportFacts.

Module BuildEventsFacts.
Import JS BuildEvents.

(** *** Statements that leave a part of the run as it is *)
Section Keeps.

Context {X : Type}.
Variable f : run -> X.

Lemma keeps_ret {A : Type} (a : A) : keeps f (ret a).
Proof. intros r. reflexivity. Qed.

Lemma keeps_orThrow {A : Type} (o : option A) : keeps f (orThrow o).
Proof. intros r. reflexivity. Qed.

Lemma keeps_bind {A B : Type} (m : M A) (k : A -> M B) :
  keeps f m -> (forall a, keeps f (k a)) -> keeps f (bind m k).
Proof.
  intros Hm Hk r. unfold bind. specialize (Hm r).
  destruct (m r) as [[a|] r']; simpl in *.
  - rewrite (Hk a r'). exact Hm.
  - exact Hm.
Qed.

Lemma keeps_forOf (body : value -> M unit) (l : list value) :
  (forall x, keeps f (body x)) -> keeps f (forOf body l).
Proof.
  intros Hb. induction l as [|x l IH]; simpl.
  - apply keeps_ret.
  - apply keeps_bind; [apply Hb | intros _; exact IH].
Qed.

End Keeps.

(** The proof that a statement built from the primitives keeps [f]. *)
Ltac keeps_step :=
  first
    [ apply keeps_ret
    | apply keeps_orThrow
    | apply keeps_bind; [|intros ?]
    | apply keeps_forOf; intros ?
    | match goal with
      | |- keeps _ (if ?b then _ else _) => destruct b
      end
    | (intros ?; reflexivity) ].

Section StreamFacts.

Variable JSON_parse : string -> option value.
Variable collectOther : value -> Collector.state -> option Collector.state.

Let handle := handleLine JSON_parse collectOther.

Lemma collectStderr_keeps_channel (stderr : value) :
  keeps channel (collectStderr collectOther stderr).
Proof.
  intros r. unfold collectStderr.
  destruct stderr; simpl; try reflexivity;
    match goal with
    | |- context [collectOther ?v ?c] => destruct (collectOther v c); reflexivity
    | |- context [if ?b then _ else _] =>
        destruct b; try reflexivity;
        match goal with
        | |- context [collectOther ?v ?c] => destruct (collectOther v c); reflexivity
        end
    end.
Qed.

Lemma collectStderr_keeps_rest (stderr : value) :
  keeps besidesMessages (collectStderr collectOther stderr).
Proof.
  intros r. unfold collectStderr.
  destruct stderr; simpl; try reflexivity;
    match goal with
    | |- context [collectOther ?v ?c] => destruct (collectOther v c); reflexivity
    | |- context [if ?b then _ else _] =>
        destruct b; try reflexivity;
        match goal with
        | |- context [collectOther ?v ?c] => destruct (collectOther v c); reflexivity
        end
    end.
Qed.

(** The [try] block writes nothing to the channel. *)
Lemma handleLine_keeps_channel (line : string) : keeps channel (handle line).
Proof.
  unfold handle, handleLine, addTestActionOutput.
  repeat first [ apply collectStderr_keeps_channel | keeps_step ].
Qed.

(** The [try] block as its statements in sequence. *)
Lemma handleLine_statements (line : string) (r : run) :
  handle line r =
    match JSON_parse line with
    | None => (None, r)
    | Some parsed =>
        match prop parsed "id" with
        | None => (None, r)
        | Some id =>
            (exitCodeStatement parsed id ;;;
             collectorStatement collectOther parsed ;;;
             idStatement parsed id) r
        end
    end.
Proof.
  unfold handle, handleLine, exitCodeStatement, collectorStatement.
  unfold bind at 1, orThrow at 1.
  destruct (JSON_parse line) as [parsed|]; [|reflexivity].
  unfold bind at 1, orThrow at 1.
  destruct (prop parsed "id") as [id|]; [|reflexivity].
  unfold bind, orThrow.
  destruct (prop id "buildFinished") as [bf|]; [|reflexivity].
  destruct (truthy bf).
  - destruct (prop parsed "finished") as [fin|]; [|reflexivity].
    destruct (prop fin "exitCode") as [ex|]; [|reflexivity].
    destruct (prop ex "code") as [code|]; [|reflexivity].
    cbn [setExitCode setOutputs update].
    destruct (prop parsed "progress") as [pr|]; [|reflexivity].
    destruct (optionalProp pr "stderr") as [se|]; [|reflexivity].
    match goal with |- context [collectStderr _ ?v ?x] =>
      destruct (collectStderr collectOther v x) as [[u|] r'] end; reflexivity.
  - cbn [ret].
    destruct (prop parsed "progress") as [pr|]; [|reflexivity].
    destruct (optionalProp pr "stderr") as [se|]; [|reflexivity].
    destruct (collectStderr collectOther se r) as [[u|] r']; reflexivity.
Qed.

(** *** A line on which the [try] block throws *)

(** The block throws on [line] whatever the run, and leaves the part [g]
    of the outputs as it was. *)
Let throwsKeeping {Y : Type} (g : BuildEventOutputs -> Y) (line : string) : Prop :=
  forall r, exists r', handle line r = (None, r') /\ g (outputs r') = g (outputs r).

Lemma malformed_throws (line : string) :
  JSON_parse line = None -> throwsKeeping (fun o => o) line.
Proof.
  intros Hp r. exists r. rewrite handleLine_statements, Hp. split; reflexivity.
Qed.

(** *** Lines that parse and still make the block throw *)

Lemma collectStderr_keeps_payloadFields (stderr : value) :
  keeps (fun r => payloadFields (outputs r)) (collectStderr collectOther stderr).
Proof.
  intros r. pose proof (collectStderr_keeps_rest stderr r) as H.
  unfold besidesMessages in H. unfold payloadFields. congruence.
Qed.

Lemma exitCodeStatement_keeps_payloadFields (parsed id : value) :
  keeps (fun r => payloadFields (outputs r)) (exitCodeStatement parsed id).
Proof. unfold exitCodeStatement. repeat keeps_step. Qed.

Lemma collectorStatement_keeps_payloadFields (parsed : value) :
  keeps (fun r => payloadFields (outputs r)) (collectorStatement collectOther parsed).
Proof.
  unfold collectorStatement.
  repeat first [ apply collectStderr_keeps_payloadFields | keeps_step ].
Qed.

(** A value that is no object with an [id] field has an [id] of which
    no property can be read. *)
Lemma no_id_throws (line : string) (parsed : value) :
  JSON_parse line = Some parsed -> carriesId parsed = false ->
  throwsKeeping (fun o => o) line.
Proof.
  intros Hp Hid r. exists r. rewrite handleLine_statements, Hp.
  split; [|reflexivity].
  destruct parsed as [| | b | z | t | l | fields]; try reflexivity.
  cbn [carriesId] in Hid. cbn [prop].
  destruct (lookupField "id" fields); [discriminate | reflexivity].
Qed.

Lemma tagged_inv (parsed : value) (k : string) :
  tagged parsed k = true ->
  exists id t, prop parsed "id" = Some id /\ prop id k = Some t /\ truthy t = true.
Proof.
  unfold tagged. destruct (prop parsed "id") as [id|]; [|discriminate].
  destruct (prop id k) as [t|] eqn:Hk; [|discriminate].
  intros H. exists id, t. split; [reflexivity|]. split; [exact Hk | exact H].
Qed.

Lemma missing_inv (parsed : value) (k : string) :
  missing parsed k = true -> prop parsed k = Some JUndefined.
Proof.
  unfold missing. destruct (prop parsed k) as [[]|]; try discriminate. reflexivity.
Qed.

(** Reading a property of a value that has an [id] never throws. *)
Lemma prop_of_id (id : value) (k k' : string) (t : value) :
  prop id k = Some t -> exists t', prop id k' = Some t'.
Proof.
  destruct id as [| | b | z | s0 | l | fields]; cbn [prop]; try discriminate;
    intros _; try (eexists; reflexivity).
  destruct (lookupField k' fields); eexists; reflexivity.
Qed.

Lemma tagged_false (parsed id t : value) (k : string) :
  prop parsed "id" = Some id -> prop id k = Some t ->
  tagged parsed k = false -> truthy t = false.
Proof.
  unfold tagged. intros -> ->. tauto.
Qed.

(** With the selected payload missing, the statement on [buildFinished]
    or the chain on the id throws, and changes nothing. *)
Lemma payload_missing_statement (parsed id : value) :
  prop parsed "id" = Some id -> payloadMissing parsed = true ->
  (forall r, exitCodeStatement parsed id r = (None, r))
  \/ (forall r, idStatement parsed id r = (None, r)).
Proof.
  intros Hid H. unfold payloadMissing in H. apply orb_prop in H as [H|H].
  - left. apply andb_prop in H as [Ht Hm].
    apply tagged_inv in Ht as (id' & t & Hid' & Hk & Ht).
    rewrite Hid in Hid'. injection Hid' as <-.
    apply missing_inv in Hm. intros r.
    unfold exitCodeStatement, bind, orThrow. rewrite Hk, Ht, Hm. reflexivity.
  - right. intros r. unfold idStatement, bind, orThrow.
    destruct (tagged parsed "workspace") eqn:Hws.
    { apply tagged_inv in Hws as (id' & t & Hid' & Hk & Ht).
      rewrite Hid in Hid'. injection Hid' as <-.
      apply missing_inv in H. rewrite Hk, Ht, H. reflexivity. }
    destruct (tagged parsed "started") eqn:Hst.
    { apply tagged_inv in Hst as (id' & t & Hid' & Hk & Ht).
      rewrite Hid in Hid'. injection Hid' as <-.
      destruct (prop_of_id id "started" "workspace" t Hk) as [ws Hkw].
      rewrite Hkw, (tagged_false parsed id ws "workspace" Hid Hkw Hws).
      apply missing_inv in H. rewrite Hk, Ht, H. reflexivity. }
    destruct (tagged parsed "testResult") eqn:Htr.
    { apply tagged_inv in Htr as (id' & t & Hid' & Hk & Ht).
      rewrite Hid in Hid'. injection Hid' as <-.
      destruct (prop_of_id id "testResult" "workspace" t Hk) as [ws Hkw].
      destruct (prop_of_id id "testResult" "started" t Hk) as [st Hks].
      rewrite Hkw, (tagged_false parsed id ws "workspace" Hid Hkw Hws).
      rewrite Hks, (tagged_false parsed id st "started" Hid Hks Hst).
      apply missing_inv in H. rewrite Hk, Ht, H. reflexivity. }
    destruct (tagged parsed "configuration") eqn:Hcf; [|discriminate].
    apply tagged_inv in Hcf as (id' & t & Hid' & Hk & Ht).
    rewrite Hid in Hid'. injection Hid' as <-.
    destruct (prop_of_id id "configuration" "workspace" t Hk) as [ws Hkw].
    destruct (prop_of_id id "configuration" "started" t Hk) as [st Hks].
    destruct (prop_of_id id "configuration" "testResult" t Hk) as [tr Hkt].
    rewrite Hkw, (tagged_false parsed id ws "workspace" Hid Hkw Hws).
    rewrite Hks, (tagged_false parsed id st "started" Hid Hks Hst).
    rewrite Hkt, (tagged_false parsed id tr "testResult" Hid Hkt Htr).
    apply missing_inv in H. rewrite Hk, Ht, H. reflexivity.
Qed.

Lemma payload_missing_has_id (parsed : value) :
  payloadMissing parsed = true -> exists id, prop parsed "id" = Some id.
Proof.
  unfold payloadMissing, tagged.
  destruct (prop parsed "id") as [id|]; [eexists; reflexivity | discriminate].
Qed.

Lemma payload_missing_throws (line : string) (parsed : value) :
  JSON_parse line = Some parsed -> payloadMissing parsed = true ->
  throwsKeeping payloadFields line.
Proof.
  intros Hp Hm r.
  destruct (payload_missing_has_id parsed Hm) as [id Hid].
  rewrite handleLine_statements, Hp, Hid.
  pose proof (exitCodeStatement_keeps_payloadFields parsed id r) as Hk1.
  unfold bind.
  destruct (payload_missing_statement parsed id Hid Hm) as [Hex|Hch].
  - rewrite Hex. exists r. split; reflexivity.
  - destruct (exitCodeStatement parsed id r) as [[u|] r1]; cbn [snd] in Hk1.
    + pose proof (collectorStatement_keeps_payloadFields parsed r1) as Hk2.
      destruct (collectorStatement collectOther parsed r1) as [[u'|] r2]; cbn [snd] in Hk2.
      * rewrite Hch. exists r2. split; [reflexivity | congruence].
      * exists r2. split; [reflexivity | congruence].
    + exists r1. split; [reflexivity | exact Hk1].
Qed.

(** *** A stream that is read to its end *)

Lemma addTestActionOutput_paths (x : value) (r r' : run) (u : unit) :
  addTestActionOutput x r = (Some u, r') ->
  pathsOf r' = pathsOf r ++ namedReport x /\ exitCodeOf r' = exitCodeOf r.
Proof.
  unfold addTestActionOutput, namedReport, bind, orThrow.
  destruct (prop x "name") as [name|]; [|discriminate].
  destruct (isTestXml name).
  - destruct (prop x "uri") as [uri|]; [|discriminate].
    destruct uri as [| | b | z | t | l | fields]; cbn [stripFileScheme]; try discriminate.
    destruct (stripPrefix "file://" t); intros [= _ <-]; split; reflexivity.
  - intros [= _ <-]. unfold pathsOf. rewrite app_nil_r. split; reflexivity.
Qed.

Lemma forOf_paths (l : list value) :
  forall r r' u,
  forOf addTestActionOutput l r = (Some u, r') ->
  pathsOf r' = pathsOf r ++ flat_map namedReport l /\ exitCodeOf r' = exitCodeOf r.
Proof.
  induction l as [|x l IH]; intros r r' u H.
  - cbn in H. injection H as _ <-. cbn [flat_map]. rewrite app_nil_r. split; reflexivity.
  - cbn [forOf] in H. unfold bind at 1 in H.
    destruct (addTestActionOutput x r) as [[u1|] r1] eqn:Hx; [|discriminate].
    apply addTestActionOutput_paths in Hx as [Hp1 He1].
    apply IH in H as [Hp2 He2]. cbn [flat_map].
    rewrite Hp2, Hp1, He2, He1, <- app_assoc. split; reflexivity.
Qed.

(** The characters of a string name no report. *)
Lemma characters_name_no_report (t : string) :
  flat_map namedReport (characters t) = [].
Proof. induction t as [|a t IH]; [reflexivity | exact IH]. Qed.

Lemma tagged_eq (parsed id t : value) (k : string) :
  prop parsed "id" = Some id -> prop id k = Some t -> tagged parsed k = truthy t.
Proof. unfold tagged. intros -> ->. reflexivity. Qed.

(** The chain on the id, when it does not throw: the paths grow by the
    reports the record names, and the exit code stays. *)
Lemma idStatement_paths (parsed id : value) (r r' : run) (u : unit) :
  prop parsed "id" = Some id -> tagsExclusive parsed = true ->
  idStatement parsed id r = (Some u, r') ->
  pathsOf r' = pathsOf r ++ namedReports parsed /\ exitCodeOf r' = exitCodeOf r.
Proof.
  intros Hid Hex. unfold idStatement, bind, orThrow.
  destruct (prop id "workspace") as [ws|] eqn:Hws; [|discriminate].
  destruct (prop_of_id id "workspace" "started" ws Hws) as [st Hst].
  destruct (prop_of_id id "workspace" "testResult" ws Hws) as [tr Htr].
  destruct (prop_of_id id "workspace" "configuration" ws Hws) as [cf Hcf].
  unfold tagsExclusive in Hex. cbn [filter] in Hex.
  rewrite (tagged_eq _ _ _ _ Hid Hws), (tagged_eq _ _ _ _ Hid Hst),
    (tagged_eq _ _ _ _ Hid Htr), (tagged_eq _ _ _ _ Hid Hcf) in Hex.
  unfold namedReports. rewrite (tagged_eq _ _ _ _ Hid Htr).
  rewrite Hst, Htr, Hcf.
  destruct (truthy ws).
  { destruct (prop parsed "workspaceInfo") as [wi|]; [|discriminate].
    destruct (prop wi "localExecRoot"); [|discriminate].
    intros [= _ <-]. destruct (truthy tr).
    - destruct (truthy st), (truthy cf); discriminate Hex.
    - unfold pathsOf. rewrite app_nil_r. split; reflexivity. }
  destruct (truthy st).
  { destruct (prop parsed "started") as [pl|]; [|discriminate].
    destruct (prop pl "workspaceDirectory"); [|discriminate].
    intros [= _ <-]. destruct (truthy tr).
    - destruct (truthy cf); discriminate Hex.
    - unfold pathsOf. rewrite app_nil_r. split; reflexivity. }
  destruct (truthy tr).
  { destruct (prop parsed "testResult") as [pl|]; [|discriminate].
    destruct (prop pl "testActionOutput") as [outs|]; [|discriminate].
    destruct outs as [| | b | z | t | l | fields]; cbn [iterate]; try discriminate.
    - intros H. apply forOf_paths in H. rewrite characters_name_no_report in H. exact H.
    - apply forOf_paths. }
  destruct (truthy cf).
  { destruct (prop parsed "configuration") as [pl|]; [|discriminate].
    destruct (prop pl "makeVariable") as [mv|]; [|discriminate].
    destruct (prop mv "GENDIR"); [|discriminate].
    intros [= _ <-]. unfold pathsOf. rewrite app_nil_r. split; reflexivity. }
  intros [= _ <-]. unfold pathsOf. rewrite app_nil_r. split; reflexivity.
Qed.

Lemma exitCodeStatement_keeps_paths (parsed id : value) :
  keeps pathsOf (exitCodeStatement parsed id).
Proof. unfold exitCodeStatement. repeat keeps_step. Qed.

(** The statement on [buildFinished] of a record with exit code 0. *)
Lemma exitCodeStatement_code_zero (parsed id : value) (r r' : run) (u : unit) :
  prop parsed "id" = Some id -> buildFinishedWithCodeZero parsed = true ->
  exitCodeStatement parsed id r = (Some u, r') -> exitCodeOf r' = JNum 0.
Proof.
  intros Hid H. unfold buildFinishedWithCodeZero in H.
  apply andb_prop in H as [Ht H].
  apply tagged_inv in Ht as (id' & t & Hid' & Hk & Ht).
  rewrite Hid in Hid'. injection Hid' as <-.
  unfold exitCodeStatement, bind, orThrow. rewrite Hk, Ht.
  destruct (prop parsed "finished") as [fin|]; [|discriminate].
  destruct (prop fin "exitCode") as [ex|]; [|discriminate].
  destruct (prop ex "code") as [code|]; [|discriminate].
  destruct code as [| | b | z | t' | l | fields]; try discriminate.
  - intros [= _ <-]. reflexivity.
  - destruct z; try discriminate. intros [= _ <-]. reflexivity.
Qed.

Lemma collectorStatement_keeps_rest (parsed : value) :
  keeps besidesMessages (collectorStatement collectOther parsed).
Proof.
  unfold collectorStatement.
  repeat first [ apply collectStderr_keeps_rest | keeps_step ].
Qed.

(** A line on which the block does not throw. *)
Lemma handleLine_completes (line : string) (r r' : run) (u : unit) :
  handle line r = (Some u, r') ->
  exists parsed,
    JSON_parse line = Some parsed
    /\ (tagsExclusive parsed = true -> pathsOf r' = pathsOf r ++ namedReports parsed)
    /\ (buildFinishedWithCodeZero parsed = true -> exitCodeOf r' = JNum 0).
Proof.
  rewrite handleLine_statements.
  destruct (JSON_parse line) as [parsed|]; [|discriminate].
  destruct (prop parsed "id") as [id|] eqn:Hid; [|discriminate].
  unfold bind.
  destruct (exitCodeStatement parsed id r) as [[u1|] r1] eqn:H1; [|discriminate].
  pose proof (exitCodeStatement_keeps_paths parsed id r) as Hk1.
  rewrite H1 in Hk1. cbn [snd] in Hk1.
  pose proof (collectorStatement_keeps_rest parsed r1) as Hk2.
  destruct (collectorStatement collectOther parsed r1) as [[u2|] r2]; [|discriminate].
  cbn [snd] in Hk2. unfold besidesMessages in Hk2.
  injection Hk2 as _ Hp2 He2 _ _ _.
  intros H3. exists parsed. split; [reflexivity|]. split.
  - intros Hex. destruct (idStatement_paths parsed id r2 r' u Hid Hex H3) as [Hp3 _].
    rewrite Hp3. unfold pathsOf in *. congruence.
  - intros Hz.
    pose proof (exitCodeStatement_code_zero parsed id r r1 u1 Hid Hz H1) as He1.
    assert (He3 : exitCodeOf r' = exitCodeOf r2).
    { clear - H3. revert H3. unfold idStatement, bind, orThrow.
      repeat match goal with
             | |- context [match ?o with Some _ => _ | None => _ end] =>
                 destruct o; try discriminate
             | |- context [if ?b then _ else _] => destruct b
             end;
      try (intros [= _ <-]; reflexivity).
      all: intros H; apply forOf_paths in H; apply H. }
    rewrite He3. unfold exitCodeOf in *. congruence.
Qed.

(** *** The reader *)

Variable endsChunk : nat -> bool.

Let readFrom := readLinesFrom JSON_parse collectOther endsChunk.
Let read := readLines JSON_parse collectOther endsChunk.
Let process := processBuildEvents JSON_parse collectOther endsChunk.
Let every := everyLine JSON_parse collectOther.

Lemma readFrom_cons (file : string) (i : nat) (closed : bool) (l : string)
    (lines : list string) (r : run) :
  readFrom file i closed (l :: lines) r =
    match handle l r with
    | (Some _, r') =>
        if closed && endsChunk i then r' else readFrom file (S i) closed lines r'
    | (None, r') =>
        if endsChunk i then reportMalformed file r'
        else readFrom file (S i) true lines (reportMalformed file r')
    end.
Proof.
  unfold readFrom. cbn [readLinesFrom]. unfold lineListener. fold handle.
  destruct (handle l r) as [[u|] r']; reflexivity.
Qed.

Lemma channel_grows (l : list string) (d : string) : l ++ [d] <> l.
Proof.
  intros H. apply (f_equal (@List.length string)) in H.
  rewrite length_app in H. simpl in H. lia.
Qed.

(** The reader writes the diagnostic and nothing else, at most once for
    each line. *)
Lemma readFrom_channel (file : string) (lines : list string) :
  forall i closed r,
  exists n,
    channel (readFrom file i closed lines r)
    = channel r ++ repeat (malformedDiagnostic file) n
    /\ (n <= List.length lines)%nat.
Proof.
  induction lines as [|l lines IH]; intros i closed r.
  - exists 0%nat. cbn. rewrite app_nil_r. split; [reflexivity | lia].
  - rewrite readFrom_cons.
    pose proof (handleLine_keeps_channel l r) as Hk.
    destruct (handle l r) as [[u|] r'] eqn:Hl; cbn [snd] in Hk.
    + destruct (closed && endsChunk i).
      * exists 0%nat. cbn [repeat]. rewrite app_nil_r. split; [exact Hk | lia].
      * destruct (IH (S i) closed r') as (n & Hn & Hle).
        exists n. rewrite Hn, Hk. split; [reflexivity | cbn [List.length]; lia].
    + destruct (endsChunk i).
      * exists 1%nat. cbn [reportMalformed channel repeat]. rewrite Hk.
        split; [reflexivity | cbn [List.length]; lia].
      * destruct (IH (S i) true (reportMalformed file r')) as (n & Hn & Hle).
        exists (S n). rewrite Hn. cbn [reportMalformed channel repeat].
        rewrite Hk, <- app_assoc. split; [reflexivity | cbn [List.length]; lia].
Qed.

(** A reading that leaves the channel as it was: the block does not
    throw on the first line, and the reader goes on, open. *)
Lemma readFrom_without_diagnostic (file : string) (i : nat) (l : string)
    (lines : list string) (r : run) :
  channel (readFrom file i false (l :: lines) r) = channel r ->
  exists u r',
    handle l r = (Some u, r')
    /\ readFrom file i false (l :: lines) r = readFrom file (S i) false lines r'
    /\ channel r' = channel r.
Proof.
  rewrite readFrom_cons.
  pose proof (handleLine_keeps_channel l r) as Hk.
  destruct (handle l r) as [[u|] r'] eqn:Hl; cbn [snd] in Hk.
  - cbn [andb]. intros _. exists u, r'. repeat split. exact Hk.
  - intros Hc. exfalso.
    assert (Hlen : (List.length (channel r) < List.length (channel r))%nat); [|lia].
    rewrite <- Hc at 2. destruct (endsChunk i).
    + cbn [reportMalformed channel]. rewrite Hk, length_app. cbn. lia.
    + destruct (readFrom_channel file lines (S i) true (reportMalformed file r'))
        as (n & Hn & _).
      rewrite Hn. cbn [reportMalformed channel].
      rewrite Hk, !length_app. cbn. lia.
Qed.

(** A stream read without a diagnostic: every line parses and is handled,
    and the paths are those the records name, in the order of the lines. *)
Lemma readLines_without_diagnostic (file : string) (lines : list string) :
  forall i r,
  channel (readFrom file i false lines r) = channel r ->
  Forall (fun parsed => tagsExclusive parsed = true) (parsedEvents JSON_parse lines) ->
  pathsOf (readFrom file i false lines r)
  = pathsOf r ++ flat_map namedReports (parsedEvents JSON_parse lines).
Proof.
  induction lines as [|l lines IH]; intros i r Hc Hex.
  - cbn. rewrite app_nil_r. reflexivity.
  - destruct (readFrom_without_diagnostic file i l lines r Hc)
      as (u & r' & Hl & Hstep & Hk).
    rewrite Hstep in Hc |- *.
    destruct (handleLine_completes l r r' u Hl) as (parsed & Hp & Hpaths & _).
    unfold parsedEvents in Hex |- *. cbn [flat_map] in Hex |- *.
    rewrite Hp in Hex |- *.
    cbn [app] in Hex |- *. inversion Hex as [|? ? Hex1 Hex2]; subst.
    fold (parsedEvents JSON_parse lines) in Hex2 |- *.
    rewrite (IH (S i) r'); [|congruence|exact Hex2].
    rewrite (Hpaths Hex1), <- app_assoc. reflexivity.
Qed.

Lemma readLines_last_without_diagnostic (file : string) (init : list string) (last : string) :
  forall i r,
  channel (readFrom file i false (init ++ [last]) r) = channel r ->
  exists r1 r2 u,
    handle last r1 = (Some u, r2) /\ readFrom file i false (init ++ [last]) r = r2.
Proof.
  induction init as [|l init IH]; intros i r Hc.
  - cbn [app] in Hc |- *.
    destruct (readFrom_without_diagnostic file i last [] r Hc)
      as (u & r' & Hl & Hstep & _).
    exists r, r', u. split; [exact Hl | exact Hstep].
  - cbn [app] in Hc |- *.
    destruct (readFrom_without_diagnostic file i l (init ++ [last]) r Hc)
      as (u & r' & Hl & Hstep & Hk).
    rewrite Hstep in Hc |- *. apply IH. congruence.
Qed.

(** C5. A stream of build events, each with at most one of the tags of
    the chain, that is read without a diagnostic and ends in a
    build-finished record with code 0: the report paths of the outcome
    are the uris of the outputs named [test.xml] of its test-result
    records, without a leading [file://], in the order met, so there are
    as many as such outputs; and the exit code is 0. *)
Theorem C5_report_paths_in_encounter_order
    (buildEventsFile : string) (init : list string) (last : string) (finished : value) :
  JSON_parse last = Some finished ->
  buildFinishedWithCodeZero finished = true ->
  Forall (fun parsed => tagsExclusive parsed = true)
    (parsedEvents JSON_parse (init ++ [last])) ->
  diagnostics (process buildEventsFile (init ++ [last])) = [] ->
  let outcome := result (process buildEventsFile (init ++ [last])) in
  testXMLPaths outcome = flat_map namedReports (parsedEvents JSON_parse (init ++ [last]))
  /\ List.length (testXMLPaths outcome)
     = List.length (flat_map namedReports (parsedEvents JSON_parse (init ++ [last])))
  /\ exitCode outcome = JNum 0.
Proof.
  intros Hp Hz Hex Hd outcome.
  unfold process, processBuildEvents in Hd. cbn [diagnostics] in Hd.
  assert (Hc : channel (readFrom buildEventsFile 0 false (init ++ [last]) start)
               = channel start)
    by exact Hd.
  pose proof (readLines_without_diagnostic buildEventsFile (init ++ [last]) 0%nat start
                Hc Hex)
    as Hpaths.
  assert (Hout : testXMLPaths outcome
                 = flat_map namedReports (parsedEvents JSON_parse (init ++ [last])))
    by exact Hpaths.
  split; [exact Hout|]. split; [rewrite Hout; reflexivity|].
  destruct (readLines_last_without_diagnostic buildEventsFile init last 0%nat start Hc)
    as (r1 & r2 & u & Hl & Hr).
  destruct (handleLine_completes last r1 r2 u Hl) as (parsed & Hp' & _ & Hcode).
  fold handle in Hp'. rewrite Hp in Hp'. injection Hp' as <-.
  unfold outcome, process, processBuildEvents. cbn [result].
  change (readLines JSON_parse collectOther endsChunk buildEventsFile (init ++ [last])
            start)
    with (readFrom buildEventsFile 0 false (init ++ [last]) start).
  rewrite Hr. exact (Hcode Hz).
Qed.

(** *** A file that is read in one chunk *)

Lemma everyLine_cons (file l : string) (lines : list string) (r : run) :
  every file (l :: lines) r =
    every file lines
      (match handle l r with
       | (Some _, r') => r'
       | (None, r') => reportMalformed file r'
       end).
Proof.
  unfold every, everyLine. cbn [fold_left]. unfold lineListener. fold handle.
  destruct (handle l r) as [[u|] r']; reflexivity.
Qed.

Lemma everyLine_app (file : string) (l1 l2 : list string) (r : run) :
  every file (l1 ++ l2) r = every file l2 (every file l1 r).
Proof. unfold every, everyLine. apply fold_left_app. Qed.

(** With no end of a chunk before the end of the file, the listener runs
    on every line, closed or not. *)
Lemma readFrom_one_chunk (file : string) (lines : list string) :
  (forall i, endsChunk i = false) ->
  forall i closed r, readFrom file i closed lines r = every file lines r.
Proof.
  intros Hone. induction lines as [|l lines IH]; intros i closed r; [reflexivity|].
  rewrite readFrom_cons, everyLine_cons, Hone, andb_false_r.
  destruct (handle l r) as [[u|] r']; apply IH.
Qed.

Lemma process_one_chunk (file : string) (lines : list string) :
  (forall i, endsChunk i = false) ->
  process file lines
  = {| result := outputs (every file lines start);
       diagnostics := channel (every file lines start) |}.
Proof.
  intros Hone. unfold process, processBuildEvents.
  change (readLines JSON_parse collectOther endsChunk file lines start)
    with (readFrom file 0 false lines start).
  rewrite (readFrom_one_chunk file lines Hone). reflexivity.
Qed.

(** C3 (the code on a file read in one chunk).  A line that fails to
    parse does not end the reading: the diagnostic is written and the
    reader is closed, and the listener still runs on the lines after it,
    so that the outcome is that of the lines before, the diagnostic, and
    the lines after, which may change the outputs and write the
    diagnostic again. *)
Theorem C3_lines_after_a_malformed_line_are_handled
    (buildEventsFile : string) (pre : list string) (bad : string) (post : list string) :
  (forall i, endsChunk i = false) ->
  JSON_parse bad = None ->
  let before := every buildEventsFile pre start in
  let after := every buildEventsFile post (reportMalformed buildEventsFile before) in
  process buildEventsFile pre
  = {| result := outputs before; diagnostics := channel before |}
  /\ process buildEventsFile (pre ++ bad :: post)
     = {| result := outputs after; diagnostics := channel after |}.
Proof.
  intros Hone Hbad before after.
  split; [apply (process_one_chunk buildEventsFile pre Hone)|].
  rewrite (process_one_chunk buildEventsFile (pre ++ bad :: post) Hone).
  rewrite everyLine_app, everyLine_cons. fold before.
  destruct (malformed_throws bad Hbad before) as (r' & Hr' & Hout).
  assert (Hsame : r' = before).
  { rewrite handleLine_statements, Hbad in Hr'. injection Hr' as <-. reflexivity. }
  rewrite Hr', Hsame. reflexivity.
Qed.

(** C10 (the code on a file read in one chunk).  A line that parses to a
    value that is no object with an [id] field, or whose id selects a
    payload that is missing, makes the block throw as a malformed line
    does, with the outputs of the lines before when the [id] is missing,
    and their report paths, workspace directory, execution root and
    generated-file root when the payload is; the diagnostic is written
    and the reader is closed, and the listener still runs on the lines
    after it. *)
Theorem C10_lines_after_an_unusable_event_are_handled
    (buildEventsFile : string) (pre : list string) (line : string) (post : list string)
    (parsed : value) :
  (forall i, endsChunk i = false) ->
  JSON_parse line = Some parsed ->
  carriesId parsed = false \/ payloadMissing parsed = true ->
  let before := every buildEventsFile pre start in
  exists r',
    handle line before = (None, r')
    /\ payloadFields (outputs r') = payloadFields (outputs before)
    /\ (carriesId parsed = false -> outputs r' = outputs before)
    /\ process buildEventsFile (pre ++ line :: post)
       = {| result :=
              outputs (every buildEventsFile post (reportMalformed buildEventsFile r'));
            diagnostics :=
              channel (every buildEventsFile post (reportMalformed buildEventsFile r')) |}.
Proof.
  intros Hone Hp Hcase before.
  assert (Hthrow : throwsKeeping payloadFields line).
  { destruct Hcase as [Hid|Hm].
    - intros r. destruct (no_id_throws line parsed Hp Hid r) as [r' [Hr' Hg]].
      exists r'. split; [exact Hr' | rewrite Hg; reflexivity].
    - exact (payload_missing_throws line parsed Hp Hm). }
  destruct (Hthrow before) as (r' & Hr' & Hfields).
  exists r'. split; [exact Hr'|]. split; [exact Hfields|]. split.
  - intros Hid. destruct (no_id_throws line parsed Hp Hid before) as (r'' & Hr'' & Hout).
    rewrite Hr' in Hr''. injection Hr'' as <-. exact Hout.
  - rewrite (process_one_chunk buildEventsFile (pre ++ line :: post) Hone).
    rewrite everyLine_app, everyLine_cons. fold before. rewrite Hr'. reflexivity.
Qed.

End StreamFacts.

(** The sample stream: a run-started record, a test result, the end of
    the build. *)
Lemma C5_report_paths_in_encounter_order_witness :
  let outcome :=
    result (processBuildEvents sampleParse sampleCollectOther oneChunk "/tmp/build_events"
              ([startedLine; testResultLine] ++ [finishedLine])) in
  testXMLPaths outcome
  = flat_map namedReports
      (parsedEvents sampleParse ([startedLine; testResultLine] ++ [finishedLine]))
  /\ List.length (testXMLPaths outcome)
     = List.length
         (flat_map namedReports
            (parsedEvents sampleParse ([startedLine; testResultLine] ++ [finishedLine])))
  /\ exitCode outcome = JNum 0.
Proof.
  apply (C5_report_paths_in_encounter_order sampleParse sampleCollectOther oneChunk
           "/tmp/build_events" [startedLine; testResultLine] finishedLine
           (JObj [ ("id", JObj [("buildFinished", JObj [])]);
                   ("finished", JObj [("exitCode", JObj [("name", JStr "SUCCESS")])]) ])).
  - reflexivity.
  - reflexivity.
  - repeat constructor.
  - reflexivity.
Defined.

Example sample_stream_outcome :
  processBuildEvents sampleParse sampleCollectOther lineByLine "/tmp/build_events"
    [startedLine; testResultLine; finishedLine]
  = {| result :=
         {| testXMLPaths := ["/out/testlogs/src/project/go_default_test/test.xml"];
            errorMessages := [];
            exitCode := JNum 0;
            workspaceDirectory := JStr "/home/user/sample-code";
            localExecRoot := JUndefined;
            genDir := JUndefined |};
       diagnostics := [] |}.
Proof. reflexivity. Qed.

(** A stream that hands over one line for each chunk stops at the line
    that does not parse. *)
Example sample_stream_line_by_line :
  processBuildEvents sampleParse sampleCollectOther lineByLine "/tmp/build_events"
    [startedLine; truncatedLine; finishedLine]
  = {| result :=
         {| testXMLPaths := [];
            errorMessages := [];
            exitCode := FailedToParse;
            workspaceDirectory := JStr "/home/user/sample-code";
            localExecRoot := JUndefined;
            genDir := JUndefined |};
       diagnostics := [malformedDiagnostic "/tmp/build_events"] |}.
Proof. reflexivity. Qed.

(** A file of three lines, read in one chunk: a run-started record, a
    line that does not parse, the end of the build with code 0.  The
    outcome has the exit code 0 of the last line, where the first line
    alone leaves [FailedToParse]. *)
Lemma C3_lines_after_a_malformed_line_are_handled_witness :
  processBuildEvents sampleParse sampleCollectOther oneChunk "/tmp/build_events"
    ([startedLine] ++ truncatedLine :: [finishedLine])
  = {| result :=
         {| testXMLPaths := [];
            errorMessages := [];
            exitCode := JNum 0;
            workspaceDirectory := JStr "/home/user/sample-code";
            localExecRoot := JUndefined;
            genDir := JUndefined |};
       diagnostics := [malformedDiagnostic "/tmp/build_events"] |}
  /\ processBuildEvents sampleParse sampleCollectOther oneChunk "/tmp/build_events"
       [startedLine]
     = {| result :=
            {| testXMLPaths := [];
               errorMessages := [];
               exitCode := FailedToParse;
               workspaceDirectory := JStr "/home/user/sample-code";
               localExecRoot := JUndefined;
               genDir := JUndefined |};
          diagnostics := [] |}.
Proof.
  destruct (C3_lines_after_a_malformed_line_are_handled sampleParse sampleCollectOther
              oneChunk "/tmp/build_events" [startedLine] truncatedLine [finishedLine]
              (fun _ => eq_refl) eq_refl) as [Hpre Hall].
  split; [rewrite Hall | rewrite Hpre]; reflexivity.
Defined.

(** Two lines that do not parse in one chunk: the diagnostic is written
    twice. *)
Example sample_stream_two_diagnostics :
  diagnostics
    (processBuildEvents sampleParse sampleCollectOther oneChunk "/tmp/build_events"
       [startedLine; truncatedLine; truncatedLine])
  = [malformedDiagnostic "/tmp/build_events"; malformedDiagnostic "/tmp/build_events"].
Proof. reflexivity. Qed.

(** A bare number between two events, in a file read in one chunk: the
    test result and the end of the build after it are handled. *)
Lemma C10_lines_after_an_unusable_event_are_handled_witness :
  processBuildEvents sampleParse sampleCollectOther oneChunk "/tmp/build_events"
    ([startedLine] ++ numberLine :: [testResultLine; finishedLine])
  = {| result :=
         {| testXMLPaths := ["/out/testlogs/src/project/go_default_test/test.xml"];
            errorMessages := [];
            exitCode := JNum 0;
            workspaceDirectory := JStr "/home/user/sample-code";
            localExecRoot := JUndefined;
            genDir := JUndefined |};
       diagnostics := [malformedDiagnostic "/tmp/build_events"] |}.
Proof.
  destruct (C10_lines_after_an_unusable_event_are_handled sampleParse sampleCollectOther
              oneChunk "/tmp/build_events" [startedLine] numberLine
              [testResultLine; finishedLine] (JNum 5) (fun _ => eq_refl) eq_refl
              (or_introl eq_refl))
    as (r' & Hthrow & _ & _ & Hall).
  rewrite Hall. vm_compute in Hthrow. injection Hthrow as <-. reflexivity.
Defined.

End BuildEventsFacts.

Module ResolverFacts.
Import JS JSFacts Resolver.

(** *** Strings *)

Lemma findChar_bound (c : ascii) (s : string) :
  forall i k, findChar c i s = Some k -> (i <= k < i + String.length s)%nat.
Proof.
  induction s as [|a s IH]; intros i k H; simpl in H; [discriminate|].
  destruct (Ascii.eqb a c).
  - injection H as <-. simpl. lia.
  - apply IH in H. simpl. lia.
Qed.

(** [indexOf] answers [-1] or an index of the string, not before [from]. *)
Lemma indexOf_bound (s : string) (c : ascii) (from : Z) :
  indexOf s c from = (-1)%Z
  \/ (from <= indexOf s c from /\ 0 <= indexOf s c from < jsLength s)%Z.
Proof.
  unfold indexOf, jsLength.
  destruct (findChar c (Z.to_nat from) (sliceFrom (Z.to_nat from) s)) as [k|] eqn:H;
    [right | left; reflexivity].
  apply findChar_bound in H. rewrite sliceFrom_length in H. lia.
Qed.

Lemma get_bound (s : string) : forall n a, String.get n s = Some a -> (n < String.length s)%nat.
Proof.
  induction s as [|b s IH]; intros n a H; simpl in H; [discriminate|].
  destruct n as [|n]; simpl; [lia|]. apply IH in H. lia.
Qed.

(** [charAt] finds a character inside the string only. *)
Lemma charAtIs_bound (s : string) (i : Z) (c : ascii) :
  charAtIs s i c = true -> (0 <= i < jsLength s)%Z.
Proof.
  unfold charAtIs, jsLength. destruct (Z.ltb_spec i 0); [discriminate|].
  destruct (String.get (Z.to_nat i) s) as [a|] eqn:Hg; [|discriminate].
  intros _. apply get_bound in Hg. lia.
Qed.

(** After a slash at [e], the next end of a segment is later. *)
Lemma next_segmentEnd (name : string) (start e : Z) :
  (0 <= e < jsLength name)%Z ->
  (e < segmentEndOf name start (Some (indexOf name "/"%char (e + 1))) <= jsLength name)%Z.
Proof.
  intros He. unfold segmentEndOf.
  destruct (indexOf_bound name "/"%char (e + 1)) as [H|H].
  - rewrite H. cbn. lia.
  - destruct (Z.eqb_spec (indexOf name "/"%char (e + 1)) 0); [lia|].
    destruct (Z.eqb_spec (indexOf name "/"%char (e + 1)) (-1)); lia.
Qed.

(** *** The recursion of [resolveSubtest] ends *)

(** With fuel for the rest of the name, more fuel changes nothing. *)
Lemma resolveSubtestFrom_fuel (name : string) (start : Z) :
  forall fuel1 fuel2 st parent segmentEnd,
  (Z.to_nat (jsLength name - segmentEndOf name start segmentEnd) <= fuel1)%nat ->
  (Z.to_nat (jsLength name - segmentEndOf name start segmentEnd) <= fuel2)%nat ->
  resolveSubtestFrom fuel1 st parent name start segmentEnd
  = resolveSubtestFrom fuel2 st parent name start segmentEnd.
Proof.
  induction fuel1 as [|fuel1 IH]; intros fuel2 st parent segmentEnd H1 H2.
  - destruct fuel2 as [|fuel2]; [reflexivity|].
    cbn [resolveSubtestFrom].
    destruct (getOrCreateSubTest _ _ _ _ _) as [[current|] st1]; [|reflexivity].
    destruct (charAtIs name _ "/"%char) eqn:Hc; [|reflexivity].
    apply charAtIs_bound in Hc. lia.
  - destruct fuel2 as [|fuel2].
    + cbn [resolveSubtestFrom].
      destruct (getOrCreateSubTest _ _ _ _ _) as [[current|] st1]; [|reflexivity].
      destruct (charAtIs name _ "/"%char) eqn:Hc; [|reflexivity].
      apply charAtIs_bound in Hc. lia.
    + cbn [resolveSubtestFrom].
      destruct (getOrCreateSubTest _ _ _ _ _) as [[current|] st1]; [|reflexivity].
      destruct (charAtIs name _ "/"%char) eqn:Hc; [|reflexivity].
      apply charAtIs_bound in Hc.
      pose proof (next_segmentEnd name start _ Hc) as Hn.
      apply IH; lia.
Qed.

(** The fuel of [resolveSubtest] is enough: with any fuel added the
    answer is the same, so the recursion has ended before it runs out. *)
Lemma resolveSubtest_fuel_enough (st : Resolver) (parent : ref) (name : string)
    (start : Z) (extra : nat) :
  resolveSubtestFrom (String.length name + extra) st parent name start None
  = resolveSubtest st parent name start None.
Proof.
  unfold resolveSubtest.
  assert (H : (0 <= segmentEndOf name start None)%Z).
  { unfold segmentEndOf.
    destruct (indexOf_bound name "/"%char start) as [H|H].
    - rewrite H. cbn. unfold jsLength. lia.
    - destruct (Z.eqb_spec (indexOf name "/"%char start) (-1)); lia. }
  apply resolveSubtestFrom_fuel; unfold jsLength in *; lia.
Qed.

(** *** The store of the items *)

Lemma length_update {A : Type} (i : nat) (x : A) (l : list A) :
  List.length (update i x l) = List.length l.
Proof.
  revert i; induction l as [|a l IH]; intros i; [destruct i; reflexivity|].
  destruct i; simpl; [reflexivity | rewrite IH; reflexivity].
Qed.

Lemma nth_error_update_eq {A : Type} (i : nat) (x : A) (l : list A) :
  (i < List.length l)%nat -> nth_error (update i x l) i = Some x.
Proof.
  revert i; induction l as [|a l IH]; intros i H; simpl in H; [lia|].
  destruct i; simpl; [reflexivity | apply IH; lia].
Qed.

Lemma nth_error_update_ne {A : Type} (i j : nat) (x : A) (l : list A) :
  i <> j -> nth_error (update i x l) j = nth_error l j.
Proof.
  revert i j; induction l as [|a l IH]; intros i j H; [destruct i; reflexivity|].
  destruct i, j; simpl; try reflexivity; [contradiction | apply IH; lia].
Qed.

Lemma find_app_Some {A : Type} (f : A -> bool) (l e : list A) (x : A) :
  find f l = Some x -> find f (l ++ e) = Some x.
Proof.
  induction l as [|a l IH]; simpl; [discriminate|].
  destruct (f a); [tauto | exact IH].
Qed.

Lemma find_app_None {A : Type} (f : A -> bool) (l e : list A) :
  find f l = None -> find f (l ++ e) = find f e.
Proof.
  induction l as [|a l IH]; simpl; [reflexivity|].
  destruct (f a); [discriminate | exact IH].
Qed.

Lemma find_ext_in {A : Type} (f g : A -> bool) (l : list A) :
  (forall x, In x l -> f x = g x) -> find f l = find g l.
Proof.
  induction l as [|a l IH]; intros H; simpl; [reflexivity|].
  rewrite (H a (or_introl eq_refl)). destruct (g a); [reflexivity|].
  apply IH. intros x Hx. apply H. right. exact Hx.
Qed.

Lemma find_None_filter {A : Type} (f : A -> bool) (l : list A) :
  find f l = None -> filter f l = [].
Proof.
  induction l as [|a l IH]; simpl; [reflexivity|].
  destruct (f a); [discriminate | exact IH].
Qed.

Lemma extends_refl (st : Resolver) : extends st st.
Proof.
  intros item it H. exists it. split; [exact H|]. split; [reflexivity|].
  exists []. rewrite app_nil_r. reflexivity.
Qed.

Lemma extends_trans (a b c : Resolver) : extends a b -> extends b c -> extends a c.
Proof.
  intros Hab Hbc item it H.
  destruct (Hab item it H) as (it1 & H1 & Hid1 & add1 & Hc1).
  destruct (Hbc item it1 H1) as (it2 & H2 & Hid2 & add2 & Hc2).
  exists it2. split; [exact H2|]. split; [congruence|].
  exists (add1 ++ add2). rewrite Hc2, Hc1, app_assoc. reflexivity.
Qed.

Lemma itemAt_inStore (st : Resolver) (item : ref) (it : TestItem) :
  itemAt st item = Some it -> inStore st item.
Proof.
  unfold itemAt, inStore. intros H. apply nth_error_Some. congruence.
Qed.

Lemma inStore_itemAt (st : Resolver) (item : ref) :
  inStore st item -> exists it, itemAt st item = Some it.
Proof.
  unfold itemAt, inStore. intros H.
  destruct (nth_error (items st) item) as [it|] eqn:Hn; [eexists; reflexivity|].
  apply nth_error_None in Hn. lia.
Qed.

(** A name in the extended store is the name in the store. *)
Lemma extends_goesBy (st st' : Resolver) (name : string) (child : ref) :
  extends st st' -> inStore st child -> goesBy st' name child = goesBy st name child.
Proof.
  intros Hext Hin. destruct (inStore_itemAt st child Hin) as [it Hit].
  destruct (Hext child it Hit) as (it' & Hit' & Hid & _).
  unfold goesBy, nameOf. rewrite Hit, Hit', Hid. reflexivity.
Qed.

(** A child found by its name is found again after the store has grown. *)
Lemma findChild_extends (st st' : Resolver) (item : ref) (name : string) (child : ref) :
  wellFormed st -> extends st st' ->
  findChild st item name = Some child -> findChild st' item name = Some child.
Proof.
  intros Hwf Hext. unfold findChild, childrenOf.
  destruct (itemAt st item) as [it|] eqn:Hit; [|discriminate].
  destruct (Hext item it Hit) as (it' & Hit' & _ & added & Hch).
  rewrite Hit', Hch. intros Hf.
  apply find_app_Some.
  rewrite <- Hf. apply find_ext_in. intros c Hc.
  apply (extends_goesBy st st' name c Hext).
  pose proof (Hwf item it Hit) as Hall. rewrite Forall_forall in Hall. exact (Hall c Hc).
Qed.

(** *** [getOrCreateSubTest] *)

Lemma getOrCreateSubTest_not_in_store (st : Resolver) (item : ref) (l name : string)
    (dynamic : bool) :
  itemAt st item = None -> getOrCreateSubTest st item l name dynamic = (None, st).
Proof. unfold getOrCreateSubTest. intros ->. reflexivity. Qed.

(** On an item of the store it answers a child that goes by the name,
    found from then on, in a store that extends the one before. *)
Lemma getOrCreateSubTest_in_store (st : Resolver) (item : ref) (l name : string)
    (dynamic : bool) (it : TestItem) :
  wellFormed st -> itemAt st item = Some it ->
  exists child st1,
    getOrCreateSubTest st item l name dynamic = (Some child, st1)
    /\ extends st st1 /\ wellFormed st1
    /\ findChild st1 item name = Some child
    /\ inStore st1 child
    /\ (noDuplicateChild st -> noDuplicateChild st1).
Proof.
  intros Hwf Hit. unfold getOrCreateSubTest. rewrite Hit.
  destruct (findChild st item name) as [existing|] eqn:Hf.
  - exists existing, st. split; [reflexivity|]. split; [apply extends_refl|].
    split; [exact Hwf|]. split; [exact Hf|]. split; [|tauto].
    unfold findChild, childrenOf in Hf. rewrite Hit in Hf.
    apply find_some in Hf as [Hin _].
    pose proof (Hwf item it Hit) as Hall. rewrite Forall_forall in Hall.
    exact (Hall existing Hin).
  - set (sub := List.length (items st)).
    set (subItem := {| id := {| idUri := idUri (id it); idKind := idKind (id it);
                                idName := Some name |};
                       label := l; parent := Some item; children := [] |}).
    set (it' := {| id := id it; label := label it; parent := parent it;
                   children := children it ++ [sub] |}).
    set (st1 := {| items := update item it' (items st) ++ [subItem];
                   isTestSuiteFunc := isTestSuiteFunc st;
                   isDynamicSubtest :=
                     if dynamic then isDynamicSubtest st ++ [sub]
                     else isDynamicSubtest st |}).
    pose proof (itemAt_inStore st item it Hit) as Hitem. unfold inStore in Hitem.
    assert (Hlen : List.length (items st1) = S sub).
    { unfold st1. cbn [items]. rewrite length_app, length_update. simpl. lia. }
    assert (Hat_item : itemAt st1 item = Some it').
    { unfold itemAt, st1. cbn [items].
      rewrite nth_error_app1 by (rewrite length_update; exact Hitem).
      apply nth_error_update_eq. exact Hitem. }
    assert (Hat_old : forall r, r <> item -> (r < sub)%nat -> itemAt st1 r = itemAt st r).
    { intros r Hne Hr. unfold itemAt, st1. cbn [items].
      rewrite nth_error_app1 by (rewrite length_update; exact Hr).
      apply nth_error_update_ne. congruence. }
    assert (Hat_sub : itemAt st1 sub = Some subItem).
    { unfold itemAt, st1. cbn [items].
      rewrite nth_error_app2 by (rewrite length_update; unfold sub; lia).
      rewrite length_update. unfold sub. rewrite Nat.sub_diag. reflexivity. }
    assert (Hext : extends st st1).
    { intros r x Hx. destruct (Nat.eq_dec r item) as [->|Hne].
      - rewrite Hit in Hx. injection Hx as <-.
        exists it'. split; [exact Hat_item|]. split; [reflexivity|].
        exists [sub]. reflexivity.
      - exists x. rewrite (Hat_old r Hne (itemAt_inStore st r x Hx)).
        split; [exact Hx|]. split; [reflexivity|].
        exists []. rewrite app_nil_r. reflexivity. }
    assert (Hold : forall c nm, In c (children it) -> goesBy st1 nm c = goesBy st nm c).
    { intros c nm Hc. apply (extends_goesBy st st1 nm c Hext).
      pose proof (Hwf item it Hit) as Hall. rewrite Forall_forall in Hall.
      exact (Hall c Hc). }
    assert (Hsub_name : forall nm, goesBy st1 nm sub = String.eqb name nm).
    { intros nm. unfold goesBy, nameOf. rewrite Hat_sub. reflexivity. }
    exists sub, st1. split; [reflexivity|]. split; [exact Hext|].
    split; [|split; [|split]].
    + (* well formed *)
      intros r x Hx. apply Forall_forall. intros c Hc. unfold inStore. rewrite Hlen.
      pose proof (itemAt_inStore st1 r x Hx) as Hr. unfold inStore in Hr.
      rewrite Hlen in Hr.
      destruct (Nat.eq_dec r item) as [->|Hne].
      * rewrite Hat_item in Hx. injection Hx as <-. unfold it' in Hc.
        cbn [children] in Hc. apply in_app_or in Hc. destruct Hc as [Hc|[<-|[]]]; [|lia].
        pose proof (Hwf item it Hit) as Hall. rewrite Forall_forall in Hall.
        specialize (Hall c Hc). unfold inStore in Hall. fold sub in Hall. lia.
      * destruct (Nat.eq_dec r sub) as [->|Hns].
        -- rewrite Hat_sub in Hx. injection Hx as <-. destruct Hc.
        -- rewrite (Hat_old r Hne) in Hx by lia.
           pose proof (Hwf r x Hx) as Hall. rewrite Forall_forall in Hall.
           specialize (Hall c Hc). unfold inStore in Hall. fold sub in Hall. lia.
    + (* the new child is found *)
      unfold findChild, childrenOf. rewrite Hat_item. unfold it'. cbn [children].
      fold (goesBy st1 name).
      rewrite find_app_None.
      * cbn [find]. rewrite Hsub_name, String.eqb_refl. reflexivity.
      * rewrite <- Hf. unfold findChild, childrenOf. rewrite Hit.
        fold (goesBy st name). apply find_ext_in. intros c Hc. apply Hold. exact Hc.
    + unfold inStore. rewrite Hlen. lia.
    + (* no duplicate child *)
      intros Hnd r x nm Hx.
      pose proof (itemAt_inStore st1 r x Hx) as Hr. unfold inStore in Hr.
      rewrite Hlen in Hr.
      destruct (Nat.eq_dec r item) as [->|Hne].
      * rewrite Hat_item in Hx. injection Hx as <-. unfold it'. cbn [children].
        rewrite filter_app, length_app. cbn [filter]. rewrite Hsub_name.
        rewrite (filter_ext_in (goesBy st1 nm) (goesBy st nm))
          by (intros c Hc; apply Hold; exact Hc).
        destruct (String.eqb_spec name nm) as [->|Hnm].
        -- assert (Hnone : filter (goesBy st nm) (children it) = []).
           { apply find_None_filter. unfold findChild, childrenOf in Hf.
             rewrite Hit in Hf. exact Hf. }
           rewrite Hnone. simpl. lia.
        -- pose proof (Hnd item it nm Hit). simpl. lia.
      * destruct (Nat.eq_dec r sub) as [->|Hns].
        -- rewrite Hat_sub in Hx. injection Hx as <-. simpl. lia.
        -- rewrite (Hat_old r Hne) in Hx by lia.
           rewrite (filter_ext_in (goesBy st1 nm) (goesBy st nm)).
           ++ exact (Hnd r x nm Hx).
           ++ intros c Hc. apply (extends_goesBy st st1 nm c Hext).
              pose proof (Hwf r x Hx) as Hall. rewrite Forall_forall in Hall.
              exact (Hall c Hc).
Qed.

(** *** [resolveSubtest] *)

Section Subtests.

Variable name : string.
Variable start : Z.

(** The store after a resolution extends the one before. *)
Lemma resolveSubtestFrom_grows :
  forall fuel st parent segmentEnd r st',
  wellFormed st ->
  resolveSubtestFrom fuel st parent name start segmentEnd = (r, st') ->
  extends st st' /\ wellFormed st' /\ (noDuplicateChild st -> noDuplicateChild st').
Proof.
  induction fuel as [|fuel IH]; intros st parent segmentEnd r st' Hwf;
    cbn [resolveSubtestFrom];
    set (e := segmentEndOf name start segmentEnd);
    (destruct (itemAt st parent) as [it|] eqn:Hit;
     [ destruct (getOrCreateSubTest_in_store st parent (substring0 name e)
                   (substring0 name e) true it Hwf Hit)
         as (child & st1 & Hg & Hext & Hwf1 & _ & _ & Hnd);
       rewrite Hg
     | rewrite (getOrCreateSubTest_not_in_store st parent _ _ true Hit);
       intros [= _ <-]; split; [apply extends_refl | split; [exact Hwf | tauto]] ]).
  - destruct (charAtIs name e "/"%char); intros [= _ <-];
      (split; [exact Hext | split; [exact Hwf1 | exact Hnd]]).
  - destruct (charAtIs name e "/"%char).
    + intros Hrec. destruct (IH _ _ _ _ _ Hwf1 Hrec) as (Hext2 & Hwf2 & Hnd2).
      split; [exact (extends_trans _ _ _ Hext Hext2)|]. split; [exact Hwf2 | tauto].
    + intros [= _ <-]. split; [exact Hext | split; [exact Hwf1 | exact Hnd]].
Qed.

(** Resolving again, in the store the first resolution left, answers the
    same and leaves the store as it is. *)
Lemma resolveSubtestFrom_again :
  forall fuel st parent segmentEnd r st',
  wellFormed st ->
  resolveSubtestFrom fuel st parent name start segmentEnd = (r, st') ->
  resolveSubtestFrom fuel st' parent name start segmentEnd = (r, st').
Proof.
  induction fuel as [|fuel IH]; intros st parent segmentEnd r st' Hwf;
    cbn [resolveSubtestFrom];
    set (e := segmentEndOf name start segmentEnd);
    (destruct (itemAt st parent) as [it|] eqn:Hit;
     [ destruct (getOrCreateSubTest_in_store st parent (substring0 name e)
                   (substring0 name e) true it Hwf Hit)
         as (child & st1 & Hg & Hext & Hwf1 & Hfind & _ & _);
       rewrite Hg
     | rewrite (getOrCreateSubTest_not_in_store st parent _ _ true Hit);
       intros [= <- <-];
       rewrite (getOrCreateSubTest_not_in_store st parent _ _ true Hit);
       reflexivity ]).
  - (* no fuel: the answer is read off the store after the first call *)
    assert (Hg1 : getOrCreateSubTest st1 parent (substring0 name e) (substring0 name e) true
                  = (Some child, st1)).
    { unfold getOrCreateSubTest. destruct (Hext parent it Hit) as (it1 & Hit1 & _).
      rewrite Hit1, Hfind. reflexivity. }
    destruct (charAtIs name e "/"%char); intros [= <- <-]; rewrite Hg1; reflexivity.
  - destruct (charAtIs name e "/"%char) eqn:Hc.
    + intros Hrec.
      destruct (resolveSubtestFrom_grows _ _ _ _ _ _ Hwf1 Hrec) as (Hext2 & _ & _).
      assert (Hg2 : getOrCreateSubTest st' parent (substring0 name e) (substring0 name e)
                      true = (Some child, st')).
      { unfold getOrCreateSubTest.
        destruct (extends_trans _ _ _ Hext Hext2 parent it Hit) as (it2 & Hit2 & _).
        rewrite Hit2, (findChild_extends st1 st' parent _ child Hwf1 Hext2 Hfind).
        reflexivity. }
      rewrite Hg2. exact (IH _ _ _ _ _ Hwf1 Hrec).
    + intros [= <- <-].
      assert (Hg1 : getOrCreateSubTest st1 parent (substring0 name e) (substring0 name e)
                      true = (Some child, st1)).
      { unfold getOrCreateSubTest. destruct (Hext parent it Hit) as (it1 & Hit1 & _).
        rewrite Hit1, Hfind. reflexivity. }
      rewrite Hg1. reflexivity.
Qed.

(** On a parent of the store, with fuel for the rest of the name, the
    resolution answers a node. *)
Lemma resolveSubtestFrom_answers :
  forall fuel st parent segmentEnd,
  wellFormed st -> inStore st parent ->
  (Z.to_nat (jsLength name - segmentEndOf name start segmentEnd) <= fuel)%nat ->
  exists node st',
    resolveSubtestFrom fuel st parent name start segmentEnd = (Some node, st')
    /\ inStore st' node.
Proof.
  induction fuel as [|fuel IH]; intros st parent segmentEnd Hwf Hin Hfuel;
    cbn [resolveSubtestFrom];
    set (e := segmentEndOf name start segmentEnd) in *;
    destruct (inStore_itemAt st parent Hin) as [it Hit];
    destruct (getOrCreateSubTest_in_store st parent (substring0 name e)
                (substring0 name e) true it Hwf Hit)
      as (child & st1 & Hg & Hext & Hwf1 & _ & Hchild & _);
    rewrite Hg;
    destruct (charAtIs name e "/"%char) eqn:Hc;
    try (exists child, st1; split; [reflexivity | exact Hchild]).
  - apply charAtIs_bound in Hc. lia.
  - apply charAtIs_bound in Hc.
    pose proof (next_segmentEnd name start e Hc) as Hn.
    apply IH; [exact Hwf1 | exact Hchild | lia].
Qed.

End Subtests.

(** C6. On a parent test case of a well-formed store, the resolution of
    a subtest path answers a node; resolving the same path again answers
    the same node, with the same id, and leaves the store as it is, so no
    node is created twice; the nodes of the store keep their ids, and no
    item gets two children that go by the same name. *)
Theorem C6_subtest_resolution_is_idempotent
    (st : Resolver) (parent : ref) (name : string) (start : Z) :
  wellFormed st -> inStore st parent ->
  exists node st',
    resolveSubtest st parent name start None = (Some node, st')
    /\ resolveSubtest st' parent name start None = (Some node, st')
    /\ inStore st' node
    /\ extends st st'
    /\ (noDuplicateChild st -> noDuplicateChild st').
Proof.
  intros Hwf Hin. unfold resolveSubtest.
  assert (Hfuel : (Z.to_nat (jsLength name - segmentEndOf name start None)
                   <= String.length name)%nat).
  { assert (H : (0 <= segmentEndOf name start None)%Z).
    { unfold segmentEndOf.
      destruct (indexOf_bound name "/"%char start) as [H|H].
      - rewrite H. cbn. unfold jsLength. lia.
      - destruct (Z.eqb_spec (indexOf name "/"%char start) (-1)); lia. }
    unfold jsLength in *. lia. }
  destruct (resolveSubtestFrom_answers name start (String.length name) st parent None
              Hwf Hin Hfuel) as (node & st' & Hres & Hnode).
  exists node, st'. split; [exact Hres|].
  split; [exact (resolveSubtestFrom_again name start _ _ _ _ _ _ Hwf Hres)|].
  split; [exact Hnode|].
  destruct (resolveSubtestFrom_grows name start _ _ _ _ _ _ Hwf Hres) as (Hext & _ & Hnd).
  split; [exact Hext | exact Hnd].
Qed.

Lemma sampleTree_wellFormed : wellFormed sampleTree.
Proof.
  intros item it H. unfold itemAt in H.
  destruct item as [|[|[|item]]]; cbn in H;
    try (injection H as <-; repeat constructor; unfold inStore; cbn; lia).
  destruct item; discriminate H.
Qed.

(** The subtest [SubTest1/Inner] of the method [TestCase1] of the sample
    suite, resolved twice. *)
Lemma C6_subtest_resolution_is_idempotent_witness :
  exists node st',
    resolveSubtest sampleTree 1%nat "MyTestSuite/TestCase1/SubTest1/Inner" 22 None
      = (Some node, st')
    /\ resolveSubtest st' 1%nat "MyTestSuite/TestCase1/SubTest1/Inner" 22 None
       = (Some node, st')
    /\ inStore st' node
    /\ extends sampleTree st'
    /\ (noDuplicateChild sampleTree -> noDuplicateChild st').
Proof.
  apply (C6_subtest_resolution_is_idempotent sampleTree 1%nat
           "MyTestSuite/TestCase1/SubTest1/Inner" 22).
  - exact sampleTree_wellFormed.
  - unfold inStore. cbn. lia.
Defined.

Example resolveSubtest_sample :
  fst (resolveSubtest sampleTree 1%nat "MyTestSuite/TestCase1/SubTest1/Inner" 22 None)
    = Some 4%nat
  /\ map (fun it => (idName (id it), children it))
       (items (snd (resolveSubtest sampleTree 1%nat
                      "MyTestSuite/TestCase1/SubTest1/Inner" 22 None)))
     = [ (Some "MyTestSuite", [1; 2]%nat);
         (Some "(*mySuiteType).TestCase1", [3]%nat);
         (Some "(*mySuiteType).TestCase2", []);
         (Some "MyTestSuite/TestCase1/SubTest1", [4]%nat);
         (Some "MyTestSuite/TestCase1/SubTest1/Inner", []) ].
Proof. split; reflexivity. Qed.

(** *** [resolveTestName] and [formatTestCaseForFilter] *)

Lemma append_not_empty (a b : string) : String.eqb (a +++ "/" +++ b) EmptyString = false.
Proof. destruct a; reflexivity. Qed.

Lemma append_cancel (a b c : string) : a +++ b = a +++ c -> b = c.
Proof.
  induction a as [|x a IH]; simpl; [tauto|]. intros [= H]. exact (IH H).
Qed.

Lemma isPrefixOf_append_cancel (a b c : string) :
  isPrefixOf (a +++ b) (a +++ c) = isPrefixOf b c.
Proof.
  induction a as [|x a IH]; cbn [String.append isPrefixOf]; [reflexivity|].
  rewrite Ascii.eqb_refl. exact IH.
Qed.

Lemma isPrefixOf_slash_contains (m s : string) :
  isPrefixOf (m +++ "/") s = true -> containsSlash s = true.
Proof.
  revert s. induction m as [|x m IH]; intros s; destruct s as [|y s];
    cbn [String.append isPrefixOf containsSlash]; try discriminate.
  - rewrite (Ascii.eqb_sym "/"%char y). destruct (Ascii.eqb y "/"%char);
      [reflexivity | discriminate].
  - intros H. apply andb_prop in H as [_ H]. rewrite (IH s H). apply orb_true_r.
Qed.

Section RunnerFacts.

Variable extractInstanceTestName : string -> string.
Variable superResolveTestName :
  Resolver -> list (string * ref) -> string -> option ref * Resolver.

Let resolve := resolveTestName extractInstanceTestName superResolveTestName.
Let format := formatTestCaseForFilter extractInstanceTestName.
Let methodNameOf := Resolver.methodNameOf extractInstanceTestName.

(** The pass over the children of a suite keyed [key], for the name of
    its method [method]: the child that stands for the method is the
    answer when no other child stands for it. *)
Lemma matchChild_fold (st : Resolver) (key method : string) (child : ref)
    (l : list ref) :
  containsSlash method = false ->
  methodNameOf st child = method ->
  (forall c, In c l -> c <> child -> methodNameOf st c <> method) ->
  forall acc,
  acc = (None, st) \/ acc = (Some child, st) ->
  fold_left (matchChild extractInstanceTestName key (key +++ "/" +++ method)) l acc
  = if in_dec Nat.eq_dec child l then (Some child, st) else acc.
Proof.
  intros Hslash Hchild. induction l as [|c l IH]; intros Hother acc Hacc.
  - reflexivity.
  - cbn [fold_left].
    assert (Hstep : matchChild extractInstanceTestName key (key +++ "/" +++ method) acc c
                    = if Nat.eq_dec c child then (Some child, st) else acc).
    { unfold matchChild.
      assert (Hst : snd acc = st) by (destruct Hacc as [->| ->]; reflexivity).
      destruct acc as [m st0]. cbn [snd] in Hst. subst st0.
      fold methodNameOf.
      destruct (Nat.eq_dec c child) as [->|Hne].
      - rewrite Hchild, String.eqb_refl. reflexivity.
      - pose proof (Hother c (or_introl eq_refl) Hne) as Hm.
        destruct (String.eqb_spec (key +++ "/" +++ method)
                    (key +++ "/" +++ methodNameOf st c)) as [He|_].
        + exfalso. apply Hm. apply append_cancel in He.
          apply (append_cancel "/") in He. symmetry. exact He.
        + unfold startsWith.
          replace ((key +++ "/" +++ methodNameOf st c) +++ "/")
            with (key +++ "/" +++ (methodNameOf st c +++ "/")).
          * rewrite !isPrefixOf_append_cancel.
            destruct (isPrefixOf (methodNameOf st c +++ "/") method) eqn:Hp;
              [|reflexivity].
            apply isPrefixOf_slash_contains in Hp. congruence.
          * clear. induction key as [|x key IHk]; simpl.
            -- reflexivity.
            -- f_equal. exact IHk. }
    rewrite Hstep.
    assert (Hother' : forall c0, In c0 l -> c0 <> child -> methodNameOf st c0 <> method).
    { intros c0 Hc0. apply Hother. right. exact Hc0. }
    destruct (Nat.eq_dec c child) as [->|Hne].
    + rewrite (IH Hother' _ (or_intror eq_refl)).
      destruct (in_dec Nat.eq_dec child l);
        destruct (in_dec Nat.eq_dec child (child :: l)) as [_|Hn]; try reflexivity;
        exfalso; apply Hn; left; reflexivity.
    + rewrite (IH Hother' _ Hacc).
      destruct (in_dec Nat.eq_dec child l) as [Hi|Hn];
        destruct (in_dec Nat.eq_dec child (c :: l)) as [Hi'|Hn']; try reflexivity.
      * exfalso. apply Hn'. right. exact Hi.
      * exfalso. destruct Hi' as [He|Hi']; [congruence | exact (Hn Hi')].
Qed.

(** The pass over the children of a suite, for a name that is apart
    from the names of all of them: no child is matched and the resolver
    is as it was. *)
Lemma matchChild_fold_apart (st : Resolver) (key name : string) (l : list ref) :
  forallb (apartFrom name) (map (fun c => key +++ "/" +++ methodNameOf st c) l) = true ->
  fold_left (matchChild extractInstanceTestName key name) l (None, st) = (None, st).
Proof.
  induction l as [|c l IH]; intros H; [reflexivity|].
  cbn [map forallb] in H. apply andb_prop in H as [Hc Hl].
  unfold apartFrom in Hc. apply andb_prop in Hc as [He Hs].
  apply negb_true_iff in He. apply negb_true_iff in Hs.
  cbn [fold_left]. unfold matchChild at 2. fold methodNameOf.
  rewrite He, Hs. exact (IH Hl).
Qed.

(** The loop over the keys goes by the entries that the name passes by,
    whatever their number, with the resolver as it was. *)
Lemma resolveInTests_passes (st : Resolver) (allTests before remaining : list (string * ref))
    (name : string) :
  Forall (fun e => passesBy extractInstanceTestName st name e = true) before ->
  resolveInTests extractInstanceTestName superResolveTestName st allTests
    (before ++ remaining) name
  = resolveInTests extractInstanceTestName superResolveTestName st allTests remaining name.
Proof.
  induction 1 as [|[key item] before He _ IH]; [reflexivity|].
  cbn [app resolveInTests]. unfold passesBy, namesOf in He. cbn [fst snd] in He.
  rewrite forallb_app in He. apply andb_prop in He as [Hmethod Hsuite].
  assert (Hasm : match parentOf st item with
                 | Some parent =>
                     if has (isTestSuiteFunc st) parent
                        && negb (String.eqb (extractInstanceTestName key) EmptyString)
                     then
                       let suiteName := display (nameOf st parent) in
                       let full := suiteName +++ "/" +++ extractInstanceTestName key in
                       if String.eqb name full then Some (Some item, st)
                       else if startsWith name (full +++ "/") then
                         Some (resolveSubtest st item name (jsLength (full +++ "/")) None)
                       else None
                     else None
                 | None => None
                 end = None).
  { destruct (parentOf st item) as [p|]; [|reflexivity].
    destruct (has (isTestSuiteFunc st) p
              && negb (String.eqb (extractInstanceTestName key) EmptyString));
      [|reflexivity].
    cbn [forallb] in Hmethod. rewrite andb_true_r in Hmethod.
    unfold apartFrom in Hmethod. apply andb_prop in Hmethod as [He Hs].
    apply negb_true_iff in He. apply negb_true_iff in Hs.
    cbv zeta. rewrite He, Hs. reflexivity. }
  cbv zeta in Hasm |- *. rewrite Hasm.
  destruct (has (isTestSuiteFunc st) item); [|exact IH].
  rewrite (matchChild_fold_apart st key name (childrenOf st item) Hsuite).
  exact IH.
Qed.

(** C1. For a suite named [suiteName] with a method whose identifier
    [identifier] stands for [method], and a dictionary whose entries
    before the one looked at are passed by, however many they are: the
    flat name [suiteName/method] resolves to the item of the method when
    the dictionary has the method, and when it has the suite and no
    other child of the suite stands for the method; the filter name of
    the item is [suiteName/method]; and for an item whose parent is not
    a known suite the filter name is the name given. *)
Theorem C1_suite_method_resolves_and_formats
    (st : Resolver) (suiteName method identifier : string) (child suite : ref)
    (before rest : list (string * ref)) :
  extractInstanceTestName identifier = method ->
  method <> EmptyString ->
  parentOf st child = Some suite ->
  has (isTestSuiteFunc st) suite = true ->
  nameOf st suite = Some suiteName ->
  Forall (fun e => passesBy extractInstanceTestName st (suiteName +++ "/" +++ method) e
                   = true) before ->
  resolve st (before ++ (identifier, child) :: rest) (suiteName +++ "/" +++ method)
  = (Some child, st)
  /\ format st identifier (Some child) = suiteName +++ "/" +++ method
  /\ (extractInstanceTestName suiteName = EmptyString ->
      containsSlash method = false ->
      nameOf st child = Some identifier ->
      In child (childrenOf st suite) ->
      (forall c, In c (childrenOf st suite) -> c <> child -> methodNameOf st c <> method) ->
      resolve st (before ++ (suiteName, suite) :: rest) (suiteName +++ "/" +++ method)
      = (Some child, st))
  /\ (forall (testFunctionName : string) (item : ref),
        (forall p, parentOf st item = Some p -> has (isTestSuiteFunc st) p = false) ->
        format st testFunctionName (Some item) = testFunctionName).
Proof.
  intros Hex Hm Hparent Hsuite Hname Hbefore.
  assert (Hne : negb (String.eqb method EmptyString) = true).
  { destruct (String.eqb_spec method EmptyString); [contradiction | reflexivity]. }
  split; [|split; [|split]].
  - unfold resolve, resolveTestName. rewrite append_not_empty.
    rewrite (resolveInTests_passes st _ before _ _ Hbefore).
    cbn [resolveInTests]. rewrite Hparent, Hsuite, Hex, Hne, Hname.
    cbn [andb display]. rewrite String.eqb_refl. reflexivity.
  - unfold format, formatTestCaseForFilter.
    rewrite Hparent, Hsuite, Hex, Hne, Hname. reflexivity.
  - intros Hkey Hslash Hid Hin Huniq.
    unfold resolve, resolveTestName. rewrite append_not_empty.
    rewrite (resolveInTests_passes st _ before _ _ Hbefore).
    cbn [resolveInTests]. rewrite Hkey, Hsuite.
    assert (Hasm : match parentOf st suite with
                   | Some parent =>
                       if has (isTestSuiteFunc st) parent
                          && negb (String.eqb EmptyString EmptyString)
                       then
                         if String.eqb (suiteName +++ "/" +++ method)
                              (display (nameOf st parent) +++ "/" +++ EmptyString)
                         then Some (Some suite, st)
                         else if startsWith (suiteName +++ "/" +++ method)
                                   ((display (nameOf st parent) +++ "/" +++ EmptyString)
                                      +++ "/")
                         then Some (resolveSubtest st suite (suiteName +++ "/" +++ method)
                                      (jsLength ((display (nameOf st parent) +++ "/"
                                                    +++ EmptyString) +++ "/")) None)
                         else None
                       else None
                   | None => None
                   end = None).
    { destruct (parentOf st suite) as [p|]; [|reflexivity].
      rewrite andb_false_r. reflexivity. }
    rewrite Hasm.
    assert (Hchild : methodNameOf st child = method).
    { unfold methodNameOf, Resolver.methodNameOf. rewrite Hid. exact Hex. }
    rewrite (matchChild_fold st suiteName method child (childrenOf st suite)
               Hslash Hchild Huniq (None, st) (or_introl eq_refl)).
    destruct (in_dec Nat.eq_dec child (childrenOf st suite)) as [_|Hn];
      [reflexivity | contradiction].
  - intros testFunctionName item Hp. unfold format, formatTestCaseForFilter.
    destruct (parentOf st item) as [p|]; [|reflexivity].
    rewrite (Hp p eq_refl). reflexivity.
Qed.

End RunnerFacts.

(** The suite [MyTestSuite] of the unit tests and its method
    [TestCase1], in a dictionary that has the method [TestCase2] first,
    then the method [TestCase1] or the suite. *)
Lemma C1_suite_method_resolves_and_formats_witness :
  resolveTestName extractMethodName lookupFlatName sampleTree
    [("(*mySuiteType).TestCase2", 2%nat); ("(*mySuiteType).TestCase1", 1%nat)]
    "MyTestSuite/TestCase1"
  = (Some 1%nat, sampleTree)
  /\ formatTestCaseForFilter extractMethodName sampleTree "(*mySuiteType).TestCase1"
       (Some 1%nat)
     = "MyTestSuite/TestCase1"
  /\ resolveTestName extractMethodName lookupFlatName sampleTree
       [("(*mySuiteType).TestCase2", 2%nat); ("MyTestSuite", 0%nat)]
       "MyTestSuite/TestCase1"
     = (Some 1%nat, sampleTree).
Proof.
  destruct (C1_suite_method_resolves_and_formats extractMethodName lookupFlatName
              sampleTree "MyTestSuite" "TestCase1" "(*mySuiteType).TestCase1"
              1%nat 0%nat [("(*mySuiteType).TestCase2", 2%nat)] [] eq_refl)
    as (Hres & Hfmt & Hsuite & _).
  - discriminate.
  - reflexivity.
  - reflexivity.
  - reflexivity.
  - repeat constructor.
  - split; [exact Hres|]. split; [exact Hfmt|].
    apply Hsuite.
    + reflexivity.
    + reflexivity.
    + reflexivity.
    + left. reflexivity.
    + intros c [<-|[<-|[]]] Hc; [contradiction | discriminate].
Defined.

(** The run started on the suite, and the filter name of the suite
    itself, as in the unit tests. *)
Example resolve_from_the_suite :
  resolveTestName extractMethodName lookupFlatName sampleTree
    [("MyTestSuite", 0%nat)] "MyTestSuite/TestCase1"
  = (Some 1%nat, sampleTree)
  /\ formatTestCaseForFilter extractMethodName sampleTree "(*mySuiteType).TestCase2"
       (Some 2%nat)
     = "MyTestSuite/TestCase2"
  /\ formatTestCaseForFilter extractMethodName sampleTree "MyTestSuite" (Some 0%nat)
     = "MyTestSuite".
Proof. repeat split; reflexivity. Qed.

End ResolverFacts.

(** ** Further properties of the error-message collector *)
Module CollectorGrowth.
Import JS JSFacts Collector CollectorFacts.

(** One call adds at most one message, and a message it adds is not
    empty and is the text of the call from some index on. *)
Lemma update_adds_at_most_one (msg : option string) (c : state) :
  exists added,
    output (updateErrorMessages msg c) = output c ++ added
    /\ (List.length added <= 1)%nat
    /\ Forall (fun a => a <> EmptyString
                        /\ exists m k, msg = Some m /\ a = sliceFrom k m) added.
Proof.
  destruct msg as [m|]; [|exists []; rewrite app_nil_r; repeat split; auto].
  destruct (regErrorExec m) as [k|] eqn:Hk.
  - rewrite (update_error_line c m k Hk). exists [sliceFrom k m].
    split; [reflexivity|]. split; [simpl; lia|].
    constructor; [|constructor]. split.
    + pose proof (regErrorExec_bound m k Hk) as Hb.
      intros He. apply (f_equal String.length) in He.
      rewrite sliceFrom_length in He. simpl in He. lia.
    + exists m, k. split; reflexivity.
  - destruct m as [|a m']; [exists []; rewrite app_nil_r; repeat split; auto|].
    unfold updateErrorMessages. rewrite Hk. cbn [String.length Nat.ltb Nat.leb].
    destruct (sawError c && negb (regNonErrorLogTest (String a m'))
              && negb (regProgressTest (String a m'))).
    + exists [String a m']. split; [reflexivity|]. split; [simpl; lia|].
      constructor; [|constructor]. split; [discriminate|].
      exists (String a m'), 0%nat. split; reflexivity.
    + exists []. cbn [output]. rewrite app_nil_r. repeat split; auto.
Qed.

(** X1. The message list only grows: after any sequence of calls it is
    the list before followed by at most one message for each call, none
    of them empty, each the text of one of the calls from some index on. *)
Theorem X1_collector_only_appends (msgs : list (option string)) (c : state) :
  exists added,
    output (feed msgs c) = output c ++ added
    /\ (List.length added <= List.length msgs)%nat
    /\ Forall (fun a => a <> EmptyString
                        /\ exists m k, In (Some m) msgs /\ a = sliceFrom k m) added.
Proof.
  revert c. induction msgs as [|msg msgs IH]; intros c.
  - exists []. cbn. rewrite app_nil_r. repeat split; auto.
  - rewrite feed_cons.
    destruct (update_adds_at_most_one msg c) as (a1 & H1 & L1 & F1).
    destruct (IH (updateErrorMessages msg c)) as (a2 & H2 & L2 & F2).
    exists (a1 ++ a2). split; [rewrite H2, H1, app_assoc; reflexivity|].
    split; [rewrite length_app; simpl; lia|].
    apply Forall_app. split.
    + eapply Forall_impl; [|exact F1]. intros a [Ha (m & k & Hm & Hs)].
      split; [exact Ha|]. exists m, k. split; [left; exact Hm | exact Hs].
    + eapply Forall_impl; [|exact F2]. intros a [Ha (m & k & Hm & Hs)].
      split; [exact Ha|]. exists m, k. split; [right; exact Hm | exact Hs].
Qed.

(** X2. A message with a log-level prefix or a progress counter and no
    error introduction is not collected, whatever the flag, and it ends
    the error before it: the continuation lines that follow it are not
    collected either. *)
Theorem X2_log_line_ends_the_error (c : state) (noise : string) (ls : list string) :
  regErrorExec noise = None ->
  regNonErrorLogTest noise || regProgressTest noise = true ->
  Forall (fun l => isContinuationLine l = true) ls ->
  feed (Some noise :: map Some ls) c = {| sawError := false; output := output c |}.
Proof.
  intros He Hn Hls. rewrite feed_cons.
  assert (Hu : updateErrorMessages (Some noise) c
               = {| sawError := false; output := output c |}).
  { destruct noise as [|a m']; [discriminate Hn|].
    unfold updateErrorMessages. rewrite He. cbn [String.length Nat.ltb Nat.leb].
    destruct (regNonErrorLogTest (String a m')), (regProgressTest (String a m'));
      try discriminate Hn; cbn [negb andb]; rewrite ?andb_false_r; reflexivity. }
  rewrite Hu.
  apply (feed_continuations_flag_down ls {| sawError := false; output := output c |}
           eq_refl Hls).
Qed.

Lemma X2_log_line_ends_the_error_witness :
  feed (Some "INFO: Elapsed time: 0.227s" :: map Some ["detail one"])
    {| sawError := true; output := ["ERROR: boom"] |}
  = {| sawError := false; output := ["ERROR: boom"] |}.
Proof.
  apply (X2_log_line_ends_the_error {| sawError := true; output := ["ERROR: boom"] |}
           "INFO: Elapsed time: 0.227s" ["detail one"]).
  - reflexivity.
  - reflexivity.
  - repeat constructor.
Defined.

End CollectorGrowth.

(** ** Further properties of the Bazel arguments *)
Module BazelArgsMore.
Import JS BazelArgs BazelArgsViews BazelArgsFacts.

(** X3. Escaping loses nothing: two names with the same escaped text are
    the same name, so distinct test names never share a filter pattern
    before the slash is anchored. *)
Theorem X3_escaping_is_injective (s t : string) :
  escapeSpecialCharacters s = escapeSpecialCharacters t -> s = t.
Proof.
  revert t. induction s as [|a s IH]; intros [|b t] H.
  - reflexivity.
  - cbn [escapeSpecialCharacters] in H.
    destruct (isSpecialCharacter b); discriminate H.
  - cbn [escapeSpecialCharacters] in H.
    destruct (isSpecialCharacter a); discriminate H.
  - cbn [escapeSpecialCharacters] in H.
    destruct (isSpecialCharacter a) eqn:Ha, (isSpecialCharacter b) eqn:Hb.
    + injection H as <- H. rewrite (IH t H). reflexivity.
    + injection H as <- H. discriminate Hb.
    + injection H as -> H. discriminate Ha.
    + injection H as <- H. rewrite (IH t H). reflexivity.
Qed.

Lemma X3_escaping_is_injective_witness :
  "Test.A" = "Test.A".
Proof.
  apply (X3_escaping_is_injective "Test.A" "Test.A"). reflexivity.
Defined.

(** X4. When no requested name has more than one slash, the patterns the
    filter is built from are the escaped names with every slash turned
    into the anchoring [$/^]. *)
Theorem X4_one_level_subtests_fully_anchored (fs : list string) :
  Forall (fun f => (countSlashes f <= 1)%nat) fs ->
  map filterFunction fs = map filterFunctionAsSpecified fs.
Proof.
  induction 1 as [|f fs Hf _ IH]; [reflexivity|].
  cbn [map]. rewrite IH, (filterFunction_one_slash f Hf). reflexivity.
Qed.

Lemma X4_one_level_subtests_fully_anchored_witness :
  map filterFunction ["TestA/sub.1"; "TestB"]
  = map filterFunctionAsSpecified ["TestA/sub.1"; "TestB"].
Proof.
  apply (X4_one_level_subtests_fully_anchored ["TestA/sub.1"; "TestB"]).
  repeat constructor.
Defined.

(** X5. The test filter needs exactly one target: with none or with
    several, the requested functions are ignored and the arguments are
    those of a run of every function. *)
Theorem X5_filter_needs_a_single_target (c : TestConfig) (targets : list string)
    (file : string) (dbg : option DebugConfiguration) :
  List.length targets <> 1%nat ->
  getBazelArgs c targets file dbg = getBazelArgs (anyFunction c) targets file dbg.
Proof.
  intros H. unfold getBazelArgs, anyFunction.
  cbn [applyCodeCoverage isBenchmark functions flags testEnvArgs].
  destruct (Nat.eqb_spec (List.length targets) 1) as [E|_]; [contradiction|].
  destruct (functions c); reflexivity.
Qed.

Lemma X5_filter_needs_a_single_target_witness :
  getBazelArgs (sampleConfig ["TestA"]) ["//a:all"; "//b:all"] "/tmp/events" None
  = getBazelArgs (anyFunction (sampleConfig ["TestA"])) ["//a:all"; "//b:all"]
      "/tmp/events" None.
Proof.
  apply (X5_filter_needs_a_single_target (sampleConfig ["TestA"])
           ["//a:all"; "//b:all"] "/tmp/events" None).
  simpl. lia.
Defined.

(** X6. A debug configuration decides the command: the arguments start
    with the debug command and the port, and neither the coverage setting
    nor the build events file has any effect on them. *)
Theorem X6_debug_ignores_coverage_and_events_file (c : TestConfig)
    (targets : list string) (file file' : string) (b : bool) (d : DebugConfiguration) :
  getBazelArgs c targets file (Some d)
  = getBazelArgs (withCoverage b c) targets file' (Some d)
  /\ exists rest,
       getBazelArgs c targets file (Some d)
       = "debug" :: ("--port=" +++ port d) :: "--tool_tag=vscode-go-bazel" :: rest.
Proof.
  split; [reflexivity|].
  unfold getBazelArgs. cbn [commandText app].
  destruct (functions c) as [fs|]; [destruct (List.length targets =? 1)%nat|];
    destruct (isBenchmark c); cbn [app]; eexists; reflexivity.
Qed.

End BazelArgsMore.

(** ** Further properties of the build events stream *)
Module BuildEventsMore.
Import JS BuildEvents BuildEventsViews BuildEventsFacts.

Section StreamMore.

Variable JSON_parse : string -> option value.
Variable collectOther : value -> Collector.state -> option Collector.state.

Variable endsChunk : nat -> bool.

Let handle := handleLine JSON_parse collectOther.
Let readFrom := readLinesFrom JSON_parse collectOther endsChunk.
Let process := processBuildEvents JSON_parse collectOther endsChunk.

Lemma readFrom_step (file : string) (i : nat) (closed : bool) (l : string)
    (lines : list string) (r : run) :
  readFrom file i closed (l :: lines) r =
    match handle l r with
    | (Some _, r') =>
        if closed && endsChunk i then r' else readFrom file (S i) closed lines r'
    | (None, r') =>
        if endsChunk i then reportMalformed file r'
        else readFrom file (S i) true lines (reportMalformed file r')
    end.
Proof. exact (readFrom_cons JSON_parse collectOther endsChunk file i closed l lines r). Qed.


Lemma addTestActionOutput_keeps_exit_code (x : value) :
  keeps exitCodeOf (addTestActionOutput x).
Proof. unfold addTestActionOutput. repeat keeps_step. Qed.

Lemma idStatement_keeps_exit_code (parsed id : value) :
  keeps exitCodeOf (idStatement parsed id).
Proof.
  unfold idStatement.
  repeat first [ apply addTestActionOutput_keeps_exit_code | keeps_step ].
Qed.

Lemma collectorStatement_keeps_exit_code (parsed : value) :
  keeps exitCodeOf (collectorStatement collectOther parsed).
Proof.
  intros r. pose proof (collectorStatement_keeps_rest collectOther parsed r) as H.
  unfold besidesMessages in H. injection H as _ _ H _ _ _. exact H.
Qed.

Lemma exitCodeStatement_not_finished (parsed id : value) :
  prop parsed "id" = Some id -> tagged parsed "buildFinished" = false ->
  keeps exitCodeOf (exitCodeStatement parsed id).
Proof.
  intros Hid Ht r. unfold exitCodeStatement, bind, orThrow.
  destruct (prop id "buildFinished") as [t|] eqn:Hk; [|reflexivity].
  rewrite (tagged_false parsed id t "buildFinished" Hid Hk Ht).
  reflexivity.
Qed.

(** A line that does not parse, or parses to a record that is not tagged
    as the end of the build, leaves the exit code as it is, whether the
    block throws on it or not. *)
Lemma handleLine_keeps_exit_code (line : string) (r : run) :
  match JSON_parse line with
  | Some parsed => tagged parsed "buildFinished" = false
  | None => True
  end ->
  exitCodeOf (snd (handle line r)) = exitCodeOf r.
Proof.
  intros H. unfold handle. rewrite handleLine_statements.
  destruct (JSON_parse line) as [parsed|]; [|reflexivity].
  destruct (prop parsed "id") as [id|] eqn:Hid; [|reflexivity].
  assert (Hk : keeps exitCodeOf
                 (exitCodeStatement parsed id ;;;
                  collectorStatement collectOther parsed ;;;
                  idStatement parsed id)).
  { apply keeps_bind; [exact (exitCodeStatement_not_finished parsed id Hid H)|].
    intros _. apply keeps_bind; [apply collectorStatement_keeps_exit_code|].
    intros _. apply idStatement_keeps_exit_code. }
  apply Hk.
Qed.

(** A view of the run that the listener keeps on every line of a list
    is kept by the reader, closed or not, wherever the chunks end. *)
Lemma readFrom_keeps {A : Type} (view : run -> A) (file : string)
    (lines : list string) :
  (forall r, view (reportMalformed file r) = view r) ->
  Forall (fun l => forall r, view (snd (handle l r)) = view r) lines ->
  forall i closed r, view (readFrom file i closed lines r) = view r.
Proof.
  intros Hcatch H. induction H as [|l lines Hl _ IH]; intros i closed r; [reflexivity|].
  rewrite readFrom_step. specialize (Hl r).
  destruct (handle l r) as [[u|] r']; cbn [snd] in Hl.
  - destruct (closed && endsChunk i); [exact Hl|]. rewrite IH. exact Hl.
  - destruct (endsChunk i).
    + rewrite Hcatch. exact Hl.
    + rewrite IH, Hcatch. exact Hl.
Qed.

Lemma Forall_lines_of_events (P : value -> Prop) (lines : list string) :
  Forall P (parsedEvents JSON_parse lines) ->
  Forall (fun l => match JSON_parse l with Some parsed => P parsed | None => True end)
    lines.
Proof.
  induction lines as [|l lines IH]; intros H; [constructor|].
  unfold parsedEvents in H. cbn [flat_map] in H.
  destruct (JSON_parse l) as [parsed|] eqn:Hp.
  - cbn [app] in H. inversion H as [|? ? H1 H2]; subst.
    constructor; [rewrite Hp; exact H1 | exact (IH H2)].
  - constructor; [rewrite Hp; exact I | exact (IH H)].
Qed.

Lemma readLines_keeps_exit_code (file : string) (lines : list string) :
  forall i closed r,
  Forall (fun parsed => tagged parsed "buildFinished" = false)
    (parsedEvents JSON_parse lines) ->
  exitCodeOf (readFrom file i closed lines r) = exitCodeOf r.
Proof.
  intros i closed r H. apply readFrom_keeps; [reflexivity|].
  apply Forall_lines_of_events in H.
  apply (Forall_impl _ (P := fun l =>
           match JSON_parse l with
           | Some parsed => tagged parsed "buildFinished" = false
           | None => True
           end)); [|exact H].
  intros l Hl r0. exact (handleLine_keeps_exit_code l r0 Hl).
Qed.

(** X8. The exit code is [FailedToParse] until a record tagged as the end
    of the build is met: a stream none of whose records carries that tag
    resolves with [FailedToParse], whether or not it is read to its end. *)
Theorem X8_exit_code_needs_a_finished_record (buildEventsFile : string)
    (lines : list string) :
  Forall (fun parsed => tagged parsed "buildFinished" = false)
    (parsedEvents JSON_parse lines) ->
  exitCode (result (process buildEventsFile lines)) = FailedToParse.
Proof.
  intros H. unfold process, processBuildEvents. cbn [result].
  exact (readLines_keeps_exit_code buildEventsFile lines 0%nat false start H).
Qed.


Let messagesOf (r : run) := (errorMessages (outputs r), collector r).

Lemma exitCodeStatement_keeps_messages (parsed id : value) :
  keeps messagesOf (exitCodeStatement parsed id).
Proof. unfold exitCodeStatement. repeat keeps_step. Qed.

Lemma idStatement_keeps_messages (parsed id : value) :
  keeps messagesOf (idStatement parsed id).
Proof. unfold idStatement, addTestActionOutput. repeat keeps_step. Qed.

(** The call of the collector, when it returns: the messages of the
    outputs are the collector's, and a text of the declared type is what
    the collector is called with. *)
Lemma collectorStatement_returns (parsed : value) (r r' : run) (u : unit) :
  collectorStatement collectOther parsed r = (Some u, r') ->
  synced r'
  /\ (stderrTyped parsed = true ->
      collector r' = Collector.updateErrorMessages (stderrText parsed) (collector r)).
Proof.
  unfold collectorStatement, bind, orThrow, stderrTyped, stderrText, stderrOf.
  destruct (prop parsed "progress") as [progress|]; [|discriminate].
  destruct (optionalProp progress "stderr") as [stderr|]; [|discriminate].
  unfold collectStderr, synced.
  destruct stderr as [| | b | z | s | l | fields]; cbn [truthy].
  - intros [= _ <-]. split; [reflexivity | intros _; reflexivity].
  - intros [= _ <-]. split; [reflexivity | intros _; reflexivity].
  - destruct b.
    + destruct (collectOther (JBool true) (collector r)); [|discriminate].
      intros [= _ <-]. split; [reflexivity | discriminate].
    + intros [= _ <-]. split; [reflexivity | intros _; reflexivity].
  - destruct (negb (z =? 0)%Z).
    + destruct (collectOther (JNum z) (collector r)); [|discriminate].
      intros [= _ <-]. split; [reflexivity | discriminate].
    + intros [= _ <-]. split; [reflexivity | intros _; reflexivity].
  - intros [= _ <-]. split; [reflexivity | intros _; reflexivity].
  - destruct (collectOther (JArr l) (collector r)); [|discriminate].
    intros [= _ <-]. split; [reflexivity | discriminate].
  - destruct (collectOther (JObj fields) (collector r)); [|discriminate].
    intros [= _ <-]. split; [reflexivity | discriminate].
Qed.

Lemma handleLine_messages (line : string) (r r' : run) (u : unit) :
  handle line r = (Some u, r') ->
  exists parsed,
    JSON_parse line = Some parsed
    /\ synced r'
    /\ (stderrTyped parsed = true ->
        collector r' = Collector.updateErrorMessages (stderrText parsed) (collector r)).
Proof.
  unfold handle. rewrite handleLine_statements.
  destruct (JSON_parse line) as [parsed|]; [|discriminate].
  destruct (prop parsed "id") as [id|] eqn:Hid; [|discriminate].
  unfold bind.
  pose proof (exitCodeStatement_keeps_messages parsed id r) as Hk1.
  destruct (exitCodeStatement parsed id r) as [[u1|] r1]; [|discriminate].
  cbn [snd] in Hk1.
  destruct (collectorStatement collectOther parsed r1) as [[u2|] r2] eqn:H2; [|discriminate].
  destruct (collectorStatement_returns parsed r1 r2 u2 H2) as [Hs Hc].
  intros H3. pose proof (idStatement_keeps_messages parsed id r2) as Hk3.
  rewrite H3 in Hk3. cbn [snd] in Hk3.
  unfold messagesOf in Hk1, Hk3. injection Hk1 as _ Hc1. injection Hk3 as He3 Hc3.
  exists parsed. split; [reflexivity|]. split.
  - unfold synced in *. congruence.
  - intros Ht. rewrite Hc3, (Hc Ht), Hc1. reflexivity.
Qed.

Lemma readLines_messages (file : string) (lines : list string) :
  forall i r,
  channel (readFrom file i false lines r) = channel r ->
  Forall (fun parsed => stderrTyped parsed = true) (parsedEvents JSON_parse lines) ->
  synced r ->
  synced (readFrom file i false lines r)
  /\ collector (readFrom file i false lines r)
     = Collector.feed (map stderrText (parsedEvents JSON_parse lines)) (collector r).
Proof.
  induction lines as [|l lines IH]; intros i r Hc Ht Hs.
  - split; [exact Hs | reflexivity].
  - destruct (readFrom_without_diagnostic JSON_parse collectOther endsChunk
                file i l lines r Hc) as (u & r' & Hl & Hstep & Hk).
    fold handle in Hl. fold readFrom in Hstep.
    rewrite Hstep in Hc |- *.
    destruct (handleLine_messages l r r' u Hl) as (parsed & Hp & Hs' & Hcol).
    unfold parsedEvents in Ht |- *. cbn [flat_map] in Ht |- *.
    rewrite Hp in Ht |- *. cbn [app map] in Ht |- *.
    inversion Ht as [|? ? Ht1 Ht2]; subst.
    fold (parsedEvents JSON_parse lines) in Ht2 |- *.
    rewrite CollectorFacts.feed_cons, <- (Hcol Ht1).
    apply IH; [congruence | exact Ht2 | exact Hs'].
Qed.

(** X9. The error messages of the outcome are those of the collector:
    for a stream read without a diagnostic whose standard error texts are
    strings or absent, they are the output of a fresh collector called
    once for each record, in the order of the lines, with the text of the
    record. *)
Theorem X9_error_messages_are_the_collector_output (buildEventsFile : string)
    (lines : list string) :
  diagnostics (process buildEventsFile lines) = [] ->
  Forall (fun parsed => stderrTyped parsed = true) (parsedEvents JSON_parse lines) ->
  errorMessages (result (process buildEventsFile lines))
  = Collector.output
      (Collector.feed (map stderrText (parsedEvents JSON_parse lines)) Collector.init).
Proof.
  intros Hd Ht. unfold process, processBuildEvents in Hd |- *.
  cbn [diagnostics result] in Hd |- *.
  destruct (readLines_messages buildEventsFile lines 0%nat start Hd Ht eq_refl)
    as [Hs Hc].
  unfold synced in Hs.
  change (readLines JSON_parse collectOther endsChunk buildEventsFile lines start)
    with (readFrom buildEventsFile 0 false lines start).
  rewrite Hs, Hc. reflexivity.
Qed.


Let localExecRootOf (r : run) : value := localExecRoot (outputs r).

Lemma bind_orThrow_Some {A B : Type} (a : A) (k : A -> M B) :
  bind (orThrow (Some a)) k = k a.
Proof. reflexivity. Qed.

Lemma idStatement_not_workspace (parsed id : value) :
  prop parsed "id" = Some id -> tagged parsed "workspace" = false ->
  keeps localExecRootOf (idStatement parsed id).
Proof.
  intros Hid Ht r. unfold idStatement.
  destruct (prop id "workspace") as [t|] eqn:Hk; [|reflexivity].
  rewrite bind_orThrow_Some.
  rewrite (tagged_false parsed id t "workspace" Hid Hk Ht).
  match goal with
  | |- _ (snd (?m r)) = _ =>
      assert (Hkeeps : keeps localExecRootOf m)
        by (unfold addTestActionOutput; repeat keeps_step)
  end.
  apply Hkeeps.
Qed.

Lemma handleLine_keeps_local_exec_root (line : string) (r : run) :
  match JSON_parse line with
  | Some parsed => tagged parsed "workspace" = false
  | None => True
  end ->
  localExecRootOf (snd (handle line r)) = localExecRootOf r.
Proof.
  intros H. unfold handle. rewrite handleLine_statements.
  destruct (JSON_parse line) as [parsed|]; [|reflexivity].
  destruct (prop parsed "id") as [id|] eqn:Hid; [|reflexivity].
  assert (Hk : keeps localExecRootOf
                 (exitCodeStatement parsed id ;;;
                  collectorStatement collectOther parsed ;;;
                  idStatement parsed id)).
  { apply keeps_bind.
    - intros r0. pose proof (exitCodeStatement_keeps_payloadFields parsed id r0) as Hp.
      unfold payloadFields in Hp. injection Hp as _ _ Hp _. exact Hp.
    - intros _. apply keeps_bind.
      + intros r0.
        pose proof (collectorStatement_keeps_payloadFields collectOther parsed r0) as Hp.
        unfold payloadFields in Hp. injection Hp as _ _ Hp _. exact Hp.
      + intros _. exact (idStatement_not_workspace parsed id Hid H). }
  apply Hk.
Qed.

Lemma readLines_keeps_local_exec_root (file : string) (lines : list string) :
  forall i closed r,
  Forall (fun parsed => tagged parsed "workspace" = false)
    (parsedEvents JSON_parse lines) ->
  localExecRootOf (readFrom file i closed lines r) = localExecRootOf r.
Proof.
  intros i closed r H. apply readFrom_keeps; [reflexivity|].
  apply Forall_lines_of_events in H.
  apply (Forall_impl _ (P := fun l =>
           match JSON_parse l with
           | Some parsed => tagged parsed "workspace" = false
           | None => True
           end)); [|exact H].
  intros l Hl r0. exact (handleLine_keeps_local_exec_root l r0 Hl).
Qed.

Lemma existsb_or_none {A : Type} (f : A -> bool) (l : list A) :
  existsb f l = true \/ Forall (fun x => f x = false) l.
Proof.
  induction l as [|x l [IH|IH]]; [right; constructor | left | ].
  - cbn [existsb]. rewrite IH. apply orb_true_r.
  - cbn [existsb]. destruct (f x) eqn:Hx; [left; reflexivity|].
    right. constructor; assumption.
Qed.

(** X17. The run processes the cover profile only when coverage was
    asked for and the stream of build events held both a record tagged
    as the end of the build and a record tagged as the workspace: the
    exit code and the execution root it tests come from no other
    record. *)
Theorem X17_cover_profile_needs_the_end_of_the_build (buildEventsFile : string)
    (lines : list string) (applyCodeCoverage : bool) :
  coverProfileProcessed applyCodeCoverage (result (process buildEventsFile lines)) = true ->
  applyCodeCoverage = true
  /\ existsb (fun parsed => tagged parsed "buildFinished") (parsedEvents JSON_parse lines)
     = true
  /\ existsb (fun parsed => tagged parsed "workspace") (parsedEvents JSON_parse lines)
     = true.
Proof.
  unfold coverProfileProcessed, process, processBuildEvents. cbn [result].
  intros H. apply andb_prop in H as [H Hcode]. apply andb_prop in H as [Ha Hroot].
  split; [exact Ha|]. split.
  - destruct (existsb_or_none (fun parsed => tagged parsed "buildFinished")
                (parsedEvents JSON_parse lines)) as [E|F]; [exact E|].
    pose proof (readLines_keeps_exit_code buildEventsFile lines 0%nat false start F)
      as Hk.
    unfold exitCodeOf, readFrom in Hk.
    change (readLinesFrom JSON_parse collectOther endsChunk buildEventsFile 0 false lines
              start)
      with (readLines JSON_parse collectOther endsChunk buildEventsFile lines start) in Hk.
    rewrite Hk in Hcode. discriminate Hcode.
  - destruct (existsb_or_none (fun parsed => tagged parsed "workspace")
                (parsedEvents JSON_parse lines)) as [E|F]; [exact E|].
    pose proof (readLines_keeps_local_exec_root buildEventsFile lines 0%nat false start F)
      as Hk.
    unfold localExecRootOf, readFrom in Hk.
    change (readLinesFrom JSON_parse collectOther endsChunk buildEventsFile 0 false lines
              start)
      with (readLines JSON_parse collectOther endsChunk buildEventsFile lines start) in Hk.
    rewrite Hk in Hroot. discriminate Hroot.
Qed.


End StreamMore.

(** A stream that stops before the end of the build. *)
Lemma X8_exit_code_needs_a_finished_record_witness :
  exitCode (result (processBuildEvents sampleParse sampleCollectOther oneChunk
                      "/tmp/build_events"
                      [startedLine; testResultLine]))
  = FailedToParse.
Proof.
  apply (X8_exit_code_needs_a_finished_record sampleParse sampleCollectOther oneChunk
           "/tmp/build_events" [startedLine; testResultLine]).
  vm_compute. repeat constructor.
Defined.

(** An error, a line of detail from the tool underneath, a log line. *)
Lemma X9_error_messages_are_the_collector_output_witness :
  errorMessages
    (result (processBuildEvents progressParse sampleCollectOther oneChunk
               "/tmp/build_events"
               [progressErrorLine; progressDetailLine; progressInfoLine]))
  = Collector.output
      (Collector.feed
         (map stderrText
            (parsedEvents progressParse
               [progressErrorLine; progressDetailLine; progressInfoLine]))
         Collector.init)
  /\ Collector.output
       (Collector.feed
          (map stderrText
             (parsedEvents progressParse
                [progressErrorLine; progressDetailLine; progressInfoLine]))
          Collector.init)
     = ["ERROR: build failed"; "missing dependency"].
Proof.
  split; [|reflexivity].
  apply (X9_error_messages_are_the_collector_output progressParse sampleCollectOther
           oneChunk "/tmp/build_events" [progressErrorLine; progressDetailLine; progressInfoLine]).
  - reflexivity.
  - vm_compute. repeat constructor.
Defined.


(** A run with coverage whose stream has the workspace and the end of
    the build. *)
Lemma X17_cover_profile_needs_the_end_of_the_build_witness :
  true = true
  /\ existsb (fun parsed => tagged parsed "buildFinished")
       (parsedEvents progressParse [workspaceLine; startedLine; finishedLine]) = true
  /\ existsb (fun parsed => tagged parsed "workspace")
       (parsedEvents progressParse [workspaceLine; startedLine; finishedLine]) = true.
Proof.
  apply (X17_cover_profile_needs_the_end_of_the_build progressParse sampleCollectOther
           oneChunk "/tmp/build_events" [workspaceLine; startedLine; finishedLine] true).
  reflexivity.
Defined.


End BuildEventsMore.

(** ** Further properties of the conversion of a report *)
Module XmlReportMore.
Import JS XmlReport XmlReportViews XmlReportFacts.

Lemma pushLines_absent (entries : list TextElement) :
  forall messages,
  forallb (fun e => match text e with Some _ => true | None => false end) entries = false ->
  pushLines entries messages = None.
Proof.
  induction entries as [|e entries IH]; intros messages H; [discriminate H|].
  cbn [forallb] in H. cbn [pushLines].
  destruct (text e) as [t|]; [|reflexivity].
  apply IH. exact H.
Qed.

Lemma addTestCase_absent (pkg : string) (results : list GoTestOutput) (c : TestCase) :
  caseTextsPresent c = false -> addTestCase pkg results c = None.
Proof.
  unfold caseTextsPresent, addTestCase, actionAndMessages, entriesRead.
  intros H. destruct (failure c) as [fs|].
  - rewrite (pushLines_absent fs [] H). reflexivity.
  - destruct (error c) as [es|]; [|discriminate H].
    rewrite (pushLines_absent es [] H). reflexivity.
Qed.

Lemma forEach_cases_absent (pkg : string) (cases : list TestCase) :
  forall results,
  forallb caseTextsPresent cases = false ->
  forEach (addTestCase pkg) cases results = None.
Proof.
  induction cases as [|c cases IH]; intros results H; [discriminate H|].
  cbn [forallb] in H. cbn [forEach].
  destruct (caseTextsPresent c) eqn:Hc.
  - rewrite (addTestCase_present pkg results c Hc). apply IH. exact H.
  - rewrite (addTestCase_absent pkg results c Hc). reflexivity.
Qed.

Lemma forEach_suites_absent (suites : list TestSuite) :
  forall results,
  forallb suiteTextsPresent suites = false ->
  forEach addSuite suites results = None.
Proof.
  induction suites as [|suite suites IH]; intros results H; [discriminate H|].
  cbn [forallb] in H. cbn [forEach].
  destruct (suiteTextsPresent suite) eqn:Hs.
  - assert (Hone : forEach addSuite [suite] results
                   = Some (results ++ flat_map suiteEvents [suite])).
    { apply forEach_suites_present. cbn [forallb]. rewrite Hs. reflexivity. }
    cbn [forEach] in Hone.
    destruct (addSuite results suite) as [results'|]; [|discriminate Hone].
    apply IH. exact H.
  - unfold suiteTextsPresent in Hs. unfold addSuite.
    destruct (testcase suite) as [cases|]; [|discriminate Hs].
    rewrite (forEach_cases_absent _ cases results Hs). reflexivity.
Qed.

(** X10. On a report of the shape [TestResultXML], a list of suites
    with their attributes and test cases with theirs, the conversion
    throws exactly when a failure or error element that it reads has no
    property [_], be it a string or an object without text: elements of
    [error] beside a [failure], and elements of [skipped], are never
    read. *)
Theorem X10_conversion_throws_iff_a_text_is_missing (resultData : TestResultXML) :
  testResultXMLToGoTestOutput resultData = None <-> textsPresent resultData = false.
Proof.
  split.
  - intros H. destruct (textsPresent resultData) eqn:Ht; [|reflexivity].
    rewrite (convert_present resultData Ht) in H. discriminate H.
  - intros H. unfold testResultXMLToGoTestOutput.
    exact (forEach_suites_absent (testsuite resultData) [] H).
Qed.

(** A failure element with an attribute and no text, and one with text
    and no attribute: the conversion throws on both. *)
Example conversion_throws_on_the_samples :
  testResultXMLToGoTestOutput brokenReport = None
  /\ testResultXMLToGoTestOutput bareReport = None.
Proof. split; reflexivity. Qed.

Lemma filter_flat_map {A B : Type} (f : B -> bool) (g : A -> list B) (l : list A) :
  filter f (flat_map g l) = flat_map (fun x => filter f (g x)) l.
Proof.
  induction l as [|x l IH]; [reflexivity|].
  cbn [flat_map]. rewrite filter_app, IH. reflexivity.
Qed.

Lemma filter_outputs (pkg : string) (c : TestCase) (lines : list string) :
  filter isVerdict (map (outputEvent pkg c) lines) = [].
Proof. induction lines as [|l lines IH]; [reflexivity | exact IH]. Qed.

Lemma caseAction_is_verdict (pkg : string) (c : TestCase) :
  isVerdict (finalEvent (caseAction c) pkg c) = true.
Proof.
  unfold caseAction.
  destruct (failure c), (error c), (skipped c); reflexivity.
Qed.

Lemma filter_caseEvents (pkg : string) (c : TestCase) :
  filter isVerdict (caseEvents pkg c) = [finalEvent (caseAction c) pkg c].
Proof.
  unfold caseEvents. rewrite filter_app, filter_outputs.
  cbn [filter app]. rewrite caseAction_is_verdict. reflexivity.
Qed.

Lemma filter_suiteEvents (suite : TestSuite) :
  filter isVerdict (suiteEvents suite) = suiteVerdicts suite.
Proof.
  unfold suiteEvents, suiteVerdicts.
  destruct (testcase suite) as [cases|]; [|reflexivity].
  rewrite filter_flat_map.
  induction cases as [|c cases IH]; [reflexivity|].
  cbn [flat_map map]. rewrite filter_caseEvents, IH. reflexivity.
Qed.

Lemma length_verdicts (resultData : TestResultXML) :
  List.length (verdicts resultData) = countCases resultData.
Proof.
  unfold verdicts, countCases.
  induction (testsuite resultData) as [|suite suites IH]; [reflexivity|].
  cbn [flat_map map list_sum]. rewrite length_app, IH.
  unfold suiteVerdicts. destruct (testcase suite); [rewrite length_map|]; reflexivity.
Qed.

(** X11. When the conversion returns, its events other than output
    events are one for each test case, in document order: the name and
    time of the case under the name of its suite, with the action fail
    for a case with a failure, else errored with an error, else skip with
    a skipped element, else pass. *)
Theorem X11_one_verdict_for_each_test_case (resultData : TestResultXML)
    (events : list GoTestOutput) :
  testResultXMLToGoTestOutput resultData = Some events ->
  filter isVerdict events = verdicts resultData
  /\ List.length (filter isVerdict events) = countCases resultData.
Proof.
  intros H.
  assert (Hv : filter isVerdict events = verdicts resultData).
  { destruct (textsPresent resultData) eqn:Ht.
    - rewrite (convert_present resultData Ht) in H. injection H as <-.
      rewrite filter_flat_map. unfold verdicts.
      induction (testsuite resultData) as [|suite suites IH]; [reflexivity|].
      cbn [flat_map]. rewrite filter_suiteEvents, IH. reflexivity.
    - unfold testResultXMLToGoTestOutput in H.
      rewrite (forEach_suites_absent (testsuite resultData) [] Ht) in H.
      discriminate H. }
  split; [exact Hv|]. rewrite Hv. apply length_verdicts.
Qed.

Lemma X11_one_verdict_for_each_test_case_witness :
  exists events,
    testResultXMLToGoTestOutput sampleReport = Some events
    /\ map Action (filter isVerdict events) = ["pass"; "fail"].
Proof.
  exists (flat_map suiteEvents (testsuite sampleReport)).
  split; [reflexivity|].
  destruct (X11_one_verdict_for_each_test_case sampleReport
              (flat_map suiteEvents (testsuite sampleReport)) eq_refl) as [Hv _].
  rewrite Hv. reflexivity.
Defined.

Lemma append_empty_r (s : string) : s +++ EmptyString = s.
Proof. induction s as [|a s IH]; [reflexivity|]. cbn. rewrite IH. reflexivity. Qed.

Lemma appendAll_app (l1 l2 : list string) :
  appendAll (l1 ++ l2) = appendAll l1 +++ appendAll l2.
Proof.
  induction l1 as [|x l1 IH]; [reflexivity|].
  cbn [app appendAll fold_right]. fold (appendAll (l1 ++ l2)) (appendAll l1).
  rewrite IH. clear IH. induction x as [|a x IHx]; [reflexivity|].
  cbn. rewrite IHx. reflexivity.
Qed.

(** The lines of a text, a line feed after each, give the text back with
    a line feed after it. *)
Lemma appendAll_split (t : string) :
  appendAll (map (fun line => line +++ String LF EmptyString) (split LF t))
  = t +++ String LF EmptyString.
Proof.
  induction t as [|a t IH]; [reflexivity|].
  cbn [split]. destruct (Ascii.eqb_spec a LF) as [->|_].
  - cbn [map appendAll fold_right]. fold (appendAll (map (fun line => line +++ String LF EmptyString) (split LF t))).
    rewrite IH. reflexivity.
  - destruct (split LF t) as [|p ps].
    + destruct t; discriminate IH.
    + cbn [map appendAll fold_right] in IH |- *.
      cbn [String.append]. rewrite IH. reflexivity.
Qed.

Lemma outputsOf_app (l1 l2 : list GoTestOutput) :
  outputsOf (l1 ++ l2) = outputsOf l1 ++ outputsOf l2.
Proof. unfold outputsOf. apply flat_map_app. Qed.

Lemma outputsOf_outputs (pkg : string) (c : TestCase) (lines : list string) :
  outputsOf (map (outputEvent pkg c) lines)
  = map (fun line => line +++ String LF EmptyString) lines.
Proof.
  induction lines as [|l lines IH]; [reflexivity|].
  cbn [map outputsOf flat_map outputEvent Output app]. f_equal. exact IH.
Qed.

Lemma outputs_of_a_case (pkg : string) (c : TestCase) :
  appendAll (outputsOf (caseEvents pkg c)) = appendAll (map lineFed (entriesRead c)).
Proof.
  unfold caseEvents. rewrite outputsOf_app, outputsOf_outputs.
  cbn [outputsOf flat_map finalEvent Output app]. rewrite app_nil_r.
  unfold caseLines. induction (entriesRead c) as [|e es IH]; [reflexivity|].
  cbn [flat_map map]. rewrite map_app, appendAll_app, IH.
  cbn [appendAll fold_right]. f_equal.
  unfold lineFed. destruct (text e) as [t|]; [apply appendAll_split | reflexivity].
Qed.

Lemma outputs_of_a_suite (suite : TestSuite) :
  appendAll (outputsOf (suiteEvents suite))
  = appendAll (map lineFed (match testcase suite with
                            | None => []
                            | Some cases => flat_map entriesRead cases
                            end)).
Proof.
  unfold suiteEvents. destruct (testcase suite) as [cases|]; [|reflexivity].
  induction cases as [|c cases IH]; [reflexivity|].
  cbn [flat_map]. rewrite outputsOf_app, map_app, !appendAll_app, IH, outputs_of_a_case.
  reflexivity.
Qed.

(** X22. No text is lost and none is added: when the conversion returns,
    the outputs of its events, one after the other, are the free texts
    of the failure and error elements it reads, in document order, each
    with a line feed after it. *)
Theorem X22_outputs_spell_the_texts_read (resultData : TestResultXML)
    (events : list GoTestOutput) :
  testResultXMLToGoTestOutput resultData = Some events ->
  appendAll (outputsOf events) = appendAll (map lineFed (elementsRead resultData)).
Proof.
  intros H. destruct (textsPresent resultData) eqn:Ht.
  - rewrite (convert_present resultData Ht) in H. injection H as <-.
    unfold elementsRead.
    induction (testsuite resultData) as [|suite suites IH]; [reflexivity|].
    cbn [flat_map]. rewrite outputsOf_app, map_app, !appendAll_app, IH, outputs_of_a_suite.
    reflexivity.
  - unfold testResultXMLToGoTestOutput in H.
    rewrite (forEach_suites_absent (testsuite resultData) [] Ht) in H.
    discriminate H.
Qed.

Lemma X22_outputs_spell_the_texts_read_witness :
  appendAll (outputsOf (flat_map suiteEvents (testsuite sampleReport)))
  = "Message line 1" +++ String LF (String LF ("Message line 3" +++ String LF EmptyString)).
Proof.
  rewrite (X22_outputs_spell_the_texts_read sampleReport
             (flat_map suiteEvents (testsuite sampleReport)) eq_refl).
  reflexivity.
Defined.


End XmlReportMore.

(** ** The reports of a run *)
Module XmlBatchFacts.
Import JS XmlReport XmlReportViews XmlBatch.

Section BatchFacts.

Variable State : Type.
Variable readAndParse : string -> option TestResultXML.
Variable goTestOutputConsumer : GoTestOutput -> State -> bool * State.

Let consume := consumeAll State goTestOutputConsumer.
Let step := processFile State readAndParse goTestOutputConsumer.

Lemma consumeAll_app (l1 l2 : list GoTestOutput) (s : State) :
  (forall e s', fst (goTestOutputConsumer e s') = true) ->
  consume (l1 ++ l2) s = consume l2 (snd (consume l1 s))
  /\ fst (consume l1 s) = true.
Proof.
  intros Hr. revert s. induction l1 as [|e l1 IH]; intros s; [split; reflexivity|].
  unfold consume in *. cbn [app consumeAll].
  pose proof (Hr e s) as He.
  destruct (goTestOutputConsumer e s) as [[|] s']; [|discriminate He].
  apply IH.
Qed.

Lemma fold_processFile (files : list string) :
  (forall e s', fst (goTestOutputConsumer e s') = true) ->
  forall s channel,
  fold_left step files (s, channel)
  = (snd (consume (flat_map (eventsOrNone readAndParse) files) s),
     channel ++ map (lineOf readAndParse) files).
Proof.
  intros Hr. induction files as [|f files IH]; intros s channel.
  - cbn. rewrite app_nil_r. reflexivity.
  - cbn [fold_left flat_map map].
    destruct (consumeAll_app (eventsOrNone readAndParse f)
                (flat_map (eventsOrNone readAndParse) files) s Hr) as [Happ Hfst].
    rewrite Happ.
    assert (Hstep : step (s, channel) f
                    = (snd (consume (eventsOrNone readAndParse f) s),
                       channel ++ [lineOf readAndParse f])).
    { unfold step, processFile, eventsOrNone, lineOf, eventsOf in *.
      destruct (readAndParse f) as [parsedXML|]; [|reflexivity].
      destruct (testResultXMLToGoTestOutput parsedXML) as [events|]; [|reflexivity].
      fold consume. destruct (consume events s) as [[|] s']; [reflexivity|].
      discriminate Hfst. }
    rewrite Hstep, IH, <- app_assoc. reflexivity.
Qed.

(** X12. With a consumer that returns on every event, a file is taken as
    a whole: the consumer gets the events of the files that are read,
    parsed and converted, in the order of the files, and none of a file
    whose conversion throws; the channel gets the count of the files, then
    one line for each file, of completion or of failure, so a file that
    fails does not stop the ones after it. *)
Theorem X12_reports_are_consumed_file_by_file (xmlFilePaths : list string)
    (s : State) (channel : list string) :
  (forall e s', fst (goTestOutputConsumer e s') = true) ->
  processTestResultXML State readAndParse goTestOutputConsumer xmlFilePaths s channel
  = (snd (consume (flat_map (eventsOrNone readAndParse) xmlFilePaths) s),
     (channel ++ [foundLine (List.length xmlFilePaths)])
       ++ map (lineOf readAndParse) xmlFilePaths).
Proof.
  intros Hr. unfold processTestResultXML. fold step.
  apply (fold_processFile xmlFilePaths Hr).
Qed.

End BatchFacts.

Lemma X12_reports_are_consumed_file_by_file_witness :
  processTestResultXML (list GoTestOutput) sampleFiles keepEvent
    ["/out/b/test.xml"; "/out/a/test.xml"] [] []
  = (snd (consumeAll (list GoTestOutput) keepEvent
            (flat_map (eventsOrNone sampleFiles) ["/out/b/test.xml"; "/out/a/test.xml"]) []),
     ([] ++ [foundLine 2])
       ++ map (lineOf sampleFiles) ["/out/b/test.xml"; "/out/a/test.xml"])
  /\ map (lineOf sampleFiles) ["/out/b/test.xml"; "/out/a/test.xml"]
     = [ "ERROR: Unable to parse test results from /out/b/test.xml";
         "INFO: Completed parsing of test results from /out/a/test.xml" ]
  /\ foundLine 2 = "INFO: 2 test result files found.".
Proof.
  split; [|split; reflexivity].
  apply (X12_reports_are_consumed_file_by_file (list GoTestOutput) sampleFiles keepEvent
           ["/out/b/test.xml"; "/out/a/test.xml"] [] []).
  intros e s'. reflexivity.
Defined.

End XmlBatchFacts.

(** ** Further properties of the coverage of a run *)
Module CoverageMore.
Import JS Coverage CoverageViews CoverageFacts.

Lemma mapGet_mapSet_eq {V : Type} (k : string) (v : V) (m : list (string * V)) :
  mapGet k (mapSet k v m) = Some v.
Proof.
  induction m as [|[k' v'] m IH]; cbn [mapSet mapGet].
  - rewrite String.eqb_refl. reflexivity.
  - destruct (String.eqb k' k) eqn:E; cbn [mapGet]; rewrite E; [reflexivity | exact IH].
Qed.

Lemma mapGet_mapSet_ne {V : Type} (k k0 : string) (v : V) (m : list (string * V)) :
  k <> k0 -> mapGet k0 (mapSet k v m) = mapGet k0 m.
Proof.
  intros Hne. induction m as [|[k' v'] m IH]; cbn [mapSet mapGet].
  - destruct (String.eqb_spec k k0); [contradiction | reflexivity].
  - destruct (String.eqb_spec k' k) as [->|]; cbn [mapGet].
    + destruct (String.eqb_spec k k0); [contradiction | reflexivity].
    + rewrite IH. reflexivity.
Qed.

Section PathFacts.

Variable elaborate : Range -> Z -> bool -> list DecorationOptions.
Variable pathJoin : string -> string -> string.
Variable pathRelative : string -> string -> string.
Variable pathDirname : string -> string.
Variable pathBasename : string -> string.
Variable showCounts : bool.
Variable config : CoverageProcessingConfig.

Let step := addFile elaborate pathJoin pathRelative pathDirname pathBasename showCounts config.
Let rangesOf (f : LcovFile.t) : CoverageData :=
  lcovLinesToEditorRanges elaborate (LcovFile.lines f) showCounts.
Let at_ := recordAt pathJoin pathRelative pathDirname config.

Lemma fold_coveragePath (path : string) (files : list LcovFile.t) :
  forall (m : maps) (found : option LcovFile.t),
  NoDup (map fst (coveragePath m)) ->
  mapGet path (coveragePath m) = option_map rangesOf found ->
  NoDup (map fst (coveragePath (fold_left step files m)))
  /\ mapGet path (coveragePath (fold_left step files m))
     = option_map rangesOf
         (fold_left (fun found f => if at_ path f then Some f else found) files found).
Proof.
  induction files as [|f files IH]; intros m found Hnd Hget; [split; assumption|].
  cbn [fold_left]. apply IH.
  - unfold step, addFile.
    destruct (includes (targetPackages config)
                (packageOf pathJoin pathRelative pathDirname config f));
      cbn [negb coveragePath]; [apply mapSet_NoDup|]; exact Hnd.
  - unfold step, addFile, at_, recordAt.
    destruct (includes (targetPackages config)
                (packageOf pathJoin pathRelative pathDirname config f));
      cbn [negb coveragePath andb]; [|exact Hget].
    destruct (String.eqb_spec (getSourceFileAbsolutePath pathJoin config (LcovFile.file f))
                path) as [<-|Hne].
    + rewrite mapGet_mapSet_eq. reflexivity.
    + rewrite (mapGet_mapSet_ne _ _ _ _ Hne). exact Hget.
Qed.

(** X13. The coverage handed to the editors has each path once, and the
    coverage of a path is that of the last record of the report for it
    among the packages of the run: an earlier record for the same path is
    overwritten, and a path with no such record has no coverage. *)
Theorem X13_coverage_of_a_path_is_its_last_record
    (roots : list CoverageTreeNode) (files : list LcovFile.t) :
  exists (data : list (string * CoverageData)) (trees : list CoverageTreeNode),
    processLcovFiles elaborate pathJoin pathRelative pathDirname pathBasename
      showCounts roots (Some files) config
    = Some {| coverageData := data; coverageTreeRoots := trees |}
    /\ NoDup (map fst data)
    /\ forall path,
         mapGet path data
         = option_map
             (fun f => lcovLinesToEditorRanges elaborate (LcovFile.lines f) showCounts)
             (lastRecordAt pathJoin pathRelative pathDirname config path files).
Proof.
  eexists. eexists. split; [reflexivity|]. cbn [coverageData]. fold step.
  split.
  - apply (fold_coveragePath EmptyString files
             {| coveragePath := []; resultsTree := [] |} None (NoDup_nil _) eq_refl).
  - intros path.
    apply (fold_coveragePath path files
             {| coveragePath := []; resultsTree := [] |} None (NoDup_nil _) eq_refl).
Qed.

End PathFacts.

Section TreeFacts.

Variable elaborate : Range -> Z -> bool -> list DecorationOptions.
Variable pathJoin : string -> string -> string.
Variable pathRelative : string -> string -> string.
Variable pathDirname : string -> string.
Variable pathBasename : string -> string.
Variable toPercent : Z -> Z -> string.
Variable showCounts : bool.
Variable config : CoverageProcessingConfig.

(** X14. The tree of a run has two levels.  A node added for a package
    is shown expanded and opens nothing; what the provider answers as its
    children are nodes of files of the report, each of which has no
    children and opens the file at its absolute path. *)
Theorem X14_coverage_tree_has_two_levels
    (roots : list CoverageTreeNode) (files : list LcovFile.t) :
  exists (data : list (string * CoverageData)) (added : list CoverageTreeNode),
    processLcovFiles elaborate pathJoin pathRelative pathDirname pathBasename
      showCounts roots (Some files) config
    = Some {| coverageData := data; coverageTreeRoots := roots ++ added |}
    /\ Forall (fun root =>
         collapsibleState (getTreeItem toPercent root) = Some Expanded
         /\ itemCommand (getTreeItem toPercent root) = None
         /\ Forall (fun child =>
              getChildren (roots ++ added) (Some child) = []
              /\ collapsibleState (getTreeItem toPercent child) = None
              /\ exists f,
                   In f files
                   /\ itemCommand (getTreeItem toPercent child)
                      = Some {| title := "Open"; command := "vscode.open";
                                arguments :=
                                  [getSourceFileAbsolutePath pathJoin config
                                     (LcovFile.file f)] |})
              (getChildren (roots ++ added) (Some root)))
         added.
Proof.
  eexists. eexists. split; [reflexivity|].
  destruct (treeOk_fold elaborate pathJoin pathRelative pathDirname pathBasename
              showCounts config files) as (_ & Hok & _ & _).
  apply Forall_forall. intros root Hin.
  unfold mapValues in Hin. apply in_map_iff in Hin as (e & <- & He).
  destruct (Hok e He) as (_ & _ & _ & Hch & _ & _).
  unfold getTreeItem, getChildren. rewrite Hch. cbn [collapsibleState itemCommand].
  split; [reflexivity|]. split; [reflexivity|].
  apply Forall_forall. intros child Hc.
  apply in_map_iff in Hc as (f & <- & Hf). apply filter_In in Hf as [Hf _].
  cbn [fileNode children collapsibleState itemCommand absolutePath].
  split; [reflexivity|]. split; [reflexivity|].
  exists f. split; [exact Hf | reflexivity].
Qed.

End TreeFacts.

(** The sample report has two records for [a.go] of the package of the
    run: the coverage of the file is that of the second one. *)
Example sample_coverage_last_record :
  option_map (fun p => mapGet "/home/user/repo/src/project/pkg/a.go" (coverageData p))
    (processLcovFiles elaborateOneRange samplePathJoin samplePathRelative
       samplePathDirname samplePathBasename false [] (Some sampleCoverageFiles)
       sampleCoverageConfig)
  = Some (Some {| uncoveredOptions :=
                    [ {| range := {| startLine := 6; startCharacter := 0;
                                     endLine := 6; endCharacter := 1000 |} |} ];
                  coveredOptions := [] |}).
Proof. vm_compute. reflexivity. Qed.

End CoverageMore.

(** ** Further properties of the runner *)
Module RunnerMore.
Import JS BazelArgs BazelArgsViews BuildEvents Resolver RunnerViews.

Section Fallback.

Variable extractInstanceTestName : string -> string.
Variable superResolveTestName :
  Resolver -> list (string * ref) -> string -> option ref * Resolver.

Let resolve := resolveTestName extractInstanceTestName superResolveTestName.

Lemma resolveInTests_without_suites (st : Resolver) (allTests remaining : list (string * ref))
    (name : string) :
  (forall key item, In (key, item) remaining ->
     has (isTestSuiteFunc st) item = false
     /\ forall p, parentOf st item = Some p -> has (isTestSuiteFunc st) p = false) ->
  resolveInTests extractInstanceTestName superResolveTestName st allTests remaining name
  = superResolveTestName st allTests name.
Proof.
  induction remaining as [|[key item] rest IH]; intros H; [reflexivity|].
  cbn [resolveInTests].
  destruct (H key item (or_introl eq_refl)) as [Hitem Hparent].
  rewrite Hitem.
  assert (Hrest : resolveInTests extractInstanceTestName superResolveTestName st allTests
                    rest name = superResolveTestName st allTests name).
  { apply IH. intros k i Hin. apply (H k i). right. exact Hin. }
  destruct (parentOf st item) as [p|]; [|exact Hrest].
  rewrite (Hparent p eq_refl). cbn [andb]. exact Hrest.
Qed.

(** X15. Where no test of the run is a suite or has a suite as its
    parent, a name that is not empty is resolved by the method of the
    super class alone, on the resolver as it is. *)
Theorem X15_without_suites_the_super_class_resolves (st : Resolver)
    (tests : list (string * ref)) (name : string) :
  name <> EmptyString ->
  (forall key item, In (key, item) tests ->
     has (isTestSuiteFunc st) item = false
     /\ forall p, parentOf st item = Some p -> has (isTestSuiteFunc st) p = false) ->
  resolve st tests name = superResolveTestName st tests name.
Proof.
  intros Hn H. unfold resolve, resolveTestName.
  destruct (String.eqb_spec name EmptyString) as [E|_]; [contradiction|].
  apply resolveInTests_without_suites. exact H.
Qed.

End Fallback.

Lemma X15_without_suites_the_super_class_resolves_witness :
  resolveTestName extractMethodName lookupFlatName plainTree
    [("TestA", 0%nat); ("TestB", 1%nat)] "TestB"
  = lookupFlatName plainTree [("TestA", 0%nat); ("TestB", 1%nat)] "TestB".
Proof.
  apply (X15_without_suites_the_super_class_resolves extractMethodName lookupFlatName
           plainTree [("TestA", 0%nat); ("TestB", 1%nat)] "TestB").
  - discriminate.
  - intros key item [[= <- <-]|[[= <- <-]|[]]]; split; try reflexivity;
      intros p Hp; discriminate Hp.
Defined.

Lemma escape_plain (s : string) :
  plain s = true -> escapeSpecialCharacters s = s.
Proof.
  induction s as [|a s IH]; [reflexivity|].
  cbn [plain escapeSpecialCharacters]. intros H.
  apply andb_prop in H as [H Hs]. apply andb_prop in H as [Ha _].
  apply negb_true_iff in Ha. rewrite Ha, (IH Hs). reflexivity.
Qed.

Lemma escape_app (s t : string) :
  escapeSpecialCharacters (s +++ t)
  = escapeSpecialCharacters s +++ escapeSpecialCharacters t.
Proof.
  induction s as [|a s IH]; [reflexivity|].
  cbn [String.append escapeSpecialCharacters].
  destruct (isSpecialCharacter a); cbn [String.append]; rewrite IH; reflexivity.
Qed.

Lemma replaceFirstSlash_after_plain (s rest : string) :
  plain s = true ->
  replaceFirstSlash (s +++ String "/"%char rest) = s +++ "$/^" +++ rest.
Proof.
  induction s as [|a s IH]; [reflexivity|].
  cbn [plain String.append replaceFirstSlash]. intros H.
  apply andb_prop in H as [H Hs]. apply andb_prop in H as [_ Ha].
  apply negb_true_iff in Ha. rewrite Ha, (IH Hs). reflexivity.
Qed.

(** The pattern of a method of a suite under plain names. *)
Lemma filterFunction_suite_method (suiteName method : string) :
  plain suiteName = true -> plain method = true ->
  filterFunction (suiteName +++ "/" +++ method) = suiteName +++ "$/^" +++ method.
Proof.
  intros Hs Hm. unfold filterFunction.
  rewrite escape_app, (escape_plain suiteName Hs).
  cbn [String.append escapeSpecialCharacters].
  replace (isSpecialCharacter "/"%char) with false by reflexivity.
  rewrite (escape_plain method Hm).
  apply (replaceFirstSlash_after_plain suiteName method Hs).
Qed.

Lemma filter_among_the_arguments (c : TestConfig) (fs : list string) (b : bool)
    (target file : string) (dbg : option DebugConfiguration) :
  In (testFilter (map filterFunction fs))
    (getBazelArgs (withFunctions fs b c) [target] file dbg).
Proof.
  unfold getBazelArgs, withFunctions.
  cbn [functions applyCodeCoverage isBenchmark flags testEnvArgs List.length Nat.eqb].
  destruct (isBenchmark c).
  - apply in_or_app. left.
    do 3 (apply in_or_app; left). apply in_or_app. right. left. reflexivity.
  - do 3 (apply in_or_app; left). apply in_or_app. right. left. reflexivity.
Qed.

Section SuiteMethod.

Variable extractInstanceTestName : string -> string.

(** X16. A run of one method of a suite on one target: under plain names
    of the suite and of the method, the function handed to Bazel is the
    method as a subtest of the suite, and the arguments carry the filter
    that anchors both names. *)
Theorem X16_suite_method_filter (st : Resolver) (c : TestConfig)
    (suiteName method identifier target file : string) (child suite : ref)
    (coverageEnabled : bool) (dbg : option DebugConfiguration) :
  extractInstanceTestName identifier = method ->
  method <> EmptyString ->
  parentOf st child = Some suite ->
  has (isTestSuiteFunc st) suite = true ->
  nameOf st suite = Some suiteName ->
  plain suiteName = true ->
  plain method = true ->
  runFunctions extractInstanceTestName st [(identifier, child)]
  = [suiteName +++ "/" +++ method]
  /\ In ("--test_filter='^" +++ (suiteName +++ "$/^" +++ method) +++ "$'")
       (getBazelArgs
          (withFunctions (runFunctions extractInstanceTestName st [(identifier, child)])
             coverageEnabled c)
          [target] file dbg).
Proof.
  intros He Hne Hp Hs Hn Hps Hpm.
  assert (Hrun : runFunctions extractInstanceTestName st [(identifier, child)]
                 = [suiteName +++ "/" +++ method]).
  { unfold runFunctions, formatTestCaseForFilter. cbn [map fst snd].
    rewrite Hp, Hs, He, Hn. cbn [andb display].
    destruct (String.eqb_spec method EmptyString) as [E|_]; [contradiction|].
    reflexivity. }
  split; [exact Hrun|]. rewrite Hrun.
  pose proof (filter_among_the_arguments c [suiteName +++ "/" +++ method]
                coverageEnabled target file dbg) as Hin.
  cbn [map testFilter] in Hin.
  rewrite (filterFunction_suite_method suiteName method Hps Hpm) in Hin.
  exact Hin.
Qed.

End SuiteMethod.

Lemma X16_suite_method_filter_witness :
  runFunctions extractMethodName sampleTree [("(*mySuiteType).TestCase1", 1%nat)]
  = ["MyTestSuite" +++ "/" +++ "TestCase1"]
  /\ In ("--test_filter='^" +++ ("MyTestSuite" +++ "$/^" +++ "TestCase1") +++ "$'")
       (getBazelArgs
          (withFunctions
             (runFunctions extractMethodName sampleTree
                [("(*mySuiteType).TestCase1", 1%nat)])
             false (sampleConfig []))
          ["//src/project:all"] "/tmp/build_events" None).
Proof.
  apply (X16_suite_method_filter extractMethodName sampleTree (sampleConfig [])
           "MyTestSuite" "TestCase1" "(*mySuiteType).TestCase1" "//src/project:all"
           "/tmp/build_events" 1%nat 0%nat false None);
    try reflexivity.
  discriminate.
Defined.


End RunnerMore.

(** ** The merged messages of a failed test *)
Module FailureMessagesFacts.
Import JS CoverageFacts CoverageMore FailureMessages.

Lemma append_assoc (a b c : string) : (a +++ b) +++ c = a +++ (b +++ c).
Proof. induction a as [|x a IH]; [reflexivity|]. cbn. rewrite IH. reflexivity. Qed.

Lemma join_snoc (sep : string) (l : list string) (x : string) :
  l <> [] -> join sep (l ++ [x]) = join sep l +++ sep +++ x.
Proof.
  induction l as [|a l IH]; [contradiction|]. intros _.
  destruct l as [|b l]; [reflexivity|].
  change (join sep ((a :: b :: l) ++ [x]))
    with (a +++ sep +++ join sep ((b :: l) ++ [x])).
  rewrite IH by discriminate.
  change (join sep (a :: b :: l)) with (a +++ sep +++ join sep (b :: l)).
  rewrite !append_assoc. reflexivity.
Qed.

Section MergeFacts.

Variable existsSync : string -> bool.

Let step := mergeOne existsSync.

(** What the loop keeps true of its two variables. *)
Let placed (m : merging) : Prop :=
  Forall (fun e => wellPlaced existsSync (snd e) = true) (merged m)
  /\ wellPlaced existsSync {| message := EmptyString; location := lastValidLoc m |} = true.

Lemma mapSet_Forall {V : Type} (P : string * V -> Prop) (k : string) (v : V)
    (m : list (string * V)) :
  Forall P m -> P (k, v) -> (forall k', P (k', v)) ->
  Forall P (Coverage.mapSet k v m).
Proof.
  intros Hm Hv Hany. induction Hm as [|[k' v'] m Hx Hm IH]; cbn [Coverage.mapSet].
  - constructor; [exact Hv | constructor].
  - destruct (String.eqb k' k); constructor; auto.
Qed.

Lemma step_placed (m : merging) (msg : TestMessage) : placed m -> placed (step m msg).
Proof.
  intros [Hm Hl]. unfold step, mergeOne, placed.
  destruct (Coverage.mapGet (locOf (location msg)) (merged m)) as [existing|] eqn:Hg.
  - cbn [merged lastValidLoc]. split; [|exact Hl].
    apply mapGet_Some_In in Hg.
    pose proof (proj1 (Forall_forall _ _) Hm _ Hg) as He. cbn [snd] in He.
    apply mapSet_Forall; [exact Hm | exact He | intros k'; exact He].
  - destruct (location msg) as [l|] eqn:Hloc.
    + destruct (existsSync (fsPath (uri l))) eqn:Hex; cbn [merged lastValidLoc].
      * split; [|exact Hex].
        apply mapSet_Forall; [exact Hm | exact Hex | intros k'; exact Hex].
      * split; [|exact Hl].
        apply mapSet_Forall; [exact Hm | exact Hl | intros k'; exact Hl].
    + cbn [merged lastValidLoc]. split; [|exact Hl].
      apply mapSet_Forall; [exact Hm | exact Hl | intros k'; exact Hl].
Qed.

Lemma fold_placed (messages : list TestMessage) :
  forall m, placed m -> placed (fold_left step messages m).
Proof.
  induction messages as [|msg messages IH]; intros m Hm; [exact Hm|].
  cbn [fold_left]. apply IH. apply step_placed. exact Hm.
Qed.

Let locations (m : list (string * TestMessage)) : list (option Location) :=
  map (fun e => location (snd e)) m.

Lemma mapSet_locations_new (k : string) (v : TestMessage)
    (m : list (string * TestMessage)) :
  Coverage.mapGet k m = None ->
  locations (Coverage.mapSet k v m) = locations m ++ [location v].
Proof.
  induction m as [|[k' v'] m IH]; cbn [Coverage.mapGet Coverage.mapSet]; [reflexivity|].
  destruct (String.eqb k' k); [discriminate|]. intros H.
  unfold locations in *. cbn [map app]. rewrite (IH H). reflexivity.
Qed.

Lemma mapSet_locations_kept (k : string) (v existing : TestMessage)
    (m : list (string * TestMessage)) :
  Coverage.mapGet k m = Some existing -> location v = location existing ->
  locations (Coverage.mapSet k v m) = locations m.
Proof.
  intros Hg Hv.
  induction m as [|[k' v'] m IH]; cbn [Coverage.mapGet Coverage.mapSet] in Hg |- *;
    [discriminate|].
  destruct (String.eqb k' k).
  - injection Hg as ->. unfold locations. cbn [map snd]. rewrite Hv. reflexivity.
  - unfold locations in *. cbn [map]. rewrite (IH Hg). reflexivity.
Qed.

(** The loop adds to the map, for each message that starts a key, an
    entry at its place, and moves no entry that is there. *)
Lemma fold_locations (messages : list TestMessage) :
  forall m,
  locations (merged (fold_left step messages m))
  = locations (merged m)
    ++ places existsSync (lastValidLoc m) (startsFrom (map fst (merged m)) messages).
Proof.
  induction messages as [|msg messages IH]; intros m.
  - cbn. rewrite app_nil_r. reflexivity.
  - cbn [fold_left startsFrom]. rewrite IH. unfold step, mergeOne.
    destruct (Coverage.mapGet (locOf (location msg)) (merged m)) as [existing|] eqn:Hg.
    + cbn [merged lastValidLoc].
      rewrite mapSet_keys, Hg.
      erewrite mapSet_locations_kept; [|exact Hg|reflexivity].
      assert (Hi : Coverage.includes (map fst (merged m)) (locOf (location msg)) = true).
      { apply includes_In. apply mapGet_Some_In in Hg.
        apply (in_map fst) in Hg. exact Hg. }
      rewrite Hi. reflexivity.
    + assert (Hi : Coverage.includes (map fst (merged m)) (locOf (location msg)) = false).
      { destruct (Coverage.includes (map fst (merged m)) (locOf (location msg))) eqn:Hi;
          [|reflexivity].
        apply includes_In in Hi. exfalso. exact (mapGet_None_keys _ _ Hg Hi). }
      rewrite Hi. cbn [places]. unfold onFile.
      destruct (location msg) as [l|] eqn:Hloc;
        [destruct (existsSync (fsPath (uri l)))|];
        cbn [merged lastValidLoc];
        rewrite mapSet_keys, Hg, (mapSet_locations_new _ _ _ Hg), <- app_assoc;
        reflexivity.
Qed.

(** X18. Whatever the messages of the failed test, every merged message
    is at no location or at a location whose file exists; and, with the
    messages that start a key taken in their order, the merged message
    of a key is at the location of the message that starts it when the
    file of that location exists, and otherwise where the merged message
    before it is, at no location for the first of them. *)
Theorem X18_merged_messages_are_on_existing_files (messages : list TestMessage) :
  Forall (fun msg => wellPlaced existsSync msg = true)
    (mergeMessages existsSync messages)
  /\ map location (mergeMessages existsSync messages)
     = places existsSync None (starts messages).
Proof.
  split.
  - unfold mergeMessages, Coverage.mapValues. fold step.
    destruct (fold_placed messages {| merged := []; lastValidLoc := None |}) as [H _].
    { split; [constructor | reflexivity]. }
    apply Forall_forall. intros msg Hin. apply in_map_iff in Hin as (e & <- & He).
    exact (proj1 (Forall_forall _ _) H e He).
  - unfold mergeMessages, Coverage.mapValues, starts. fold step. rewrite map_map.
    exact (fold_locations messages {| merged := []; lastValidLoc := None |}).
Qed.

End MergeFacts.


Section GroupFacts.

Variable existsSync : string -> bool.

Let step := mergeOne existsSync.
Let keyOf (msg : TestMessage) : string := locOf (location msg).

(** The map after a pass of the loop: one [set] at the key of the
    message, with the text of the entry that was there in front. *)
Lemma step_merged (m : merging) (msg : TestMessage) :
  exists v,
    merged (step m msg) = Coverage.mapSet (keyOf msg) v (merged m)
    /\ message v
       = match Coverage.mapGet (keyOf msg) (merged m) with
         | Some existing => message existing +++ newline +++ message msg
         | None => message msg
         end.
Proof.
  unfold step, mergeOne, keyOf.
  destruct (Coverage.mapGet (locOf (location msg)) (merged m)) as [existing|].
  - eexists. split; reflexivity.
  - destruct (location msg) as [l|]; [destruct (existsSync (fsPath (uri l)))|];
      eexists; split; reflexivity.
Qed.

Lemma textsAt_snoc (k : string) (done : list TestMessage) (msg : TestMessage) :
  textsAt k (done ++ [msg])
  = textsAt k done ++ (if String.eqb (keyOf msg) k then [message msg] else []).
Proof.
  unfold textsAt, keyOf. rewrite filter_app, map_app. cbn [filter].
  destruct (String.eqb (locOf (location msg)) k); reflexivity.
Qed.

Let grouped (m : merging) (done : list TestMessage) : Prop :=
  NoDup (map fst (merged m))
  /\ map fst (merged m) = firstSeen (map keyOf done)
  /\ (forall k, In k (map fst (merged m)) <-> textsAt k done <> [])
  /\ (forall e, In e (merged m) ->
        message (snd e) = join newline (textsAt (fst e) done)).

Lemma step_grouped (m : merging) (done : list TestMessage) (msg : TestMessage) :
  grouped m done -> grouped (step m msg) (done ++ [msg]).
Proof.
  intros (Hnd & Hkeys & Hin & Htext).
  destruct (step_merged m msg) as (v & Hm & Hv). unfold grouped. rewrite Hm.
  assert (Hget : match Coverage.mapGet (keyOf msg) (merged m) with
                 | Some existing =>
                     In (keyOf msg, existing) (merged m)
                     /\ Coverage.includes (map fst (merged m)) (keyOf msg) = true
                 | None => Coverage.includes (map fst (merged m)) (keyOf msg) = false
                 end).
  { destruct (Coverage.mapGet (keyOf msg) (merged m)) as [existing|] eqn:Hg.
    - apply mapGet_Some_In in Hg. split; [exact Hg|].
      apply includes_In. apply in_map_iff. exists (keyOf msg, existing).
      split; [reflexivity | exact Hg].
    - apply mapGet_None_keys in Hg.
      destruct (Coverage.includes (map fst (merged m)) (keyOf msg)) eqn:Hi; [|reflexivity].
      apply includes_In in Hi. contradiction. }
  split; [apply mapSet_NoDup; exact Hnd|]. split; [|split].
  - rewrite mapSet_keys. unfold firstSeen. rewrite map_app, fold_left_app.
    cbn [map fold_left]. fold (firstSeen (map keyOf done)). rewrite <- Hkeys.
    destruct (Coverage.mapGet (keyOf msg) (merged m)) as [existing|].
    + destruct Hget as [_ Hi]. rewrite Hi. reflexivity.
    + rewrite Hget. reflexivity.
  - intros k. rewrite textsAt_snoc.
    destruct (String.eqb_spec (keyOf msg) k) as [<-|Hne].
    + split; [|intros _; apply mapSet_has_key].
      intros _ He. apply app_eq_nil in He as [_ He]. discriminate He.
    + rewrite app_nil_r, <- Hin, mapSet_keys.
      destruct (Coverage.mapGet (keyOf msg) (merged m)); [reflexivity|].
      rewrite in_app_iff. cbn [In]. split; [|left; assumption].
      intros [H|[H|[]]]; [exact H | contradiction].
  - intros e He. apply (mapSet_In _ _ _ _ Hnd) in He as [->|[He Hne]].
    + cbn [fst snd]. rewrite textsAt_snoc, String.eqb_refl, Hv.
      destruct (Coverage.mapGet (keyOf msg) (merged m)) as [existing|] eqn:Hg.
      * destruct Hget as [Hex _].
        assert (Hne : textsAt (keyOf msg) done <> []).
        { apply Hin. apply in_map_iff. exists (keyOf msg, existing).
          split; [reflexivity | exact Hex]. }
        rewrite (join_snoc newline _ (message msg) Hne).
        pose proof (Htext _ Hex) as Hmsg. cbn [fst snd] in Hmsg.
        rewrite Hmsg. reflexivity.
      * assert (Hnil : textsAt (keyOf msg) done = []).
        { destruct (textsAt (keyOf msg) done) as [|t ts] eqn:Ht; [reflexivity|].
          exfalso. apply mapGet_None_keys in Hg. apply Hg. apply Hin.
          rewrite Ht. discriminate. }
        rewrite Hnil. reflexivity.
    + rewrite textsAt_snoc.
      destruct (String.eqb_spec (keyOf msg) (fst e)) as [E|_];
        [symmetry in E; contradiction|].
      rewrite app_nil_r. apply Htext. exact He.
Qed.

Lemma fold_grouped (rest : list TestMessage) :
  forall m done, grouped m done -> grouped (fold_left step rest m) (done ++ rest).
Proof.
  induction rest as [|msg rest IH]; intros m done H.
  - rewrite app_nil_r. exact H.
  - cbn [fold_left].
    replace (done ++ msg :: rest) with ((done ++ [msg]) ++ rest)
      by (rewrite <- app_assoc; reflexivity).
    apply IH. apply step_grouped. exact H.
Qed.

(** X19. The merged messages are the messages grouped by location: one
    for each key of location and line, in the order in which the keys
    are first seen, its text the texts of the messages at the key, in
    their order, with a line feed between them. *)
Theorem X19_merged_messages_group_the_texts_by_location (messages : list TestMessage) :
  map message (mergeMessages existsSync messages)
  = map (fun loc => join newline (textsAt loc messages))
      (firstSeen (map (fun msg => locOf (location msg)) messages)).
Proof.
  unfold mergeMessages, Coverage.mapValues. fold step.
  destruct (fold_grouped messages {| merged := []; lastValidLoc := None |} [])
    as (_ & Hkeys & _ & Htext).
  { split; [constructor|]. split; [reflexivity|]. split.
    - intros k. split; [intros [] | intros H; contradiction H; reflexivity].
    - intros e []. }
  cbn [app] in Hkeys, Htext. fold keyOf. rewrite <- Hkeys, !map_map.
  apply map_ext_in. intros e He. apply Htext. exact He.
Qed.

End GroupFacts.

(** The sample: each of its keys is started by one message, and the two
    that are not on a file are placed at line 12 of the test file. *)
Example sample_places :
  starts sampleMessages
  = [ {| message := "expected 1"; location := Some (testFileLine 12) |};
      {| message := "panic in helper"; location := Some (generatedLine 3) |};
      {| message := "no position"; location := None |} ]
  /\ places sampleExists None (starts sampleMessages)
     = [ Some (testFileLine 12); Some (testFileLine 12); Some (testFileLine 12) ].
Proof. split; reflexivity. Qed.

(** The sample: two messages at line 12 of the test file, one of
    generated code that is not there, one without a position. *)
Example sample_merged_messages :
  mergeMessages sampleExists sampleMessages
  = [ {| message := "expected 1" +++ newline +++ "got 2";
         location := Some (testFileLine 12) |};
      {| message := "panic in helper"; location := Some (testFileLine 12) |};
      {| message := "no position"; location := Some (testFileLine 12) |} ].
Proof. reflexivity. Qed.


End FailureMessagesFacts.

(** ** The environment of a test *)
Module TestEnvFacts.
Import JS CoverageFacts CoverageMore TestEnv.

Lemma insertIndex_permutation (e : N * string) (l : list (N * string)) :
  Permutation (insertIndex e l) (e :: l).
Proof.
  induction l as [|x l IH]; [apply Permutation_refl|].
  cbn [insertIndex]. destruct (fst e <=? fst x)%N; [apply Permutation_refl|].
  apply (perm_trans (perm_skip x IH)). apply perm_swap.
Qed.

Lemma sortIndices_permutation (l : list (N * string)) : Permutation (sortIndices l) l.
Proof.
  induction l as [|e l IH]; [apply perm_nil|].
  cbn [sortIndices fold_right].
  apply (perm_trans (insertIndex_permutation e _)). apply perm_skip. exact IH.
Qed.

(** [Object.keys] lists every key, once. *)
Lemma ownKeys_permutation (keys : list string) : Permutation (ownKeys keys) keys.
Proof.
  unfold ownKeys.
  apply (perm_trans (l' := map snd (flat_map indexed keys) ++ filter named keys)).
  { apply Permutation_app_tail. apply Permutation_map. apply sortIndices_permutation. }
  induction keys as [|k keys IH]; [apply perm_nil|].
  cbn [flat_map filter]. unfold indexed at 1, named at 1.
  destruct (arrayIndex k) as [n|]; cbn [app map snd].
  - apply perm_skip. exact IH.
  - apply Permutation_sym. apply Permutation_cons_app. apply Permutation_sym. exact IH.
Qed.

Lemma ownKeys_In (keys : list string) (k : string) : In k (ownKeys keys) <-> In k keys.
Proof.
  split; apply Permutation_in;
    [apply ownKeys_permutation | apply Permutation_sym, ownKeys_permutation].
Qed.

Lemma mapGet_In_keys {V : Type} (k : string) (m : list (string * V)) :
  In k (map fst m) -> exists v, Coverage.mapGet k m = Some v.
Proof.
  induction m as [|[k' v'] m IH]; [intros []|].
  cbn [map fst In Coverage.mapGet]. intros [->|H].
  - rewrite String.eqb_refl. exists v'. reflexivity.
  - destruct (String.eqb k' k); [exists v'; reflexivity | apply IH; exact H].
Qed.

Section EnvFacts.

Variable resolvePath : string -> string.
Variable parseEnvFile : string -> option object.

Let resolved := TestEnv.resolved resolvePath.
Let assign := TestEnv.assign resolvePath.

Let put (source : object) (env : object) (key : string) : object :=
  match Coverage.mapGet key source with
  | Some v => Coverage.mapSet key (resolved v) env
  | None => env
  end.

Lemma fold_put (source : object) (k : string) (keys : list string) :
  forall env,
  NoDup (map fst env) ->
  NoDup (map fst (fold_left (put source) keys env))
  /\ Coverage.mapGet k (fold_left (put source) keys env)
     = match (if Coverage.includes keys k then Coverage.mapGet k source else None) with
       | Some v => Some (resolved v)
       | None => Coverage.mapGet k env
       end.
Proof.
  induction keys as [|key keys IH]; intros env Hnd; [split; [exact Hnd | reflexivity]|].
  cbn [fold_left].
  assert (Hnd' : NoDup (map fst (put source env key))).
  { unfold put. destruct (Coverage.mapGet key source); [apply mapSet_NoDup|]; exact Hnd. }
  destruct (IH (put source env key) Hnd') as [Hn Hg]. split; [exact Hn|].
  rewrite Hg. unfold Coverage.includes. cbn [existsb]. fold (Coverage.includes keys k).
  destruct (Coverage.includes keys k); cbn [orb].
  - rewrite orb_true_r.
    destruct (Coverage.mapGet k source) as [v|] eqn:Hs; [reflexivity|].
    unfold put. destruct (String.eqb_spec k key) as [<-|Hne].
    + rewrite Hs. reflexivity.
    + destruct (Coverage.mapGet key source); [|reflexivity].
      apply mapGet_mapSet_ne. intros E. apply Hne. symmetry. exact E.
  - rewrite orb_false_r. unfold put.
    destruct (String.eqb_spec k key) as [<-|Hne].
    + destruct (Coverage.mapGet k source) as [v|]; [|reflexivity].
      apply mapGet_mapSet_eq.
    + destruct (Coverage.mapGet key source); [|reflexivity].
      apply mapGet_mapSet_ne. intros E. apply Hne. symmetry. exact E.
Qed.

(** The loop of assignments: the values of the source, resolved, over
    those that were there. *)
Lemma assign_get (source env : object) (k : string) :
  NoDup (map fst env) ->
  NoDup (map fst (assign source env))
  /\ Coverage.mapGet k (assign source env)
     = match Coverage.mapGet k source with
       | Some v => Some (resolved v)
       | None => Coverage.mapGet k env
       end.
Proof.
  intros Hnd. unfold assign, TestEnv.assign.
  destruct (fold_put source k (ownKeys (map fst source)) env Hnd) as [Hn Hg].
  split; [exact Hn|]. etransitivity; [exact Hg|].
  destruct (Coverage.includes (ownKeys (map fst source)) k) eqn:Hi; [reflexivity|].
  destruct (Coverage.mapGet k source) as [v|] eqn:Hs; [|reflexivity].
  exfalso. apply mapGet_Some_In in Hs.
  assert (Hin : In k (ownKeys (map fst source))).
  { apply ownKeys_In. apply in_map_iff. exists (k, v). split; [reflexivity | exact Hs]. }
  apply includes_In in Hin. rewrite Hin in Hi. discriminate Hi.
Qed.

Lemma entries_keys (o : object) : map fst (entries o) = ownKeys (map fst o).
Proof.
  unfold entries.
  assert (H : forall keys, (forall k, In k keys -> In k (map fst o)) ->
              map fst (flat_map (fun k => match Coverage.mapGet k o with
                                          | Some v => [(k, v)]
                                          | None => []
                                          end) keys) = keys).
  { induction keys as [|k keys IH]; intros Hk; [reflexivity|].
    cbn [flat_map]. destruct (mapGet_In_keys k o (Hk k (or_introl eq_refl))) as [v Hv].
    rewrite Hv. cbn [app map fst]. rewrite IH; [reflexivity|].
    intros k' Hk'. apply Hk. right. exact Hk'. }
  apply H. intros k Hk. exact (proj1 (ownKeys_In _ _) Hk).
Qed.

Lemma entries_In (o : object) (k : string) (v : setting) :
  In (k, v) (entries o) <-> Coverage.mapGet k o = Some v.
Proof.
  unfold entries. rewrite in_flat_map. split.
  - intros (k' & _ & Hin). destruct (Coverage.mapGet k' o) as [v'|] eqn:Hg; [|destruct Hin].
    destruct Hin as [[= <- <-]|[]]. exact Hg.
  - intros Hg. exists k. split.
    + apply ownKeys_In. apply in_map_iff. exists (k, v).
      split; [reflexivity | apply mapGet_Some_In; exact Hg].
    + rewrite Hg. left. reflexivity.
Qed.

(** X20. The arguments for the environment are one for each variable of
    the settings or of the env file, the name once: a variable has the
    value of the settings when it is there, else that of the file, a
    string value with its path resolved; an env file that cannot be
    parsed gives no variable. *)
Theorem X20_settings_take_precedence_over_the_env_file (config : WorkspaceConfiguration) :
  getBazelTestEnvVars resolvePath parseEnvFile config
  = map testEnvArg (entries (envVarsOf resolvePath parseEnvFile config))
  /\ NoDup (map fst (entries (envVarsOf resolvePath parseEnvFile config)))
  /\ forall k v,
       In (k, v) (entries (envVarsOf resolvePath parseEnvFile config))
       <-> valueOf resolvePath parseEnvFile config k = Some v.
Proof.
  split; [reflexivity|].
  set (fileEnv := fileEnvOf resolvePath parseEnvFile config).
  set (testEnvConfig := testEnvConfigOf config).
  assert (Hfile : forall k, NoDup (map fst (assign fileEnv []))
                            /\ Coverage.mapGet k (assign fileEnv [])
                               = option_map resolved (Coverage.mapGet k fileEnv)).
  { intros k. destruct (assign_get fileEnv [] k (NoDup_nil _)) as [Hn Hg].
    split; [exact Hn|]. rewrite Hg. destruct (Coverage.mapGet k fileEnv); reflexivity. }
  assert (Hall : forall k, NoDup (map fst (envVarsOf resolvePath parseEnvFile config))
                           /\ Coverage.mapGet k (envVarsOf resolvePath parseEnvFile config)
                              = valueOf resolvePath parseEnvFile config k).
  { intros k.
    destruct (assign_get testEnvConfig (assign fileEnv []) k (proj1 (Hfile k))) as [Hn Hg].
    split; [exact Hn|]. etransitivity; [exact Hg|].
    rewrite (proj2 (Hfile k)). reflexivity. }
  split.
  - rewrite entries_keys.
    apply (Permutation_NoDup (Permutation_sym (ownKeys_permutation _))).
    exact (proj1 (Hall EmptyString)).
  - intros k v. rewrite entries_In, (proj2 (Hall k)). reflexivity.
Qed.

End EnvFacts.

(** The sample: [DATA] is in both and has the value of the settings,
    resolved; the number is left as it is. *)
Example sample_test_env :
  getBazelTestEnvVars sampleResolvePath sampleEnvFile sampleEnvConfig
  = [ "--test_env=GOFLAGS=-mod=vendor"; "--test_env=DATA=/home/user/fixtures";
      "--test_env=RETRIES=3" ].
Proof. reflexivity. Qed.

End TestEnvFacts.

(** ** The coverage toggle *)
Module CoverageToggleFacts.
Import CoverageToggle.

Lemma setup_inStep (s : session) : inStep (setupCoverageStatusBarItem s).
Proof.
  unfold setupCoverageStatusBarItem.
  destruct (lastCoverageStatus s); split; reflexivity.
Qed.

Lemma toggle_inStep (s : session) : inStep (toggleCoverage s).
Proof.
  unfold toggleCoverage, updateStatusBarItem. cbn [coverageEnabled].
  destruct (negb (enabled (coverageEnabled s))); split; reflexivity.
Qed.

Lemma toggles_inStep (n : nat) : forall s, inStep s -> inStep (toggles n s).
Proof.
  induction n as [|n IH]; intros s H; [exact H|].
  cbn [toggles]. apply IH. apply toggle_inStep.
Qed.

Lemma toggle_flag (s : session) :
  coverageEnabled (toggleCoverage s) = Some (negb (enabled (coverageEnabled s)))
  /\ treeClears (toggleCoverage s)
     = (treeClears s + (if enabled (coverageEnabled s) then 1 else 0))%nat.
Proof.
  unfold toggleCoverage, updateStatusBarItem. cbn [coverageEnabled].
  destruct (enabled (coverageEnabled s)); cbn [negb coverageEnabled treeClears];
    split; try reflexivity; lia.
Qed.

(** X21. After the set-up and any number of toggles the item shows the
    flag and the stored value is the flag, so that the set-up of a later
    session gives the flag back whatever that session starts with, unless
    nothing was ever stored; one toggle negates the flag, and it clears
    the coverage tree exactly when it turns coverage off. *)
Theorem X21_the_toggle_is_stored_and_restored (n : nat) (s0 : session)
    (flag : option bool) :
  let s := toggles n (setupCoverageStatusBarItem s0) in
  lastCoverageStatus s = coverageEnabled s
  /\ statusText s
     = "Coverage " +++ (if enabled (coverageEnabled s) then "Enabled" else "Disabled")
  /\ coverageEnabled (setupCoverageStatusBarItem (restart flag s))
     = match coverageEnabled s with Some b => Some b | None => flag end
  /\ coverageEnabled (toggleCoverage s) = Some (negb (enabled (coverageEnabled s)))
  /\ treeClears (toggleCoverage s)
     = (treeClears s + (if enabled (coverageEnabled s) then 1 else 0))%nat.
Proof.
  intros s.
  destruct (toggles_inStep n (setupCoverageStatusBarItem s0) (setup_inStep s0))
    as [Hstored Htext].
  fold s in Hstored, Htext.
  split; [exact Hstored|]. split; [exact Htext|]. split; [|apply toggle_flag].
  unfold setupCoverageStatusBarItem, restart. cbn [lastCoverageStatus].
  rewrite Hstored. destruct (coverageEnabled s); reflexivity.
Qed.

End CoverageToggleFacts.

(** ** The node a subtest path resolves to *)
Module ResolverMore.
Import JS Resolver ResolverFacts.

Lemma findChar_get (c : ascii) (s : string) :
  forall k i, findChar c k s = Some i -> String.get (i - k) s = Some c.
Proof.
  induction s as [|a s IH]; intros k i H; cbn [findChar] in H; [discriminate H|].
  destruct (Ascii.eqb_spec a c) as [->|_].
  - injection H as <-. rewrite Nat.sub_diag. reflexivity.
  - pose proof (findChar_bound c s (S k) i H) as Hb.
    replace (i - k)%nat with (S (i - S k)) by lia.
    cbn [String.get]. apply IH. exact H.
Qed.

Lemma get_sliceFrom (k : nat) :
  forall s j, String.get j (sliceFrom k s) = String.get (j + k) s.
Proof.
  induction k as [|k IH]; intros s j; cbn [sliceFrom].
  - rewrite Nat.add_0_r. reflexivity.
  - destruct s as [|a s].
    + destruct j; reflexivity.
    + rewrite IH. replace (j + S k)%nat with (S (j + k)) by lia. reflexivity.
Qed.

(** What [indexOf] answers, when it is not [-1], is an index of the
    character. *)
Lemma indexOf_found (s : string) (c : ascii) (from : Z) :
  indexOf s c from = (-1)%Z \/ charAtIs s (indexOf s c from) c = true.
Proof.
  unfold indexOf.
  destruct (findChar c (Z.to_nat from) (sliceFrom (Z.to_nat from) s)) as [i|] eqn:H;
    [right | left; reflexivity].
  pose proof (findChar_bound c _ _ _ H) as Hb.
  apply findChar_get in H. rewrite get_sliceFrom in H.
  replace (i - Z.to_nat from + Z.to_nat from)%nat with i in H by lia.
  unfold charAtIs. destruct (Z.ltb_spec (Z.of_nat i) 0); [lia|].
  rewrite Nat2Z.id, H. apply Ascii.eqb_refl.
Qed.

Lemma takeN_all (s : string) : takeN (String.length s) s = s.
Proof. induction s as [|a s IH]; [reflexivity|]. cbn. rewrite IH. reflexivity. Qed.

(** The end of a segment taken from no index, or from an answer of
    [indexOf], is the index of a slash or the length of the name. *)
Lemma segmentEnd_slash_or_length (name : string) (start : Z) (segmentEnd : option Z) :
  segmentEnd = None \/ (exists from, segmentEnd = Some (indexOf name "/"%char from)) ->
  charAtIs name (segmentEndOf name start segmentEnd) "/"%char = true
  \/ segmentEndOf name start segmentEnd = jsLength name.
Proof.
  assert (Hstart : charAtIs name
                     (if (indexOf name "/"%char start =? -1)%Z then jsLength name
                      else indexOf name "/"%char start) "/"%char = true
                   \/ (if (indexOf name "/"%char start =? -1)%Z then jsLength name
                       else indexOf name "/"%char start) = jsLength name).
  { destruct (Z.eqb_spec (indexOf name "/"%char start) (-1)) as [E|Hne];
      [right; reflexivity|].
    destruct (indexOf_found name "/"%char start) as [E|Hc]; [contradiction | left; exact Hc]. }
  intros [->|[from ->]]; unfold segmentEndOf; [exact Hstart|].
  destruct (Z.eqb_spec (indexOf name "/"%char from) 0) as [_|_]; [exact Hstart|].
  destruct (Z.eqb_spec (indexOf name "/"%char from) (-1)) as [E|Hne];
    [right; reflexivity|].
  destruct (indexOf_found name "/"%char from) as [E|Hc]; [contradiction | left; exact Hc].
Qed.

Section WholeName.

Variable name : string.
Variable start : Z.

Lemma resolveSubtestFrom_whole_name :
  forall fuel st parent segmentEnd node st',
  wellFormed st -> inStore st parent ->
  segmentEnd = None \/ (exists from, segmentEnd = Some (indexOf name "/"%char from)) ->
  resolveSubtestFrom fuel st parent name start segmentEnd = (Some node, st') ->
  goesBy st' name node = true.
Proof.
  induction fuel as [|fuel IH]; intros st parent segmentEnd node st' Hwf Hin Hp;
    cbn [resolveSubtestFrom];
    pose proof (segmentEnd_slash_or_length name start segmentEnd Hp) as Hend;
    set (e := segmentEndOf name start segmentEnd) in *;
    destruct (inStore_itemAt st parent Hin) as [it Hit];
    destruct (getOrCreateSubTest_in_store st parent (substring0 name e)
                (substring0 name e) true it Hwf Hit)
      as (child & st1 & Hg & _ & Hwf1 & Hfind & Hchild & _);
    rewrite Hg;
    destruct (charAtIs name e "/"%char) eqn:Hc.
  - discriminate.
  - intros [= <- <-]. destruct Hend as [Hs|He]; [discriminate Hs|].
    unfold findChild in Hfind. apply find_some in Hfind as [_ Hn].
    unfold goesBy. rewrite He in Hn. unfold substring0, jsLength in Hn.
    rewrite Nat2Z.id, takeN_all in Hn. exact Hn.
  - apply (IH st1 child _ node st' Hwf1 Hchild). right. eexists. reflexivity.
  - intros [= <- <-]. destruct Hend as [Hs|He]; [discriminate Hs|].
    unfold findChild in Hfind. apply find_some in Hfind as [_ Hn].
    unfold goesBy. rewrite He in Hn. unfold substring0, jsLength in Hn.
    rewrite Nat2Z.id, takeN_all in Hn. exact Hn.
Qed.

End WholeName.

(** X23. The node a subtest path resolves to goes by the whole name:
    the resolution goes from slash to slash, asking at each for the child
    named by the name up to there, and ends at the length of the name,
    whatever the index it starts from. *)
Theorem X23_resolved_subtest_goes_by_the_whole_name
    (st : Resolver) (parent : ref) (name : string) (start : Z) :
  wellFormed st -> inStore st parent ->
  exists node st',
    resolveSubtest st parent name start None = (Some node, st')
    /\ goesBy st' name node = true.
Proof.
  intros Hwf Hin.
  assert (Hfuel : (Z.to_nat (jsLength name - segmentEndOf name start None)
                   <= String.length name)%nat).
  { assert (H : (0 <= segmentEndOf name start None)%Z).
    { unfold segmentEndOf.
      destruct (indexOf_bound name "/"%char start) as [H|H].
      - rewrite H. cbn. unfold jsLength. lia.
      - destruct (Z.eqb_spec (indexOf name "/"%char start) (-1)); lia. }
    unfold jsLength in *. lia. }
  destruct (resolveSubtestFrom_answers name start (String.length name) st parent None
              Hwf Hin Hfuel) as (node & st' & Hres & _).
  exists node, st'. split; [exact Hres|].
  apply (resolveSubtestFrom_whole_name name start _ _ _ _ _ _ Hwf Hin (or_introl eq_refl) Hres).
Qed.

Lemma X23_resolved_subtest_goes_by_the_whole_name_witness :
  exists node st',
    resolveSubtest sampleTree 1%nat "MyTestSuite/TestCase1/SubTest1/Inner" 22 None
    = (Some node, st')
    /\ goesBy st' "MyTestSuite/TestCase1/SubTest1/Inner" node = true.
Proof.
  apply (X23_resolved_subtest_goes_by_the_whole_name sampleTree 1%nat
           "MyTestSuite/TestCase1/SubTest1/Inner" 22).
  - exact sampleTree_wellFormed.
  - unfold inStore. simpl. lia.
Defined.

End ResolverMore.

(** ** The coverage handler and its tree provider *)
Module CoverageHandlerFacts.
Import JS Coverage CoverageViews CoverageHandler.

Lemma nth_update_eq {A : Type} (i : nat) (x d : A) (l : list A) :
  (i < List.length l)%nat -> nth i (Resolver.update i x l) d = x.
Proof.
  revert i. induction l as [|a l IH]; intros i H; [cbn in H; lia|].
  destruct i as [|i]; [reflexivity|]. cbn in H |- *. apply IH. lia.
Qed.

(** The roots after a sequence of [addTreeRoot]: the nodes are behind
    those that were there, and no array is created. *)
Lemma fold_addTreeRoot (h : GoCoverageHandler) (nodes : list CoverageTreeNode) :
  forall w,
  (coverageTreeRoots h < List.length (arrays w))%nat ->
  arrayAt (fold_left (addTreeRoot h) nodes w) (coverageTreeRoots h)
  = arrayAt w (coverageTreeRoots h) ++ nodes
  /\ List.length (arrays (fold_left (addTreeRoot h) nodes w)) = List.length (arrays w)
  /\ showCoverage (fold_left (addTreeRoot h) nodes w) = showCoverage w.
Proof.
  induction nodes as [|node nodes IH]; intros w Hv.
  - cbn [fold_left]. rewrite app_nil_r. repeat split.
  - cbn [fold_left].
    assert (Hv' : (coverageTreeRoots h < List.length (arrays (addTreeRoot h w node)))%nat).
    { unfold addTreeRoot. cbn [arrays]. rewrite ResolverFacts.length_update. exact Hv. }
    destruct (IH (addTreeRoot h w node) Hv') as (Ha & Hl & Hs).
    rewrite Ha, Hl. split; [|split].
    + unfold arrayAt at 1, addTreeRoot. cbn [arrays].
      rewrite (nth_update_eq _ _ _ _ Hv), <- app_assoc. reflexivity.
    + unfold addTreeRoot. cbn [arrays]. apply ResolverFacts.length_update.
    + rewrite Hs. reflexivity.
Qed.

Lemma newRun_clears (h : GoCoverageHandler) (showPanel : bool) (w : world) :
  (coverageTreeRoots h < List.length (arrays w))%nat ->
  arrayAt (newRun h showPanel w) (coverageTreeRoots h) = []
  /\ List.length (arrays (newRun h showPanel w)) = List.length (arrays w)
  /\ showCoverage (newRun h showPanel w) = Some showPanel.
Proof.
  intros Hv. unfold newRun, clearCoverageTree, arrayAt. cbn [arrays showCoverage].
  rewrite (nth_update_eq _ _ _ _ Hv), ResolverFacts.length_update. repeat split.
Qed.

Section HandlerFacts.

Variable elaborate : Range -> Z -> bool -> list DecorationOptions.
Variable pathJoin : string -> string -> string.
Variable pathRelative : string -> string -> string.
Variable pathDirname : string -> string.
Variable pathBasename : string -> string.

Let process :=
  processLcovFilesOn elaborate pathJoin pathRelative pathDirname pathBasename.
Let nodesOf := packageNodes elaborate pathJoin pathRelative pathDirname pathBasename.

(** X24. The provider is built on the very array of roots of the
    handler, and a new run empties that array where it is: after a new
    run the tree that the provider shows is empty, and after the report
    of the run is processed it is the package nodes of that report alone,
    whatever an earlier run had left, the roots that [processLcovFiles]
    gives from no roots. *)
Theorem X24_provider_shows_the_roots_of_the_last_run
    (w : world) (earlier files : list LcovFile.t)
    (config' config : CoverageProcessingConfig) (showCounts show' show : bool) :
  let h := fst (newHandler w) in
  let w0 := snd (newHandler w) in
  let w1 := process h showCounts (Some earlier) config' (newRun h show' w0) in
  let w2 := newRun h show w1 in
  let w3 := process h showCounts (Some files) config w2 in
  providerChildren (provider h) w1 None = nodesOf showCounts earlier config'
  /\ providerChildren (provider h) w2 None = []
  /\ providerChildren (provider h) w3 None = nodesOf showCounts files config
  /\ option_map Coverage.coverageTreeRoots
       (processLcovFiles elaborate pathJoin pathRelative pathDirname pathBasename
          showCounts [] (Some files) config)
     = Some (providerChildren (provider h) w3 None)
  /\ showCoverage w3 = Some show.
Proof.
  intros h w0 w1 w2 w3.
  assert (Hv0 : (coverageTreeRoots h < List.length (arrays w0))%nat).
  { unfold h, w0, newHandler. cbn [fst snd coverageTreeRoots arrays].
    rewrite length_app. cbn. lia. }
  destruct (newRun_clears h show' w0 Hv0) as (Hc0 & Hl0 & _).
  assert (Hv0' : (coverageTreeRoots h < List.length (arrays (newRun h show' w0)))%nat)
    by (rewrite Hl0; exact Hv0).
  destruct (fold_addTreeRoot h (nodesOf showCounts earlier config') _ Hv0')
    as (Ha1 & Hl1 & _).
  assert (Hv1 : (coverageTreeRoots h < List.length (arrays w1))%nat).
  { unfold w1, process, processLcovFilesOn. fold nodesOf. rewrite Hl1. exact Hv0'. }
  destruct (newRun_clears h show w1 Hv1) as (Hc2 & Hl2 & Hs2). fold w2 in Hc2, Hl2, Hs2.
  assert (Hv2 : (coverageTreeRoots h < List.length (arrays w2))%nat)
    by (rewrite Hl2; exact Hv1).
  destruct (fold_addTreeRoot h (nodesOf showCounts files config) w2 Hv2)
    as (Ha3 & _ & Hs3).
  assert (H1 : providerChildren (provider h) w1 None = nodesOf showCounts earlier config').
  { unfold providerChildren, getChildren, w1, process, processLcovFilesOn.
    fold nodesOf. change (displayData (provider h)) with (coverageTreeRoots h).
    rewrite Ha1, Hc0. reflexivity. }
  assert (H3 : providerChildren (provider h) w3 None = nodesOf showCounts files config).
  { unfold providerChildren, getChildren, w3, process, processLcovFilesOn.
    fold nodesOf. change (displayData (provider h)) with (coverageTreeRoots h).
    rewrite Ha3, Hc2. reflexivity. }
  split; [exact H1|]. split; [exact Hc2|]. split; [exact H3|]. split.
  - rewrite H3. reflexivity.
  - unfold w3, process, processLcovFilesOn. fold nodesOf. rewrite Hs3. exact Hs2.
Qed.

End HandlerFacts.

End CoverageHandlerFacts.
